(** * Project Zomboid remote mod watchdog: a shallow embedding

    The Python script [PZ-Remote_Mod_Watchdog.py] watches the workshop mods of
    a game server, and restarts the server through its remote console when a
    mod was updated.  This development embeds the update detection and the
    restart orchestration of that script and states its behaviour as theorems;
    its last parts embed the parsers of the roster and of [server.ini], the
    PID file that guards against a second instance, and [main].

    Conventions of the embedding.
    - Python [int] is [Z]; [str] is [string], where a character is a code
      point below 256 (a string with a code point above is not a value of
      the embedding); a [dict] with string keys is a [gmap string _].
    - Effects are explicit.  A statement of the script is a computation
      [M A]: it takes the world, returns a value or raises an exception, and
      leaves a new world.  The world holds the files, and a chronological
      trace of what the outside could observe: console commands, HTTP
      requests, suspensions and file operations.
    - The remote console and the Steam Web API are oracles: the reply to the
      k-th command, the outcome of the k-th request.
    - Calls of [logger] are left out: they write to the log only, and no
      control flow depends on them.  What is computed for a log message is
      kept where it can raise: the dates [are_mods_outdated] formats into
      its warning go through an oracle of the platform, which tells for
      which timestamps [datetime.fromtimestamp] returns. *)

From Stdlib Require Import ZArith QArith_base Lia Ascii.
From stdpp Require Import base option list gmap strings pretty.

Local Open Scope string_scope.
Local Open Scope Z_scope.
Local Open Scope list_scope.

(** ** Strings *)

Module PyStr.

Definition chr (n : nat) : string := String (ascii_of_nat n) EmptyString.

(** The double quote, which the f-strings of the script escape. *)
Definition dquote : string := chr 34.

(** A character is its code point, which is below 256.

    Line boundaries of [str.splitlines] among these characters:
    LF, CR, VT, FF, FS, GS, RS and NEL (U+0085). *)
Definition is_linebreak (c : ascii) : bool :=
  let n := nat_of_ascii c in
  bool_decide (n ∈ [10; 13; 11; 12; 28; 29; 30; 133]%nat).

(** Whitespace of [str.strip] and of [int] among these characters: the
    blank, TAB, LF, VT, FF, CR, FS, GS, RS, US, NEL (U+0085) and the
    no-break space (U+00A0). *)
Definition is_space (c : ascii) : bool :=
  let n := nat_of_ascii c in
  bool_decide (n ∈ [32; 9; 10; 13; 11; 12; 28; 29; 30; 31; 133; 160]%nat).

Definition snoc (s : string) (c : ascii) : string :=
  s +:+ String c EmptyString.

(** [splitlines_go s line]: [line] is the line read so far.  CR LF counts
    as one boundary; a boundary at the very end opens no further line. *)
Fixpoint splitlines_go (s : string) (line : string) : list string :=
  match s with
  | EmptyString =>
      match line with EmptyString => [] | _ => [line] end
  | String c s' =>
      if is_linebreak c then
        line ::
          match s' with
          | String c' s'' =>
              if (nat_of_ascii c =? 13)%nat && (nat_of_ascii c' =? 10)%nat
              then splitlines_go s'' EmptyString
              else splitlines_go s' EmptyString
          | EmptyString => []
          end
      else splitlines_go s' (snoc line c)
  end.

Definition splitlines (s : string) : list string :=
  splitlines_go s EmptyString.

Fixpoint lstrip (s : string) : string :=
  match s with
  | String c s' => if is_space c then lstrip s' else s
  | EmptyString => EmptyString
  end.

Definition rstrip (s : string) : string :=
  String.rev (lstrip (String.rev s)).

Definition strip (s : string) : string := rstrip (lstrip s).

(** [s[1:]] *)
Definition tail (s : string) : string :=
  match s with String _ s' => s' | EmptyString => EmptyString end.

Definition startswith (s p : string) : bool := String.prefix p s.

(** Truth value of a string: non-empty. *)
Definition truthy (s : string) : bool :=
  match s with EmptyString => false | _ => true end.

(** [str(n)] for an [int]. *)
Definition of_int (n : Z) : string := pretty n.

End PyStr.

(** ** Exceptions, the world and the monad of statements *)

Inductive exn : Type :=
| NameError (name : string)
| ConsoleError            (* raised by [rcon.command] *)
| FileNotFoundError (path : string)
| PermissionError (path : string)
| JSONDecodeError (path : string)
| RequestException        (* [requests.RequestException] *)
| HTTPError               (* [raise_for_status], or a body that is no JSON *)
| OtherError.             (* any other [Exception] *)

Inductive result (A : Type) : Type :=
| Ok (a : A)
| Raise (e : exn).
Arguments Ok {A} a.
Arguments Raise {A} e.

(** An entry of the snapshot file: the object stored under a mod id.  A key
    that is absent from the object is [None]. *)
Record SnapEntry : Type := mkSnapEntry {
  snap_name : option string;
  snap_time_updated : option Z
}.

(** A number as [json.load] returns it: an [int] or a [float].  JSON's
    [true] and [false] become [True] and [False], which compare and convert
    as the integers 1 and 0. *)
Inductive number : Type :=
| Int (n : Z)
| Float (x : Q)
| NaN
| Infinity (negative : bool).

(** What the drift check can see of a value that [json.load] returns.
    Under the key [time_updated] of an entry: a number, or a value that has
    no order with an [int] ([None], a string, a list, an object). *)
Inductive time_view : Type :=
| Numeric (x : number)
| Unordered.

(** Under a mod id: an object, with what it holds under [time_updated] if
    it has that key, or a value that is no object and has no [get]. *)
Inductive entry_view : Type :=
| EntryDict (time : option time_view)
| NoEntryDict.

(** At the top: an object, or a value that is no object and has no
    [keys]. *)
Inductive json_view : Type :=
| SnapshotDict (entries : gmap string entry_view)
| NoSnapshotDict.

(** What a file holds, as far as [json.load] can tell: a text it raises
    on; an object of objects whose [time_updated], where they have one, is
    an integer, which is what the script writes; or any other value, of
    which the file keeps what the drift check can see. *)
Inductive file_content : Type :=
| Malformed (text : string)               (* [json.load] raises *)
| Json (doc : gmap string SnapEntry)      (* [json.load] returns [doc] *)
| Misshapen (value : json_view).          (* [json.load] returns another value *)

(** One detail object of a Steam reply; an absent key is [None]. *)
Record Details : Type := mkDetails {
  publishedfileid : string;
  title : option string;
  d_tags : option (list string);
  d_time_created : option Z;
  d_time_updated : option Z;
  d_num_children : option Z;
  d_children : option (list string)
}.

(** A value of the mapping [fetch_workshop_details] builds.  Every key is
    always there; [name] is [None] when the reply had no title. *)
Record ModInfo : Type := mkModInfo {
  name : option string;
  tags : list string;
  time_created : Z;
  time_updated : Z;
  num_children : Z;
  children : list string
}.

(** Outcome of one [requests.get] followed by [raise_for_status] and
    [json]. *)
Inductive http_outcome : Type :=
| NetworkFailure                       (* [requests.RequestException] *)
| RateLimited                          (* status code 429 *)
| BadResponse                          (* error status or malformed body *)
| Good (details : list Details)        (* [publishedfiledetails] of the body *)
| Unexpected.                          (* [requests.get] raises something else *)

Inductive event : Type :=
| RconCommand (command : string)
| Sleep (seconds : Q)
| HttpGet (ids : list string) (reply : http_outcome)
| FileOpenW (path : string)
| FileDump (path : string).

(** The world.  [console k c] is the response of the remote console to the
    k-th command of the run when that command is [c], or [None] when
    [rcon.command] raises; [steam k ids] is the outcome of the k-th request
    of the run when it asks for [ids]; [timestamps t] tells whether the
    platform converts [t] seconds since the epoch to a local date, or
    [datetime.fromtimestamp(t)] raises. *)
Record World : Type := mkWorld {
  files : gmap string file_content;
  unreadable : gset string;    (* [open(p, 'r')] raises *)
  unwritable : gset string;    (* [open(p, 'w')] raises *)
  console : nat → string → option string;
  steam : nat → list string → http_outcome;
  timestamps : number → bool;  (* [datetime.fromtimestamp(t)] returns *)
  trace : list event
}.

Definition set_trace (w : World) (t : list event) : World :=
  mkWorld (files w) (unreadable w) (unwritable w) (console w) (steam w)
    (timestamps w) t.

Definition set_files (w : World) (fs : gmap string file_content) : World :=
  mkWorld fs (unreadable w) (unwritable w) (console w) (steam w)
    (timestamps w) (trace w).

Definition is_rcon (e : event) : bool :=
  match e with RconCommand _ => true | _ => false end.

Definition is_http (e : event) : bool :=
  match e with HttpGet _ _ => true | _ => false end.

Definition rcon_calls (t : list event) : nat := length (List.filter is_rcon t).
Definition http_calls (t : list event) : nat := length (List.filter is_http t).

Definition M (A : Type) : Type := World → result A * World.

Definition ret {A} (a : A) : M A := λ w, (Ok a, w).

Definition bind {A B} (c : M A) (k : A → M B) : M B :=
  λ w, match c w with
       | (Ok a, w') => k a w'
       | (Raise e, w') => (Raise e, w')
       end.

Definition raise {A} (e : exn) : M A := λ w, (Raise e, w).

(** [try: c  except Exception as e: h e] *)
Definition try_except {A} (c : M A) (h : exn → M A) : M A :=
  λ w, match c w with
       | (Ok a, w') => (Ok a, w')
       | (Raise e, w') => h e w'
       end.

Notation "x <- c ;; k" := (bind c (λ x, k))
  (at level 20, c at level 99, k at level 200, only parsing).
Notation "c ;;; k" := (bind c (λ _, k))
  (at level 100, k at level 200, right associativity, only parsing).

Definition emit (e : event) : M unit :=
  λ w, (Ok tt, set_trace w (trace w ++ [e])).

(** [for x in xs: body x] *)
Fixpoint for_each {A} (xs : list A) (body : A → M unit) : M unit :=
  match xs with
  | [] => ret tt
  | x :: xs' => body x ;;; for_each xs' body
  end.

(** A coroutine object is a suspended computation.  Calling an [async def]
    function only builds the object; [await] runs it.  An expression
    statement evaluates its expression and drops the value. *)
Definition Coroutine (A : Type) : Type := M A.
Definition await {A} (c : Coroutine A) : M A := c.
Definition expr_stmt {A} (value : A) : M unit := ret tt.

(** [asyncio.sleep(n)] under [await], and [time.sleep(n)]. *)
Definition sleep (seconds : Q) : M unit := emit (Sleep seconds).
Definition sleep_int (seconds : Z) : M unit := sleep (inject_Z seconds).

(** ** The remote console *)

Record ZomboidRCON : Type := mkRCON {
  ip : string;
  port : Z;
  password : string
}.

(** [rcon.command(c).response]: the command goes out, then the console
    answers or the call raises. *)
Definition rcon_command (rcon : ZomboidRCON) (c : string) : M string :=
  λ w, let k := rcon_calls (trace w) in
       let w' := set_trace w (trace w ++ [RconCommand c]) in
       match console w k c with
       | Some response => (Ok response, w')
       | None => (Raise ConsoleError, w')
       end.

(** Names the module binds: its imports, its constants and its functions. *)
Definition module_names : list string :=
  [ "os"; "sys"; "json"; "time"; "logging"; "asyncio"; "argparse"; "paramiko";
    "requests"; "subprocess"; "timeout_decorator"; "Path"; "load_dotenv";
    "ZomboidRCON"; "datetime"; "timezone"; "RotatingFileHandler"; "timeout";
    "TimeoutError"; "List"; "Dict"; "Tuple"; "Iterable"; "Optional"; "Any";
    "STEAM_API_KEY"; "STEAM_API_USE_PFS"; "STEAM_API_URL_SR";
    "STEAM_API_URL_PFS"; "RCON_HOST"; "RCON_PORT"; "RCON_PASSWORD";
    "SFTP_HOST"; "SFTP_PORT"; "SFTP_USER"; "SFTP_PASSWORD";
    "SFTP_REMOTE_FILE"; "LOCAL_SERVER_INI"; "BATCH_SIZE"; "RESTART_TIMEOUT";
    "COUNTDOWN_MINUTES"; "WARNING_MESSAGE"; "RESTART_MESSAGE";
    "DISCORD_MODLIST_FILE"; "LOCAL_MODINFO_FILE"; "DEFAULT_WORKSHOP_URL";
    "script_name"; "log_file"; "log_handler"; "log_format";
    "console_handler"; "logger"; "PID_FILE"; "check_required_env";
    "check_pid"; "remove_pid"; "send_rcon_message"; "send_manual_message";
    "get_connected_players"; "kick_all_players"; "warn_and_restart";
    "sftp_download"; "read_enabled_mods"; "fetch_workshop_details";
    "create_modInfo"; "write_discord_modlist";
    "write_modInfo_timeUpdated_file"; "are_mods_outdated";
    "check_mods_and_handle"; "main" ].

Section Watchdog.

(** Configuration read from the environment when the module is loaded. *)
Variable RCON_HOST : string.
Variable RCON_PORT : Z.
Variable RCON_PASSWORD : string.
Variable BATCH_SIZE : Z.
Variable RESTART_TIMEOUT : Z.
Variable COUNTDOWN_MINUTES : Z.

Definition WARNING_MESSAGE (minutes : Z) : string :=
  "[SERVER] Restart in " +:+ PyStr.of_int minutes
    +:+ " minutes due to a mod update!".

Definition RESTART_MESSAGE (seconds : Z) : string :=
  "[SERVER] Server is restarting now due to a mod update! Please disconnect within "
    +:+ PyStr.of_int seconds +:+ "sec or get kicked!".

Definition LOCAL_MODINFO_FILE : string := "/tmp/modInfos.json".

(** [name(ip=RCON_HOST, port=RCON_PORT, password=RCON_PASSWORD)]: the
    name is looked up when the call runs.  [ZomboidRCON] is the one class
    of the module that takes these arguments. *)
Definition instantiate (name : string) : M ZomboidRCON :=
  if String.eqb name "ZomboidRCON" then
    ret (mkRCON RCON_HOST RCON_PORT RCON_PASSWORD)
  else if bool_decide (name ∈ module_names) then raise OtherError
  else raise (NameError name).

Definition send_rcon_message (rcon : ZomboidRCON) (message : string)
    (test_mode : bool) : M unit :=
  try_except
    (let message := if test_mode then message +:+ " (TEST)" else message in
     rcon_command rcon
       ("servermsg " +:+ PyStr.dquote +:+ message +:+ PyStr.dquote) ;;;
     ret tt)
    (λ _, ret tt).

Definition send_manual_message (message : string) : Coroutine unit :=
  rcon <- instantiate "ZomboidRCONient" ;;
  send_rcon_message rcon message false.

(** The loop of [get_connected_players] over the lines of the response. *)
Fixpoint collect_players (lines : list string) (players : list string)
    : list string :=
  match lines with
  | [] => players
  | line :: rest =>
      if PyStr.truthy (PyStr.strip line)
         && negb (PyStr.startswith line "Players connected")
      then collect_players rest (players ++ [PyStr.strip (PyStr.tail line)])
      else collect_players rest players
  end.

Definition parse_players (players_raw : string) : list string :=
  collect_players (PyStr.splitlines players_raw) [].

Definition get_connected_players (rcon : ZomboidRCON) : M (list string) :=
  players_raw <- rcon_command rcon "players" ;;
  ret (parse_players players_raw).

Definition kick_all_players (rcon : ZomboidRCON) (players : list string)
    : M unit :=
  try_except
    (for_each players
       (λ player, rcon_command rcon ("kickuser " +:+ player) ;;; ret tt))
    (λ _, ret tt).

(** The nested [async def saveAndQuit(rcon)]. *)
Definition saveAndQuit (rcon : ZomboidRCON) : Coroutine unit :=
  rcon_command rcon "save" ;;;
  await (sleep_int RESTART_TIMEOUT) ;;;
  rcon_command rcon "quit" ;;;
  ret tt.

(** [range(n, 0, -1)] *)
Definition range_down (n : Z) : list Z :=
  map Z.of_nat (reverse (seq 1 (Z.to_nat n))).

Definition is_nil {A} (l : list A) : bool :=
  match l with [] => true | _ => false end.

(** The countdown loop; the value is [_playersGone] at its end. *)
Fixpoint countdown (rcon : ZomboidRCON) (test_mode : bool) (ticks : list Z)
    : M bool :=
  match ticks with
  | [] => ret false
  | minutes_left :: rest =>
      send_rcon_message rcon (WARNING_MESSAGE minutes_left) test_mode ;;;
      await (sleep_int 60) ;;;
      players <- get_connected_players rcon ;;
      if is_nil players then ret true
      else countdown rcon test_mode rest
  end.

(** At its three places [saveAndQuit(rcon)] stands as a statement of its
    own, with no [await] before it. *)
Definition warn_and_restart (test_mode : bool) : Coroutine unit :=
  try_except
    (rcon <- instantiate "ZomboidRCON" ;;
     players <- get_connected_players rcon ;;
     if (length players =? 0)%nat && negb test_mode then
       expr_stmt (saveAndQuit rcon)
     else
       _playersGone <- countdown rcon test_mode (range_down COUNTDOWN_MINUTES) ;;
       if negb _playersGone then
         send_rcon_message rcon (RESTART_MESSAGE (RESTART_TIMEOUT * 2)) test_mode ;;;
         if negb test_mode then
           await (sleep_int (RESTART_TIMEOUT * 2)) ;;;
           players <- get_connected_players rcon ;;
           (if negb (is_nil players) then
              kick_all_players rcon players ;;;
              await (sleep_int 2)
            else ret tt) ;;;
           expr_stmt (saveAndQuit rcon)
         else ret tt
       else if negb test_mode then
         expr_stmt (saveAndQuit rcon)
       else ret tt)
    (λ _, ret tt).

(** *** Fetching the mod details *)

(** [range(0, stop, step)] for [step >= 1]. *)
Fixpoint range_from (fuel i stop step : nat) : list nat :=
  match fuel with
  | O => []
  | S fuel' =>
      if (i <? stop)%nat then i :: range_from fuel' (i + step) stop step
      else []
  end.

(** The slices [l[i:i+n]] for [i in range(0, len(l), n)]. *)
Definition chunks {A} (n : nat) (l : list A) : list (list A) :=
  map (λ i, take n (drop i l)) (range_from (length l) 0 (length l) n).

(** The same for a step that is any [int]: a zero step makes [range] raise
    [ValueError]; a negative step gives an empty range. *)
Definition slices {A} (l : list A) (step : Z) : M (list (list A)) :=
  if (step =? 0)%Z then raise OtherError
  else if (step <? 0)%Z then ret []
  else ret (chunks (Z.to_nat step) l).

(** [requests.get(base_url, params=params, timeout=20)] with what follows
    of it: the request goes out, and the oracle tells how it ends.  Of the
    request the trace keeps the ids it asks for; the endpoint and the key
    are the same for all requests of a run. *)
Definition requests_get (batch : list string) : M http_outcome :=
  λ w, let reply := steam w (http_calls (trace w)) batch in
       (Ok reply, set_trace w (trace w ++ [HttpGet batch reply])).

(** [min(2 ** attempt, cap)] *)
Definition backoff (attempt cap : Z) : Z := Z.min (2 ^ attempt) cap.

(** The retry loop [for attempt in range(5): ... else: ...] of one batch.
    [Some data] is the [break] with the decoded reply; [None] is the
    [else] of the loop, when no attempt is left. *)
Fixpoint attempts (batch : list string) (todo : list Z)
    : M (option (list Details)) :=
  match todo with
  | [] => ret None
  | attempt :: rest =>
      reply <- requests_get batch ;;
      match reply with
      | NetworkFailure =>
          sleep_int (backoff attempt 30) ;;; attempts batch rest
      | RateLimited =>
          sleep_int (backoff attempt 60) ;;; attempts batch rest
      | BadResponse =>
          sleep_int (backoff attempt 30) ;;; attempts batch rest
      | Good data => ret (Some data)
      | Unexpected => raise OtherError
      end
  end.

Definition from_option_Z (o : option Z) : Z := default 0 o.

(** The record built from one detail object. *)
Definition record_of (details : Details) : ModInfo :=
  mkModInfo (title details)
            (default [] (d_tags details))
            (from_option_Z (d_time_created details))
            (from_option_Z (d_time_updated details))
            (from_option_Z (d_num_children details))
            (default [] (d_children details)).

(** [results[mod_id] = {...}] for one detail object. *)
Definition store_details (results : gmap string ModInfo) (details : Details)
    : gmap string ModInfo :=
  <[ publishedfileid details := record_of details ]> results.

(** The loop over the batches, with the mapping [results] it fills. *)
Fixpoint fetch_batches (batches : list (list string))
    (results : gmap string ModInfo) : M (gmap string ModInfo) :=
  match batches with
  | [] => ret results
  | batch :: rest =>
      data <- attempts batch (map Z.of_nat (seq 0 5)) ;;
      match data with
      | None => fetch_batches rest results
      | Some data =>
          let results := foldl store_details results data in
          sleep (1 # 2) ;;;
          fetch_batches rest results
      end
  end.

Definition fetch_workshop_details (mod_ids : list string) (batch_size : Z)
    : M (gmap string ModInfo) :=
  if is_nil mod_ids then ret ∅
  else
    try_except
      (batches <- slices mod_ids batch_size ;;
       fetch_batches batches ∅)
      (λ _, ret ∅).

(** The loop of [create_modInfo]; [infos.update(data)] lets the new
    records win. *)
Fixpoint create_loop (batches : list (list string))
    (infos : gmap string ModInfo) : M (gmap string ModInfo) :=
  match batches with
  | [] => ret infos
  | batch_ids :: rest =>
      data <- fetch_workshop_details batch_ids 100 ;;
      create_loop rest
        (if bool_decide (data = ∅) then infos else data ∪ infos)
  end.

Definition create_modInfo (workshop_ids : list string)
    : M (gmap string ModInfo) :=
  if is_nil workshop_ids then ret ∅
  else
    batches <- slices workshop_ids BATCH_SIZE ;;
    create_loop batches ∅.

(** *** The snapshot file *)

(** [open(path, 'w')]: the file is created or cut to length zero. *)
Definition open_w (path : string) : M unit :=
  λ w, if bool_decide (path ∈ unwritable w) then (Raise (PermissionError path), w)
       else (Ok tt, set_trace (set_files w (<[path := Malformed EmptyString]> (files w)))
                      (trace w ++ [FileOpenW path])).

(** [json.dump(data, fh, ...)] and the close of the file. *)
Definition json_dump (path : string) (data : gmap string SnapEntry) : M unit :=
  λ w, (Ok tt, set_trace (set_files w (<[path := Json data]> (files w)))
                 (trace w ++ [FileDump path])).

(** What the drift check can see of an object as the script writes it. *)
Definition view_of (doc : gmap string SnapEntry) : json_view :=
  SnapshotDict
    ((λ entry, EntryDict ((λ t, Numeric (Int t)) <$> snap_time_updated entry))
       <$> doc).

(** [with open(path, 'r') as fh: json.load(fh)] *)
Definition json_load (path : string) : M json_view :=
  λ w, if bool_decide (path ∈ unreadable w) then (Raise (PermissionError path), w)
       else match files w !! path with
            | None => (Raise (FileNotFoundError path), w)
            | Some (Malformed _) => (Raise (JSONDecodeError path), w)
            | Some (Json doc) => (Ok (view_of doc), w)
            | Some (Misshapen value) => (Ok value, w)
            end.

(** The dictionary [data] of [write_modInfo_timeUpdated_file]. *)
Definition snapshot_of (modInfo : gmap string ModInfo) : gmap string SnapEntry :=
  (λ item, mkSnapEntry (name item) (Some (time_updated item))) <$> modInfo.

(** The effects of the write, in the order of the script. *)
Definition write_steps (data : gmap string SnapEntry) (file_path : string)
    : list (M unit) :=
  [ open_w file_path; json_dump file_path data ].

Definition write_modInfo_timeUpdated_file (modInfo : gmap string ModInfo)
    (file_path : string) : M unit :=
  let data := snapshot_of modInfo in
  try_except
    (for_each (write_steps data file_path) (λ step, step))
    (λ _, ret tt).


(** *** Drift detection *)

Definition local_time_of (entry : SnapEntry) : Z :=
  from_option_Z (snap_time_updated entry).

(** [json_data.keys()]: an [AttributeError] when the value is no object. *)
Definition dict_keys (json_data : json_view) : M (gmap string entry_view) :=
  match json_data with
  | SnapshotDict entries => ret entries
  | NoSnapshotDict => raise OtherError
  end.

(** [json_data[mod_id].get('time_updated', 0)]: an [AttributeError] when
    the entry is no object. *)
Definition get_time_updated (entry : entry_view) : M time_view :=
  match entry with
  | EntryDict time => ret (default (Numeric (Int 0)) time)
  | NoEntryDict => raise OtherError
  end.

(** [remote_time > local_time] for an [int] and a number. *)
Definition greater (remote_time : Z) (local_time : number) : bool :=
  match local_time with
  | Int n => (remote_time >? n)%Z
  | Float x => negb (Qle_bool (inject_Z remote_time) x)
  | NaN => false
  | Infinity negative => negative
  end.

(** [datetime.fromtimestamp(t).strftime(...)]: a [ValueError], an
    [OverflowError] or an [OSError] when the platform does not convert
    [t]. *)
Definition datetime_fromtimestamp (t : number) : M unit :=
  λ w, if timestamps w t then (Ok tt, w) else (Raise OtherError, w).

(** The loop of [are_mods_outdated] over [modInfo.items()].  Nothing of it
    is inside a [try]: the exceptions of [keys], of [get], of the
    comparison (a [TypeError] when the recorded time has no order with an
    [int]) and of the two dates formatted for the log leave the function. *)
Fixpoint collect_outdated (items : list (string * ModInfo))
    (json_data : json_view) (outdated : list string) : M (list string) :=
  match items with
  | [] => ret outdated
  | (mod_id, item) :: rest =>
      keys <- dict_keys json_data ;;
      match keys !! mod_id with
      | Some entry =>
          let remote_time := time_updated item in
          local_time <- get_time_updated entry ;;
          match local_time with
          | Unordered => raise OtherError
          | Numeric local_time =>
              if greater remote_time local_time
              then
                let outdated := outdated ++ [mod_id] in
                datetime_fromtimestamp (Int remote_time) ;;;
                datetime_fromtimestamp local_time ;;;
                collect_outdated rest json_data outdated
              else collect_outdated rest json_data outdated
          end
      | None => collect_outdated rest json_data (outdated ++ [mod_id])
      end
  end.

Definition are_mods_outdated (modInfo : gmap string ModInfo)
    (local_file : string) : Coroutine bool :=
  loaded <- try_except (json_data <- json_load local_file ;; ret (Some json_data))
                       (λ _, ret None) ;;
  match loaded with
  | None => ret false
  | Some json_data =>
      outdated <- collect_outdated (map_to_list modInfo) json_data [] ;;
      (if negb (is_nil outdated)
       then write_modInfo_timeUpdated_file modInfo local_file
       else ret tt) ;;;
      ret (0 <? length outdated)%nat
  end.

Definition check_mods_and_handle (modInfo : gmap string ModInfo)
    (test_mode : bool) : Coroutine unit :=
  outdated <- await (are_mods_outdated modInfo LOCAL_MODINFO_FILE) ;;
  if outdated then await (warn_and_restart test_mode) else ret tt.

(** ** Notions used in the statements *)

(** [quiet P c]: whatever the world, [c] only adds events that satisfy [P]
    to the trace and changes nothing else. *)
Definition quiet {A} (P : event → Prop) (c : M A) : Prop :=
  ∀ w, ∃ t, snd (c w) = set_trace w (trace w ++ t) ∧ Forall P t.

(** The command that broadcasts [message]. *)
Definition servermsg (message : string) (test_mode : bool) : string :=
  "servermsg " +:+ PyStr.dquote
    +:+ (if test_mode then message +:+ " (TEST)" else message)
    +:+ PyStr.dquote.

(** What one tick of the countdown sends and does. *)
Definition tick_events (test_mode : bool) (minutes_left : Z) : list event :=
  [ RconCommand (servermsg (WARNING_MESSAGE minutes_left) test_mode);
    Sleep (inject_Z 60);
    RconCommand "players" ].

(** The console answers the [k]-th command, a roster query, with a roster
    that has, or has not, a player. *)
Definition roster_present (w : World) (k : nat) : Prop :=
  ∃ response, console w k "players" = Some response
              ∧ parse_players response ≠ [].

Definition roster_empty (w : World) (k : nat) : Prop :=
  ∃ response, console w k "players" = Some response
              ∧ parse_players response = [].

(** What a run of [warn_and_restart] can add to the trace: roster
    queries, broadcasts, evictions and suspensions. *)
Definition restart_event (e : event) : Prop :=
  match e with
  | RconCommand c =>
      c = "players"
      ∨ (∃ message test_mode, c = servermsg message test_mode)
      ∨ (∃ player, c = "kickuser " +:+ player)
  | Sleep _ => True
  | _ => False
  end.

(** The ids the loop of [are_mods_outdated] collects on a snapshot as the
    script writes it, when no date fails to be formatted. *)
Fixpoint outdated_ids (items : list (string * ModInfo))
    (json_data : gmap string SnapEntry) (outdated : list string) : list string :=
  match items with
  | [] => outdated
  | (mod_id, item) :: rest =>
      match json_data !! mod_id with
      | Some entry =>
          if (time_updated item >? local_time_of entry)%Z
          then outdated_ids rest json_data (outdated ++ [mod_id])
          else outdated_ids rest json_data outdated
      | None => outdated_ids rest json_data (outdated ++ [mod_id])
      end
  end.

(** The platform formats the two dates of every fresh record that is newer
    than its entry of the snapshot [json_data]. *)
Definition formats (w : World) (modInfo : gmap string ModInfo)
    (json_data : gmap string SnapEntry) : Prop :=
  ∀ mod_id item entry,
    modInfo !! mod_id = Some item → json_data !! mod_id = Some entry →
    local_time_of entry < time_updated item →
    timestamps w (Int (time_updated item)) = true
    ∧ timestamps w (Int (local_time_of entry)) = true.

(** Some fresh record is newer than its entry of the snapshot and has a
    date the platform does not format. *)
Definition unformattable (w : World) (modInfo : gmap string ModInfo)
    (json_data : gmap string SnapEntry) : Prop :=
  ∃ mod_id item entry,
    modInfo !! mod_id = Some item ∧ json_data !! mod_id = Some entry
    ∧ local_time_of entry < time_updated item
    ∧ (timestamps w (Int (time_updated item)) = false
       ∨ timestamps w (Int (local_time_of entry)) = false).

(** A fresh record is outdated against the snapshot [json_data]: its id is
    absent there, or recorded with a smaller time. *)
Definition outdated_record (json_data : gmap string SnapEntry)
    (mod_id : string) (item : ModInfo) : Prop :=
  json_data !! mod_id = None
  ∨ ∃ entry, json_data !! mod_id = Some entry
             ∧ local_time_of entry < time_updated item.

Definition drift (modInfo : gmap string ModInfo)
    (json_data : gmap string SnapEntry) : Prop :=
  ∃ mod_id item, modInfo !! mod_id = Some item
                 ∧ outdated_record json_data mod_id item.

(** The file at [path] cannot be read as a snapshot: it is missing, not
    readable, or not JSON. *)
Definition snapshot_unreadable (w : World) (path : string) : Prop :=
  path ∈ unreadable w
  ∨ files w !! path = None
  ∨ ∃ text, files w !! path = Some (Malformed text).

(** The world after the snapshot at [path] was written for [modInfo], when
    the trace went on with [t]. *)
Definition rewritten (w : World) (path : string)
    (modInfo : gmap string ModInfo) (t : list event) : World :=
  set_trace (set_files w (<[path := Json (snapshot_of modInfo)]> (files w)))
            (trace w ++ t).

(** A failure the retry loop takes: the network, the rate limit, a bad
    response. *)
Definition retryable (reply : http_outcome) : bool :=
  match reply with
  | NetworkFailure | RateLimited | BadResponse => true
  | Good _ | Unexpected => false
  end.

(** The cap of the delay after a failure. *)
Definition cap_of (reply : http_outcome) : Z :=
  match reply with RateLimited => 60 | _ => 30 end.

(** What a failed attempt leaves in the trace: the request with its reply,
    and the delay.  [n] counts the requests made before the batch, [j] the
    attempts made for it. *)
Definition failed_attempt (w : World) (batch : list string) (n j : nat)
    : list event :=
  [ HttpGet batch (steam w (n + j) batch);
    Sleep (inject_Z (backoff (Z.of_nat j) (cap_of (steam w (n + j) batch)))) ].

(** The delay after attempt [attempt] as the specification words it: a
    base of 2 seconds, doubled with each attempt, under a cap. *)
Definition specified_delay (attempt cap : Z) : Z :=
  Z.min (2 * 2 ^ attempt) cap.

(** The suspensions of a trace, in order. *)
Definition delays (t : list event) : list Q :=
  flat_map (λ e, match e with Sleep d => [d] | _ => [] end) t.

(** The detail objects the successful requests of a trace returned, and
    the batches these requests asked for. *)
Definition returned (t : list event) : list Details :=
  flat_map (λ e, match e with HttpGet _ (Good data) => data | _ => [] end) t.

Definition answered (t : list event) : list (list string) :=
  flat_map (λ e, match e with HttpGet ids (Good _) => [ids] | _ => [] end) t.

(** The batches that go out for the ids [workshop_ids]: [create_modInfo]
    cuts them by [BATCH_SIZE], and [fetch_workshop_details] cuts each piece
    by its own batch size of 100. *)
Definition request_batches (workshop_ids : list string) : list (list string) :=
  chunks (Z.to_nat BATCH_SIZE) workshop_ids ≫= chunks 100.

(** Every batch of [batches], fetched in turn from the world [w], gets a
    good reply within its five attempts. *)
Fixpoint every_batch_succeeds (batches : list (list string)) (w : World) : bool :=
  match batches with
  | [] => true
  | batch :: rest =>
      match attempts batch (map Z.of_nat (seq 0 5)) w with
      | (Ok (Some _), w') => every_batch_succeeds rest (snd (sleep (1 # 2) w'))
      | _ => false
      end
  end.

(** The record of the last detail object with the id [mod_id]. *)
Definition last_record (mod_id : string) (data : list Details) : option ModInfo :=
  record_of <$> last (filter (λ details, publishedfileid details = mod_id) data).

(** The record an id has after the detail objects [data] were stored one
    after the other, when it had [init] before. *)
Definition resolve (mod_id : string) (data : list Details)
    (init : option ModInfo) : option ModInfo :=
  foldl (λ found details,
           if decide (publishedfileid details = mod_id)
           then Some (record_of details) else found)
        init data.

(** ** Properties *)

(** *** Worlds and traces *)

Lemma set_trace_set_trace (w : World) (t1 t2 : list event) :
  set_trace (set_trace w t1) t2 = set_trace w t2.
Proof. reflexivity. Qed.

Lemma set_trace_same (w : World) : set_trace w (trace w) = w.
Proof. by destruct w. Qed.

Lemma set_trace_nil (w : World) : set_trace w (trace w ++ []) = w.
Proof. rewrite app_nil_r. apply set_trace_same. Qed.

Lemma rcon_calls_app (t1 t2 : list event) :
  rcon_calls (t1 ++ t2) = (rcon_calls t1 + rcon_calls t2)%nat.
Proof. unfold rcon_calls. by rewrite List.filter_app, length_app. Qed.

Lemma http_calls_app (t1 t2 : list event) :
  http_calls (t1 ++ t2) = (http_calls t1 + http_calls t2)%nat.
Proof. unfold http_calls. by rewrite List.filter_app, length_app. Qed.


Lemma quiet_ret {A} P (a : A) : quiet P (ret a).
Proof. intros w. exists []. split; [symmetry; apply set_trace_nil | constructor]. Qed.

Lemma quiet_raise {A} P e : quiet P (@raise A e).
Proof. intros w. exists []. split; [symmetry; apply set_trace_nil | constructor]. Qed.

Lemma quiet_expr_stmt {A} P (v : A) : quiet P (expr_stmt v).
Proof. apply quiet_ret. Qed.

Lemma quiet_emit P e : P e → quiet P (emit e).
Proof. intros He w. exists [e]. split; [done | by constructor]. Qed.

Lemma quiet_bind {A B} P (c : M A) (k : A → M B) :
  quiet P c → (∀ a, quiet P (k a)) → quiet P (bind c k).
Proof.
  intros Hc Hk w. unfold bind.
  destruct (Hc w) as (t1 & E1 & F1).
  destruct (c w) as [[a|e] w1]; simpl in E1; subst w1.
  - destruct (Hk a (set_trace w (trace w ++ t1))) as (t2 & E2 & F2).
    exists (t1 ++ t2). split; [| by apply Forall_app].
    rewrite E2. simpl. by rewrite app_assoc.
  - by exists t1.
Qed.

Lemma quiet_try_except {A} P (c : M A) (h : exn → M A) :
  quiet P c → (∀ e, quiet P (h e)) → quiet P (try_except c h).
Proof.
  intros Hc Hh w. unfold try_except.
  destruct (Hc w) as (t1 & E1 & F1).
  destruct (c w) as [[a|e] w1]; simpl in E1; subst w1.
  - by exists t1.
  - destruct (Hh e (set_trace w (trace w ++ t1))) as (t2 & E2 & F2).
    exists (t1 ++ t2). split; [| by apply Forall_app].
    rewrite E2. simpl. by rewrite app_assoc.
Qed.

Lemma quiet_rcon_command (P : event → Prop) rcon c :
  P (RconCommand c) → quiet P (rcon_command rcon c).
Proof.
  intros Hc w. exists [RconCommand c]. split; [| by constructor].
  unfold rcon_command. by destruct (console w _ c).
Qed.

Lemma quiet_for_each {A} P (xs : list A) (body : A → M unit) :
  (∀ x, quiet P (body x)) → quiet P (for_each xs body).
Proof.
  intros Hb. induction xs as [|x xs IH]; simpl.
  - apply quiet_ret.
  - apply quiet_bind; [apply Hb | intros _; apply IH].
Qed.

(** *** Running a sequence *)

Lemma bind_ret_l {A B} (a : A) (k : A → M B) w : bind (ret a) k w = k a w.
Proof. reflexivity. Qed.

Lemma bind_run {A B} (c : M A) (k : A → M B) w a w' :
  c w = (Ok a, w') → bind c k w = k a w'.
Proof. intros H. unfold bind. by rewrite H. Qed.

Lemma bind_raise {A B} (c : M A) (k : A → M B) w e w' :
  c w = (Raise e, w') → bind c k w = (Raise e, w').
Proof. intros H. unfold bind. by rewrite H. Qed.

(** The module binds [ZomboidRCON], by its import, and nothing called
    [ZomboidRCONient]. *)
Lemma ZomboidRCONient_unbound : "ZomboidRCONient" ∉ module_names.
Proof. apply (bool_decide_eq_false_1 _). reflexivity. Qed.

Lemma instantiate_ZomboidRCON :
  instantiate "ZomboidRCON" = ret (mkRCON RCON_HOST RCON_PORT RCON_PASSWORD).
Proof. reflexivity. Qed.

(** *** The console messages *)


(** A broadcast always ends normally, and sends its one command, whether
    the console accepts it or not. *)
Lemma send_rcon_message_run rcon message test_mode w :
  send_rcon_message rcon message test_mode w
  = (Ok tt, set_trace w (trace w ++ [RconCommand (servermsg message test_mode)])).
Proof.
  unfold send_rcon_message, try_except, bind, rcon_command, ret, servermsg.
  by destruct (console w _ _).
Qed.

Lemma get_connected_players_run rcon w response :
  console w (rcon_calls (trace w)) "players" = Some response →
  get_connected_players rcon w
  = (Ok (parse_players response), set_trace w (trace w ++ [RconCommand "players"])).
Proof.
  intros H. unfold get_connected_players, bind, rcon_command, ret. by rewrite H.
Qed.

(** *** The countdown *)



Lemma range_down_length n : length (range_down n) = Z.to_nat n.
Proof. unfold range_down. by rewrite length_map, length_reverse, length_seq. Qed.

Lemma range_down_lookup n (i : nat) :
  (i < Z.to_nat n)%nat → range_down n !! i = Some (n - Z.of_nat i).
Proof.
  intros Hi. unfold range_down.
  rewrite list_lookup_fmap, reverse_lookup by (rewrite length_seq; lia).
  rewrite length_seq, lookup_seq_lt by lia. simpl. f_equal. lia.
Qed.

Lemma tick_run rcon test_mode minutes_left w response :
  console w (rcon_calls (trace w) + 1) "players" = Some response →
  (players <- (send_rcon_message rcon (WARNING_MESSAGE minutes_left) test_mode ;;;
               await (sleep_int 60) ;;;
               get_connected_players rcon) ;; ret players) w
  = (Ok (parse_players response),
     set_trace w (trace w ++ tick_events test_mode minutes_left)).
Proof.
  intros H. unfold bind at 1 2 3. rewrite send_rcon_message_run.
  unfold await, sleep_int, sleep, emit. simpl.
  erewrite get_connected_players_run.
  - unfold ret. simpl. by rewrite <- !app_assoc.
  - simpl. rewrite !rcon_calls_app. simpl. by rewrite Nat.add_0_r.
Qed.

Lemma countdown_step rcon test_mode minutes_left rest w response :
  console w (rcon_calls (trace w) + 1) "players" = Some response →
  countdown rcon test_mode (minutes_left :: rest) w
  = (if is_nil (parse_players response) then ret true
     else countdown rcon test_mode rest)
      (set_trace w (trace w ++ tick_events test_mode minutes_left)).
Proof.
  intros H. pose proof (tick_run rcon test_mode minutes_left w response H) as T.
  simpl. unfold bind in *. rewrite send_rcon_message_run in *.
  unfold await, sleep_int, sleep, emit in *. simpl in *.
  destruct (get_connected_players rcon _) as [[players|e] w1]; simpl in *.
  - unfold ret in T. by injection T as -> ->.
  - discriminate T.
Qed.

Lemma rcon_calls_tick t test_mode minutes_left :
  rcon_calls (t ++ tick_events test_mode minutes_left) = (rcon_calls t + 2)%nat.
Proof. by rewrite rcon_calls_app. Qed.

(** While somebody answers every roster query, the loop runs through all
    its ticks. *)
Lemma countdown_all_present rcon test_mode ticks : ∀ w,
  (∀ j, (j < length ticks)%nat →
        roster_present w (rcon_calls (trace w) + 2 * j + 1)) →
  countdown rcon test_mode ticks w
  = (Ok false, set_trace w (trace w ++ flat_map (tick_events test_mode) ticks)).
Proof.
  induction ticks as [|m rest IH]; intros w H.
  - simpl. unfold ret. by rewrite set_trace_nil.
  - destruct (H 0%nat) as (r & Hr & Hne); [simpl; lia|].
    rewrite Nat.mul_0_r, Nat.add_0_r in Hr.
    rewrite (countdown_step _ _ _ _ _ _ Hr).
    destruct (parse_players r) eqn:E; [done|]. simpl is_nil. cbv iota.
    rewrite IH.
    + simpl trace. rewrite set_trace_set_trace.
      change (flat_map (tick_events test_mode) (m :: rest))
        with (tick_events test_mode m ++ flat_map (tick_events test_mode) rest).
      by rewrite app_assoc.
    + intros j Hj. simpl trace. rewrite rcon_calls_tick.
      destruct (H (S j)) as (r' & Hr' & Hne'); [simpl; lia|].
      exists r'. split; [|done]. simpl console.
      rewrite <- Hr'. f_equal. lia.
Qed.

(** When the roster is first empty at the query of tick [k] (counted from
    zero), the loop ends there. *)
Lemma countdown_leaves rcon test_mode ticks : ∀ (k : nat) w,
  (k < length ticks)%nat →
  (∀ j, (j < k)%nat → roster_present w (rcon_calls (trace w) + 2 * j + 1)) →
  roster_empty w (rcon_calls (trace w) + 2 * k + 1) →
  countdown rcon test_mode ticks w
  = (Ok true,
     set_trace w (trace w ++ flat_map (tick_events test_mode) (take (S k) ticks))).
Proof.
  induction ticks as [|m rest IH]; intros k w Hk Hbefore Hempty.
  - simpl in Hk. lia.
  - destruct k as [|k].
    + destruct Hempty as (r & Hr & He).
      rewrite Nat.mul_0_r, Nat.add_0_r in Hr.
      rewrite (countdown_step _ _ _ _ _ _ Hr), He. done.
    + destruct (Hbefore 0%nat) as (r & Hr & Hne); [lia|].
      rewrite Nat.mul_0_r, Nat.add_0_r in Hr.
      rewrite (countdown_step _ _ _ _ _ _ Hr).
      destruct (parse_players r) eqn:E; [done|]. simpl is_nil. cbv iota.
      rewrite (IH k).
      * simpl trace. rewrite set_trace_set_trace.
        change (flat_map (tick_events test_mode) (take (S (S k)) (m :: rest)))
          with (tick_events test_mode m
                  ++ flat_map (tick_events test_mode) (take (S k) rest)).
        by rewrite app_assoc.
      * simpl in Hk. lia.
      * intros j Hj. simpl trace. rewrite rcon_calls_tick.
        destruct (Hbefore (S j)) as (r' & Hr' & Hne'); [lia|].
        exists r'. split; [|done]. simpl console.
        rewrite <- Hr'. f_equal. lia.
      * destruct Hempty as (r' & Hr' & He'). exists r'. split; [|done].
        simpl trace. rewrite rcon_calls_tick. simpl console.
        rewrite <- Hr'. f_equal. lia.
Qed.

(** *** The restart *)

Lemma quiet_send_rcon_message (P : event → Prop) rcon message test_mode :
  P (RconCommand (servermsg message test_mode)) →
  quiet P (send_rcon_message rcon message test_mode).
Proof.
  intros H w. exists [RconCommand (servermsg message test_mode)].
  rewrite send_rcon_message_run. split; [done | by constructor].
Qed.

Lemma quiet_get_connected_players (P : event → Prop) rcon :
  P (RconCommand "players") → quiet P (get_connected_players rcon).
Proof.
  intros H. apply quiet_bind; [by apply quiet_rcon_command|].
  intros ?. apply quiet_ret.
Qed.

Lemma quiet_sleep_int (P : event → Prop) n :
  P (Sleep (inject_Z n)) → quiet P (sleep_int n).
Proof. apply quiet_emit. Qed.

Lemma quiet_kick_all_players (P : event → Prop) rcon players :
  (∀ player, P (RconCommand ("kickuser " +:+ player))) →
  quiet P (kick_all_players rcon players).
Proof.
  intros H. apply quiet_try_except; [|intros ?; apply quiet_ret].
  apply quiet_for_each. intros player.
  apply quiet_bind; [by apply quiet_rcon_command | intros ?; apply quiet_ret].
Qed.

Lemma quiet_countdown (P : event → Prop) rcon test_mode ticks :
  (∀ m, P (RconCommand (servermsg (WARNING_MESSAGE m) test_mode))) →
  P (Sleep (inject_Z 60)) →
  P (RconCommand "players") →
  quiet P (countdown rcon test_mode ticks).
Proof.
  intros Hw Hs Hp. induction ticks as [|m rest IH]; simpl.
  - apply quiet_ret.
  - apply quiet_bind; [by apply quiet_send_rcon_message | intros _].
    apply quiet_bind; [by apply quiet_sleep_int | intros _].
    apply quiet_bind; [by apply quiet_get_connected_players | intros players].
    destruct (is_nil players); [apply quiet_ret | apply IH].
Qed.


Lemma warn_and_restart_quiet test_mode :
  quiet restart_event (warn_and_restart test_mode).
Proof.
  assert (restart_event (RconCommand "players")) as Hp by (by left).
  assert (∀ m t, restart_event (RconCommand (servermsg m t))) as Hm
    by (intros; right; left; eauto).
  unfold warn_and_restart.
  apply quiet_try_except; [|intros ?; apply quiet_ret].
  apply quiet_bind; [apply quiet_ret | intros rcon].
  apply quiet_bind; [by apply quiet_get_connected_players | intros players].
  destruct (_ && _); [apply quiet_expr_stmt|].
  apply quiet_bind; [by apply quiet_countdown | intros gone].
  destruct gone; simpl negb; cbv iota.
  { destruct (negb test_mode); [apply quiet_expr_stmt | apply quiet_ret]. }
  apply quiet_bind; [by apply quiet_send_rcon_message | intros _].
  destruct (negb test_mode); [|apply quiet_ret].
  apply quiet_bind; [by apply quiet_sleep_int | intros _].
  apply quiet_bind; [by apply quiet_get_connected_players | intros players'].
  apply quiet_bind; [|intros _; apply quiet_expr_stmt].
  destruct (negb (is_nil players')); [|apply quiet_ret].
  apply quiet_bind; [|intros _; by apply quiet_sleep_int].
  apply quiet_kick_all_players. intros player. right; right; eauto.
Qed.

Lemma restart_event_not_save : ¬ restart_event (RconCommand "save").
Proof.
  intros [H|[(m & t & H)|(p & H)]]; [discriminate H | | discriminate H].
  unfold servermsg in H. discriminate H.
Qed.

Lemma restart_event_not_quit : ¬ restart_event (RconCommand "quit").
Proof.
  intros [H|[(m & t & H)|(p & H)]]; [discriminate H | | discriminate H].
  unfold servermsg in H. discriminate H.
Qed.

(** [warn_and_restart] always ends normally: its [except] takes every
    exception. *)
Lemma warn_and_restart_returns test_mode w :
  fst (warn_and_restart test_mode w) = Ok tt.
Proof.
  unfold warn_and_restart, try_except.
  destruct (bind _ _ w) as [[[]|e] w']; reflexivity.
Qed.

(** No run of [warn_and_restart] sends [save] or [quit], in neither
    mode: each call [saveAndQuit(rcon)] only builds a coroutine, which is
    dropped without having run. *)
Lemma warn_and_restart_never_stops test_mode w :
  ∃ t, warn_and_restart test_mode w = (Ok tt, set_trace w (trace w ++ t))
       ∧ Forall restart_event t
       ∧ (RconCommand "save" ∉ t) ∧ (RconCommand "quit" ∉ t).
Proof.
  destruct (warn_and_restart_quiet test_mode w) as (t & E & F).
  exists t. pose proof (warn_and_restart_returns test_mode w) as R.
  destruct (warn_and_restart test_mode w) as [r w']. simpl in *. subst.
  repeat split; [done | |]; intros Hin;
    rewrite Forall_forall in F; apply F in Hin;
    [by apply restart_event_not_save | by apply restart_event_not_quit].
Qed.

(** C9.  The manual broadcast path, for every message: by the
    specification it opens a console session, sends that one message to
    all players and closes.  In the script the class is called by a name the module never
    binds, so the call raises [NameError] before any console object
    exists: no command is sent, the world is left as it was. *)
Theorem send_manual_message_raises (message : string) (w : World) :
  send_manual_message message w = (Raise (NameError "ZomboidRCONient"), w).
Proof.
  unfold send_manual_message, instantiate.
  change (String.eqb "ZomboidRCONient" "ZomboidRCON") with false. cbv iota.
  rewrite bool_decide_eq_false_2 by exact ZomboidRCONient_unbound.
  reflexivity.
Qed.

(** What the coroutine does when it is awaited, on a console that
    answers: [save], the settle delay, [quit]. *)
Lemma saveAndQuit_awaited rcon w r_save r_quit :
  console w (rcon_calls (trace w)) "save" = Some r_save →
  console w (rcon_calls (trace w) + 1) "quit" = Some r_quit →
  await (saveAndQuit rcon) w
  = (Ok tt,
     set_trace w
       (trace w ++ [ RconCommand "save";
                     Sleep (inject_Z RESTART_TIMEOUT);
                     RconCommand "quit" ])).
Proof.
  intros Hs Hq. unfold await, saveAndQuit.
  unfold bind at 1. unfold rcon_command at 1. rewrite Hs.
  unfold bind at 1. unfold await, sleep_int, sleep, emit.
  unfold bind at 1. unfold rcon_command. simpl trace. simpl console.
  rewrite !rcon_calls_app.
  change (rcon_calls [RconCommand "save"]) with 1%nat.
  change (rcon_calls [Sleep _]) with 0%nat.
  rewrite Nat.add_0_r, Hq. unfold ret. simpl. by rewrite <- !app_assoc.
Qed.

(** C2.  The restart with an empty roster, outside test mode: by the
    specification [save] is sent, then the settle delay passes, then [quit]
    is sent, with no broadcast.  In the script the coroutine [saveAndQuit(rcon)] is
    built and dropped, never awaited: the run ends after the roster query,
    having sent no broadcast, and no [save], no suspension and no [quit]
    either. *)
Theorem warn_and_restart_empty_roster (w : World) :
  roster_empty w (rcon_calls (trace w)) →
  warn_and_restart false w
  = (Ok tt, set_trace w (trace w ++ [RconCommand "players"])).
Proof.
  intros (r & Hr & He).
  unfold warn_and_restart, try_except.
  rewrite instantiate_ZomboidRCON, bind_ret_l.
  rewrite (bind_run _ _ _ _ _ (get_connected_players_run _ _ _ Hr)), He.
  reflexivity.
Qed.

(** The roster query that opens the run is answered, and the countdown is
    entered: somebody is connected, or the run is a test. *)
Lemma warn_and_restart_enters test_mode w response :
  console w (rcon_calls (trace w)) "players" = Some response →
  test_mode = true ∨ parse_players response ≠ [] →
  warn_and_restart test_mode w
  = try_except
      (_playersGone <- countdown (mkRCON RCON_HOST RCON_PORT RCON_PASSWORD)
                         test_mode (range_down COUNTDOWN_MINUTES) ;;
       if negb _playersGone then
         send_rcon_message (mkRCON RCON_HOST RCON_PORT RCON_PASSWORD)
           (RESTART_MESSAGE (RESTART_TIMEOUT * 2)) test_mode ;;;
         if negb test_mode then
           await (sleep_int (RESTART_TIMEOUT * 2)) ;;;
           players <- get_connected_players (mkRCON RCON_HOST RCON_PORT RCON_PASSWORD) ;;
           (if negb (is_nil players) then
              kick_all_players (mkRCON RCON_HOST RCON_PORT RCON_PASSWORD) players ;;;
              await (sleep_int 2)
            else ret tt) ;;;
           expr_stmt (saveAndQuit (mkRCON RCON_HOST RCON_PORT RCON_PASSWORD))
         else ret tt
       else if negb test_mode then
         expr_stmt (saveAndQuit (mkRCON RCON_HOST RCON_PORT RCON_PASSWORD))
       else ret tt)
      (λ _, ret tt)
      (set_trace w (trace w ++ [RconCommand "players"])).
Proof.
  intros Hr Henter.
  unfold warn_and_restart, try_except.
  rewrite instantiate_ZomboidRCON, bind_ret_l.
  rewrite (bind_run _ _ _ _ _ (get_connected_players_run _ _ _ Hr)).
  destruct Henter as [-> | Hne].
  - by rewrite andb_false_r.
  - destruct (parse_players response); [done|]. reflexivity.
Qed.

Lemma rcon_calls_snoc_players (t : list event) :
  rcon_calls (t ++ [RconCommand "players"]) = (rcon_calls t + 1)%nat.
Proof. by rewrite rcon_calls_app. Qed.

(** C5.  The roster is first empty at the query of tick [k], with
    [1 <= k <= COUNTDOWN_MINUTES]: the run has sent the [k] warnings of the
    ticks so far and ends there.  No further tick, no final warning and no
    eviction follow, as specified; but no [save], no settle delay and no
    [quit] follow either, in neither mode, where the specification has the
    stop sequence outside test mode. *)
Theorem warn_and_restart_players_leave (test_mode : bool) (k : nat) (w : World)
    (response : string) :
  console w (rcon_calls (trace w)) "players" = Some response →
  test_mode = true ∨ parse_players response ≠ [] →
  (1 ≤ k ≤ Z.to_nat COUNTDOWN_MINUTES)%nat →
  (∀ j, (1 ≤ j < k)%nat → roster_present w (rcon_calls (trace w) + 2 * j)) →
  roster_empty w (rcon_calls (trace w) + 2 * k) →
  warn_and_restart test_mode w
  = (Ok tt,
     set_trace w
       (trace w ++ RconCommand "players"
          :: flat_map (tick_events test_mode) (take k (range_down COUNTDOWN_MINUTES)))).
Proof.
  intros Hr Henter Hk Hbefore Hempty.
  rewrite (warn_and_restart_enters _ _ _ Hr Henter).
  unfold try_except, bind.
  destruct k as [|k]; [lia|].
  rewrite (countdown_leaves _ _ _ k).
  - simpl negb. cbv iota. simpl trace.
    destruct test_mode; simpl; unfold ret, expr_stmt, ret;
      by rewrite <- app_assoc.
  - rewrite range_down_length. lia.
  - intros j Hj. simpl trace. rewrite rcon_calls_snoc_players.
    destruct (Hbefore (S j)) as (r' & Hr' & Hne'); [lia|].
    exists r'. split; [|done]. simpl console. rewrite <- Hr'. f_equal. lia.
  - destruct Hempty as (r' & Hr' & He'). exists r'. split; [|done].
    simpl trace. rewrite rcon_calls_snoc_players. simpl console.
    rewrite <- Hr'. f_equal. lia.
Qed.

(** C4.  A tick count [COUNTDOWN_MINUTES >= 0] and a roster that has a
    player at every query of the countdown: after the roster query that
    opens the run, the countdown is one warning per tick, a suspension of
    60 seconds and a roster query after each; the warning of a tick is the
    broadcast of the text [[SERVER] Restart in m minutes due to a mod
    update!], where [m] is the decimal numeral of the minutes left, and the
    ticks name the minutes [COUNTDOWN_MINUTES], ..., 1, so that there are
    exactly [COUNTDOWN_MINUTES] warnings; the final warning, which names
    twice [RESTART_TIMEOUT] seconds, is the next command. *)
Theorem warn_and_restart_full_countdown (test_mode : bool) (w : World)
    (response : string) :
  console w (rcon_calls (trace w)) "players" = Some response →
  test_mode = true ∨ parse_players response ≠ [] →
  0 ≤ COUNTDOWN_MINUTES →
  (∀ j, (1 ≤ j ≤ Z.to_nat COUNTDOWN_MINUTES)%nat →
        roster_present w (rcon_calls (trace w) + 2 * j)) →
  ∃ rest,
    warn_and_restart test_mode w
    = (Ok tt,
       set_trace w
         (trace w ++ RconCommand "players"
            :: flat_map
                 (λ minutes_left,
                    [ RconCommand
                        (servermsg
                           ("[SERVER] Restart in " +:+ PyStr.of_int minutes_left
                              +:+ " minutes due to a mod update!")
                           test_mode);
                      Sleep (inject_Z 60);
                      RconCommand "players" ])
                 (range_down COUNTDOWN_MINUTES)
            ++ RconCommand
                 (servermsg
                    ("[SERVER] Server is restarting now due to a mod update! Please disconnect within "
                       +:+ PyStr.of_int (RESTART_TIMEOUT * 2)
                       +:+ "sec or get kicked!")
                    test_mode)
            :: rest))
    ∧ Z.of_nat (length (range_down COUNTDOWN_MINUTES)) = COUNTDOWN_MINUTES
    ∧ (∀ i : nat, Z.of_nat i < COUNTDOWN_MINUTES →
         range_down COUNTDOWN_MINUTES !! i = Some (COUNTDOWN_MINUTES - Z.of_nat i)).
Proof.
  intros Hr Henter HN Hall.
  rewrite (warn_and_restart_enters _ _ _ Hr Henter).
  unfold try_except.
  erewrite bind_run; cycle 1.
  { apply countdown_all_present. intros j Hj.
    rewrite range_down_length in Hj. simpl trace.
    rewrite rcon_calls_snoc_players.
    destruct (Hall (S j)) as (r' & Hr' & Hne'); [lia|].
    exists r'. split; [|done]. simpl console. rewrite <- Hr'. f_equal. lia. }
  change (negb false) with true. cbv iota.
  rewrite (bind_run _ _ _ _ _ (send_rcon_message_run _ _ _ _)).
  simpl trace. rewrite !set_trace_set_trace.
  set (w4 := set_trace w _).
  set (after := if negb test_mode then _ else ret tt).
  assert (quiet (λ _, True) after) as Hq.
  { subst after. destruct (negb test_mode); [|apply quiet_ret].
    apply quiet_bind; [by apply quiet_sleep_int | intros _].
    apply quiet_bind; [by apply quiet_get_connected_players | intros players'].
    apply quiet_bind; [|intros _; apply quiet_expr_stmt].
    destruct (negb (is_nil players')); [|apply quiet_ret].
    apply quiet_bind; [|intros _; by apply quiet_sleep_int].
    by apply quiet_kick_all_players. }
  destruct (Hq w4) as (rest & Erest & _).
  exists rest. split; [|split].
  - change (flat_map _ (range_down COUNTDOWN_MINUTES))
      with (flat_map (tick_events test_mode) (range_down COUNTDOWN_MINUTES)).
    change (servermsg (_ +:+ PyStr.of_int (RESTART_TIMEOUT * 2) +:+ _) test_mode)
      with (servermsg (RESTART_MESSAGE (RESTART_TIMEOUT * 2)) test_mode).
    destruct (after w4) as [[[]|e] w5]; simpl in Erest; subst w5;
      unfold ret; subst w4; simpl; by rewrite <- !app_assoc.
  - rewrite range_down_length. lia.
  - intros i Hi. apply range_down_lookup. lia.
Qed.

(** *** The snapshot file and the drift *)

Lemma json_load_run path w doc :
  path ∉ unreadable w → files w !! path = Some (Json doc) →
  json_load path w = (Ok (view_of doc), w).
Proof.
  intros Hr Hf. unfold json_load.
  rewrite bool_decide_eq_false_2 by done. by rewrite Hf.
Qed.

Lemma json_load_fails path w :
  snapshot_unreadable w path → ∃ e, json_load path w = (Raise e, w).
Proof.
  unfold json_load. intros [H|[H|(text & H)]].
  - rewrite bool_decide_eq_true_2 by done. eauto.
  - case_bool_decide; [eauto|]. rewrite H. eauto.
  - case_bool_decide; [eauto|]. rewrite H. eauto.
Qed.

Lemma write_run path modInfo w :
  path ∉ unwritable w →
  write_modInfo_timeUpdated_file modInfo path w
  = (Ok tt, rewritten w path modInfo [FileOpenW path; FileDump path]).
Proof.
  intros Hw. unfold write_modInfo_timeUpdated_file, try_except, write_steps.
  simpl for_each. unfold bind, open_w.
  rewrite bool_decide_eq_false_2 by done.
  unfold json_dump, ret, rewritten, set_trace, set_files. simpl.
  by rewrite insert_insert_eq, <- app_assoc.
Qed.

Lemma write_denied path modInfo w :
  path ∈ unwritable w →
  write_modInfo_timeUpdated_file modInfo path w = (Ok tt, w).
Proof.
  intros Hw. unfold write_modInfo_timeUpdated_file, try_except, write_steps.
  simpl for_each. unfold bind, open_w.
  by rewrite bool_decide_eq_true_2 by done.
Qed.

Lemma write_returns path modInfo w :
  fst (write_modInfo_timeUpdated_file modInfo path w) = Ok tt.
Proof.
  destruct (decide (path ∈ unwritable w)).
  - by rewrite write_denied.
  - by rewrite write_run.
Qed.

Lemma outdated_ids_nil items json_data : ∀ outdated,
  outdated_ids items json_data outdated = []
  ↔ outdated = []
    ∧ ∀ mod_id item, (mod_id, item) ∈ items →
                     ¬ outdated_record json_data mod_id item.
Proof.
  unfold outdated_record.
  induction items as [|[mod_id item] rest IH]; intros outdated; simpl.
  - split; [intros ->; split; [done|] | by intros [-> _]].
    intros ?? H. by apply elem_of_nil in H.
  - destruct (json_data !! mod_id) as [entry|] eqn:E.
    + destruct (time_updated item >? local_time_of entry) eqn:C; rewrite IH.
      * split; [intros [H _]; by destruct outdated|].
        intros [_ H]. exfalso. apply (H mod_id item); [left|].
        right. exists entry. split; [done|lia].
      * split; intros [-> H]; (split; [done|]).
        -- intros i x [[= -> ->]|Hin]%elem_of_cons; [|by apply H].
           intros [?|(e' & ? & ?)]; simplify_eq. lia.
        -- intros i x Hin. apply H. by right.
    + rewrite IH. split; [intros [H _]; by destruct outdated|].
      intros [_ H]. exfalso. apply (H mod_id item); [left|]. by left.
Qed.

Lemma outdated_ids_cons items json_data : ∀ outdated,
  outdated_ids items json_data outdated ≠ [] →
  outdated ≠ []
  ∨ ∃ mod_id item, (mod_id, item) ∈ items
                   ∧ outdated_record json_data mod_id item.
Proof.
  unfold outdated_record.
  induction items as [|[mod_id item] rest IH]; intros outdated; simpl.
  - by left.
  - destruct (json_data !! mod_id) as [entry|] eqn:E.
    + destruct (time_updated item >? local_time_of entry) eqn:C.
      * intros _. right. exists mod_id, item. split; [left|].
        right. exists entry. split; [done|lia].
      * intros [H|(i & x & Hin & H)]%IH; [by left|].
        right. exists i, x. split; [by right | done].
    + intros _. right. exists mod_id, item. split; [left | by left].
Qed.

Lemma outdated_ids_drift modInfo json_data :
  is_nil (outdated_ids (map_to_list modInfo) json_data []) = false
  ↔ drift modInfo json_data.
Proof.
  destruct (outdated_ids _ _ _) as [|x l] eqn:E; simpl.
  - apply outdated_ids_nil in E as [_ H]. split; [done|].
    intros (i & x & Hi & Ho). exfalso. apply (H i x); [|done].
    by apply elem_of_map_to_list.
  - split; [intros _|done].
    destruct (outdated_ids_cons (map_to_list modInfo) json_data [])
      as [?|(i & y & Hin & Ho)]; [by rewrite E | done |].
    exists i, y. split; [by apply elem_of_map_to_list | done].
Qed.

(** On a snapshot as the script writes it, the loop collects the ids of
    [outdated_ids] when every date it formats is one the platform
    converts. *)
Lemma collect_outdated_view (w : World) json_data items : ∀ outdated,
  (∀ mod_id item entry,
     (mod_id, item) ∈ items → json_data !! mod_id = Some entry →
     local_time_of entry < time_updated item →
     timestamps w (Int (time_updated item)) = true
     ∧ timestamps w (Int (local_time_of entry)) = true) →
  collect_outdated items (view_of json_data) outdated w
  = (Ok (outdated_ids items json_data outdated), w).
Proof.
  induction items as [|[mod_id item] rest IH]; intros outdated H; [done|].
  assert (∀ outdated',
            collect_outdated rest (view_of json_data) outdated' w
            = (Ok (outdated_ids rest json_data outdated'), w)) as IH'.
  { intros outdated'. apply IH. intros i x e Hin. apply H. by right. }
  simpl. unfold bind at 1. simpl. rewrite lookup_fmap.
  destruct (json_data !! mod_id) as [entry|] eqn:E; simpl; [|apply IH'].
  unfold bind at 1. simpl.
  assert (default (Numeric (Int 0))
            ((λ t, Numeric (Int t)) <$> snap_time_updated entry)
          = Numeric (Int (local_time_of entry))) as ->.
  { unfold local_time_of, from_option_Z. by destruct (snap_time_updated entry). }
  simpl.
  destruct (time_updated item >? local_time_of entry) eqn:C; [|apply IH'].
  destruct (H mod_id item entry) as [H1 H2]; [by left | done | lia |].
  unfold bind, datetime_fromtimestamp. rewrite H1, H2. apply IH'.
Qed.

(** It raises, and leaves the world as it was, when some fresh record is
    newer than its entry and has a date the platform does not convert. *)
Lemma collect_outdated_raises (w : World) json_data items : ∀ outdated,
  (∃ mod_id item entry,
     (mod_id, item) ∈ items ∧ json_data !! mod_id = Some entry
     ∧ local_time_of entry < time_updated item
     ∧ (timestamps w (Int (time_updated item)) = false
        ∨ timestamps w (Int (local_time_of entry)) = false)) →
  collect_outdated items (view_of json_data) outdated w = (Raise OtherError, w).
Proof.
  induction items as [|[mod_id item] rest IH]; intros outdated H.
  { destruct H as (i & x & e & Hin & _). by apply elem_of_nil in Hin. }
  simpl. unfold bind at 1. simpl. rewrite lookup_fmap.
  destruct (json_data !! mod_id) as [entry|] eqn:E; simpl.
  - unfold bind at 1. simpl.
    assert (default (Numeric (Int 0))
              ((λ t, Numeric (Int t)) <$> snap_time_updated entry)
            = Numeric (Int (local_time_of entry))) as ->.
    { unfold local_time_of, from_option_Z. by destruct (snap_time_updated entry). }
    simpl.
    destruct (time_updated item >? local_time_of entry) eqn:C.
    + unfold bind, datetime_fromtimestamp.
      destruct (timestamps w (Int (time_updated item))) eqn:T1; [|done].
      destruct (timestamps w (Int (local_time_of entry))) eqn:T2; [|done].
      apply IH. destruct H as (i & x & e & Hin & He & Hlt & Hbad).
      apply elem_of_cons in Hin as [[= -> ->]|Hin]; [|by eauto 10].
      rewrite E in He. injection He as <-. destruct Hbad; congruence.
    + apply IH. destruct H as (i & x & e & Hin & He & Hlt & Hbad).
      apply elem_of_cons in Hin as [[= -> ->]|Hin]; [|by eauto 10].
      rewrite E in He. injection He as <-. lia.
  - apply IH. destruct H as (i & x & e & Hin & He & Hlt & Hbad).
    apply elem_of_cons in Hin as [[= -> ->]|Hin]; [|by eauto 10].
    rewrite E in He. discriminate He.
Qed.

(** It returns the list it was given when there is nothing to compare. *)
Lemma collect_outdated_no_items json_data outdated w :
  collect_outdated [] json_data outdated w = (Ok outdated, w).
Proof. reflexivity. Qed.

(** The loop changes nothing. *)
Lemma collect_outdated_frame items json_data : ∀ outdated w,
  snd (collect_outdated items json_data outdated w) = w.
Proof.
  induction items as [|[mod_id item] rest IH]; intros outdated w; [done|].
  simpl. unfold bind at 1.
  destruct json_data as [entries|]; simpl; [|done].
  destruct (entries !! mod_id) as [[time|]|]; simpl; [| done | apply IH].
  unfold bind at 1. simpl.
  destruct (default (Numeric (Int 0)) time) as [local_time|]; [|done].
  destruct (greater _ _); [|apply IH].
  unfold bind, datetime_fromtimestamp.
  destruct (timestamps w (Int _)); [|done].
  destruct (timestamps w local_time); [|done].
  apply IH.
Qed.

(** The detector after a snapshot was loaded. *)
Lemma are_mods_outdated_loaded modInfo local_file w json_data :
  json_load local_file w = (Ok json_data, w) →
  are_mods_outdated modInfo local_file w
  = match collect_outdated (map_to_list modInfo) json_data [] w with
    | (Ok outdated, _) =>
        if is_nil outdated then (Ok false, w)
        else (Ok true, snd (write_modInfo_timeUpdated_file modInfo local_file w))
    | (Raise e, _) => (Raise e, w)
    end.
Proof.
  intros El. unfold are_mods_outdated.
  erewrite bind_run; cycle 1.
  { unfold try_except. by rewrite (bind_run _ _ _ _ _ El). }
  cbv beta iota. unfold bind at 1.
  pose proof (collect_outdated_frame (map_to_list modInfo) json_data [] w) as F.
  destruct (collect_outdated _ _ _ w) as [[outdated|e] w1]; simpl in F; subst w1;
    [|done].
  destruct outdated as [|x l]; simpl is_nil; cbv iota; [done|].
  change (negb false) with true. cbv iota. unfold bind.
  pose proof (write_returns local_file modInfo w) as R.
  destruct (write_modInfo_timeUpdated_file _ _ w) as [[[]|e] w']; [done|].
  discriminate R.
Qed.

Lemma formats_items w modInfo json_data :
  formats w modInfo json_data →
  ∀ mod_id item entry,
    (mod_id, item) ∈ map_to_list modInfo → json_data !! mod_id = Some entry →
    local_time_of entry < time_updated item →
    timestamps w (Int (time_updated item)) = true
    ∧ timestamps w (Int (local_time_of entry)) = true.
Proof. intros H i x e Hin. apply H. by apply elem_of_map_to_list. Qed.

(** The detector on a snapshot that can be read, when the dates can be
    formatted. *)
Lemma are_mods_outdated_run modInfo local_file w json_data :
  local_file ∉ unreadable w →
  files w !! local_file = Some (Json json_data) →
  formats w modInfo json_data →
  are_mods_outdated modInfo local_file w
  = if is_nil (outdated_ids (map_to_list modInfo) json_data [])
    then (Ok false, w)
    else (Ok true, snd (write_modInfo_timeUpdated_file modInfo local_file w)).
Proof.
  intros Hr Hf Ht.
  rewrite (are_mods_outdated_loaded _ _ _ _ (json_load_run _ _ _ Hr Hf)).
  by rewrite collect_outdated_view by (by apply formats_items).
Qed.

(** The detector on a snapshot that can be read, when a date cannot be
    formatted: the exception leaves the function, and nothing is
    written. *)
Lemma are_mods_outdated_raises modInfo local_file w json_data :
  local_file ∉ unreadable w →
  files w !! local_file = Some (Json json_data) →
  unformattable w modInfo json_data →
  are_mods_outdated modInfo local_file w = (Raise OtherError, w).
Proof.
  intros Hr Hf (i & x & e & Hi & He & Hlt & Hbad).
  rewrite (are_mods_outdated_loaded _ _ _ _ (json_load_run _ _ _ Hr Hf)).
  rewrite collect_outdated_raises; [done|].
  exists i, x, e. split; [by apply elem_of_map_to_list | done].
Qed.

(** Without a newer record no date is formatted. *)
Lemma formats_no_newer w modInfo json_data :
  (∀ mod_id item entry,
     modInfo !! mod_id = Some item → json_data !! mod_id = Some entry →
     time_updated item ≤ local_time_of entry) →
  formats w modInfo json_data.
Proof. intros H i x e Hi He Hlt. specialize (H i x e Hi He). lia. Qed.

(** Drift on a snapshot that can be read and written. *)
Lemma are_mods_outdated_drift_run modInfo local_file w json_data :
  local_file ∉ unreadable w →
  files w !! local_file = Some (Json json_data) →
  local_file ∉ unwritable w →
  formats w modInfo json_data →
  drift modInfo json_data →
  are_mods_outdated modInfo local_file w
  = (Ok true,
     rewritten w local_file modInfo [FileOpenW local_file; FileDump local_file]).
Proof.
  intros Hr Hf Hw Ht Hd.
  rewrite (are_mods_outdated_run _ _ _ _ Hr Hf Ht).
  apply outdated_ids_drift in Hd. by rewrite Hd, write_run.
Qed.

(** C1.  A fresh mapping and a snapshot that can be read.  Where the
    platform formats the dates of every fresh record that is newer than its
    entry, the detector returns [true] exactly when some id of the fresh
    mapping is absent from the snapshot, or recorded there with a time
    strictly below the fresh one, and it returns [false] when the snapshot
    records, for every fresh id, the fresh time.  But the two dates of a
    newer record are formatted for the log outside any [try]: where some
    newer record has a date the platform does not convert, there is drift
    and yet the detector returns nothing; the exception leaves it, and the
    snapshot is not rewritten. *)
Theorem are_mods_outdated_returns_or_raises (modInfo : gmap string ModInfo)
    (local_file : string) (w : World) (json_data : gmap string SnapEntry) :
  local_file ∉ unreadable w →
  files w !! local_file = Some (Json json_data) →
  (formats w modInfo json_data →
   ∃ outdated w',
     are_mods_outdated modInfo local_file w = (Ok outdated, w')
     ∧ (outdated = true
        ↔ ∃ mod_id item,
            modInfo !! mod_id = Some item
            ∧ (json_data !! mod_id = None
               ∨ ∃ entry, json_data !! mod_id = Some entry
                          ∧ local_time_of entry < time_updated item))
     ∧ ((∀ mod_id item,
           modInfo !! mod_id = Some item →
           ∃ entry, json_data !! mod_id = Some entry
                    ∧ snap_time_updated entry = Some (time_updated item)) →
        outdated = false))
  ∧ (unformattable w modInfo json_data →
     drift modInfo json_data
     ∧ are_mods_outdated modInfo local_file w = (Raise OtherError, w)).
Proof.
  intros Hr Hf. split.
  - intros Ht. rewrite (are_mods_outdated_run _ _ _ _ Hr Hf Ht).
    pose proof (outdated_ids_drift modInfo json_data) as D.
    destruct (is_nil _); eexists _, _; (split; [reflexivity|]).
    + split; [|done]. split; [done|]. intros H. by apply D in H.
    + split; [split; [intros _; by apply D | done]|].
      intros Hagree. destruct D as [D _].
      destruct (D eq_refl) as (i & x & Hi & [Hn|(e & He & Hlt)]);
        destruct (Hagree i x Hi) as (e' & He' & Ht'); simplify_eq.
      unfold local_time_of in Hlt. rewrite Ht' in Hlt. simpl in Hlt. lia.
  - intros Hbad. split; [|by apply (are_mods_outdated_raises _ _ _ json_data)].
    destruct Hbad as (i & x & e & Hi & He & Hlt & _).
    exists i, x. split; [done|]. right. eauto.
Qed.

(** C6.  A snapshot file that is missing, not readable or not JSON: for
    every fresh mapping the detector returns [false], raises nothing, and
    leaves the world, the file with it, as it was. *)
Theorem are_mods_outdated_unreadable (modInfo : gmap string ModInfo)
    (local_file : string) (w : World) :
  snapshot_unreadable w local_file →
  are_mods_outdated modInfo local_file w = (Ok false, w).
Proof.
  intros (e & He)%json_load_fails. unfold are_mods_outdated.
  rewrite (bind_run _ _ _ None w); [reflexivity|].
  unfold try_except. by rewrite (bind_raise _ _ _ _ _ He).
Qed.


(** The snapshot is loaded, or the exception of the load is caught. *)
Lemma json_load_cases path w :
  (∃ e, json_load path w = (Raise e, w))
  ∨ ((path ∉ unreadable w) ∧ ∃ json_data, json_load path w = (Ok json_data, w)).
Proof.
  unfold json_load. case_bool_decide as Hu; [left; eauto|].
  destruct (files w !! path) as [[text|doc|value]|]; eauto.
Qed.

(** The ways a call of the detector ends. *)
Lemma are_mods_outdated_cases modInfo local_file w :
  are_mods_outdated modInfo local_file w = (Ok false, w)
  ∨ (∃ e, are_mods_outdated modInfo local_file w = (Raise e, w))
  ∨ ((local_file ∉ unreadable w) ∧ (local_file ∉ unwritable w)
     ∧ are_mods_outdated modInfo local_file w
       = (Ok true,
          rewritten w local_file modInfo
            [FileOpenW local_file; FileDump local_file]))
  ∨ ((local_file ∉ unreadable w) ∧ (local_file ∈ unwritable w)
     ∧ are_mods_outdated modInfo local_file w = (Ok true, w)).
Proof.
  destruct (json_load_cases local_file w) as [(e & He)|(Hr & json_data & El)].
  { left. unfold are_mods_outdated, try_except.
    unfold bind at 1. by rewrite (bind_raise _ _ _ _ _ He). }
  rewrite (are_mods_outdated_loaded _ _ _ _ El).
  destruct (collect_outdated _ _ _ w) as [[outdated|e] w1]; [|right; left; eauto].
  destruct (is_nil outdated); [by left|]. right; right.
  destruct (decide (local_file ∈ unwritable w)) as [Hw|Hw].
  - right. by rewrite write_denied.
  - left. by rewrite write_run.
Qed.


Lemma no_drift_after_write modInfo :
  is_nil (outdated_ids (map_to_list modInfo) (snapshot_of modInfo) []) = true.
Proof.
  destruct (is_nil _) eqn:E; [done|]. exfalso.
  apply outdated_ids_drift in E as (i & x & Hi & [Hn|(e & He & Hlt)]).
  - unfold snapshot_of in Hn. by rewrite lookup_fmap, Hi in Hn.
  - unfold snapshot_of in He. rewrite lookup_fmap, Hi in He.
    simpl in He. injection He as <-.
    unfold local_time_of, from_option_Z in Hlt. simpl in Hlt. lia.
Qed.

(** Drift on a snapshot that can be read but not written. *)
Lemma are_mods_outdated_denied_run modInfo local_file w json_data :
  local_file ∉ unreadable w →
  files w !! local_file = Some (Json json_data) →
  local_file ∈ unwritable w →
  formats w modInfo json_data →
  drift modInfo json_data →
  are_mods_outdated modInfo local_file w = (Ok true, w).
Proof.
  intros Hr Hf Hw Ht Hd.
  rewrite (are_mods_outdated_run _ _ _ _ Hr Hf Ht).
  apply outdated_ids_drift in Hd. by rewrite Hd, write_denied.
Qed.

Lemma formats_after_write w modInfo : formats w modInfo (snapshot_of modInfo).
Proof.
  apply formats_no_newer. intros i x e Hi He.
  unfold snapshot_of in He. rewrite lookup_fmap, Hi in He.
  simpl in He. injection He as <-.
  unfold local_time_of, from_option_Z. simpl. lia.
Qed.


(** *** The retry loop *)

Lemma attempts_retry batch attempt rest w :
  retryable (steam w (http_calls (trace w)) batch) = true →
  attempts batch (attempt :: rest) w
  = attempts batch rest
      (set_trace w
         (trace w ++
            [ HttpGet batch (steam w (http_calls (trace w)) batch);
              Sleep (inject_Z
                       (backoff attempt
                          (cap_of (steam w (http_calls (trace w)) batch)))) ])).
Proof.
  intros H. simpl. unfold bind, requests_get.
  destruct (steam w _ batch); try discriminate H;
    unfold sleep_int, sleep, emit; simpl; by rewrite <- app_assoc.
Qed.

Lemma attempts_good batch attempt rest w data :
  steam w (http_calls (trace w)) batch = Good data →
  attempts batch (attempt :: rest) w
  = (Ok (Some data), set_trace w (trace w ++ [HttpGet batch (Good data)])).
Proof. intros H. simpl. unfold bind, requests_get. by rewrite H. Qed.

Lemma http_calls_failed_attempts w batch n k :
  http_calls (flat_map (failed_attempt w batch n) (seq 0 k)) = k.
Proof.
  induction k as [|k IH]; [done|].
  rewrite seq_S, flat_map_app, http_calls_app, IH.
  change (http_calls (flat_map _ _)) with 1%nat. lia.
Qed.

(** The first [k] attempts fail: the loop goes on with what is left of its
    attempts, having made [k] requests and waited after each. *)
Lemma attempts_retries batch w : ∀ k todo,
  (∀ j, (j < k)%nat →
        retryable (steam w (http_calls (trace w) + j) batch) = true) →
  attempts batch (map Z.of_nat (seq 0 k) ++ todo) w
  = attempts batch todo
      (set_trace w
         (trace w ++ flat_map (failed_attempt w batch (http_calls (trace w)))
                       (seq 0 k))).
Proof.
  induction k as [|k IH]; intros todo H.
  - simpl. by rewrite set_trace_nil.
  - rewrite seq_S, map_app, <- app_assoc, IH by (intros; apply H; lia).
    simpl app at 1. rewrite attempts_retry; simpl trace; simpl steam;
      rewrite http_calls_app, http_calls_failed_attempts.
    + rewrite flat_map_app, <- app_assoc. reflexivity.
    + apply H. lia.
Qed.

Lemma fetch_batches_cons batch rest results :
  fetch_batches (batch :: rest) results
  = (data <- attempts batch (map Z.of_nat (seq 0 5)) ;;
     match data with
     | None => fetch_batches rest results
     | Some data =>
         sleep (1 # 2) ;;;
         fetch_batches rest (foldl store_details results data)
     end).
Proof. reflexivity. Qed.

Lemma backoff_below_cap j cap :
  0 ≤ j < 5 → cap = 30 ∨ cap = 60 → backoff j cap = 2 ^ j.
Proof.
  intros Hj Hc. unfold backoff.
  assert (j = 0 ∨ j = 1 ∨ j = 2 ∨ j = 3 ∨ j = 4) as Hcases by lia.
  destruct Hc as [-> | ->];
    destruct Hcases as [-> | [-> | [-> | [-> | ->]]]]; reflexivity.
Qed.

(** C7, as the script has it.  The first [k] attempts of a batch fail, by
    the network, the rate limit or a bad response.  Each failed attempt [j],
    counted from zero, is followed by a delay of [min(2 ** j, cap)] seconds,
    with the cap 60 after a rate limit and 30 otherwise: the delays are 1,
    2, 4, 8, 16 seconds, and no cap is ever reached.  With [k = 5] the
    batch is given up after the fifth delay, the results so far are kept,
    and the loop goes on with the next batch; with [k < 5] and a good reply
    to the next attempt, the reply is stored and no further attempt is
    made. *)
Theorem retry_schedule (batch : list string) (rest : list (list string))
    (results : gmap string ModInfo) (w : World) (k : nat) :
  (k ≤ 5)%nat →
  (∀ j, (j < k)%nat →
        retryable (steam w (http_calls (trace w) + j) batch) = true) →
  let n := http_calls (trace w) in
  let failed := flat_map (failed_attempt w batch n) (seq 0 k) in
  (k = 5%nat →
     fetch_batches (batch :: rest) results w
     = fetch_batches rest results (set_trace w (trace w ++ failed)))
  ∧ (∀ data, (k < 5)%nat → steam w (n + k) batch = Good data →
     fetch_batches (batch :: rest) results w
     = fetch_batches rest (foldl store_details results data)
         (set_trace w
            (trace w ++ failed ++ [HttpGet batch (Good data); Sleep (1 # 2)])))
  ∧ delays failed
    = map (λ j, inject_Z (backoff (Z.of_nat j) (cap_of (steam w (n + j) batch))))
          (seq 0 k)
  ∧ (∀ j cap, 0 ≤ j < 5 → cap = 30 ∨ cap = 60 → backoff j cap = 2 ^ j)
  ∧ map (λ j, backoff j 30) [0; 1; 2; 3; 4] = [1; 2; 4; 8; 16].
Proof.
  intros Hk Hfail n failed. repeat split.
  - intros ->. rewrite fetch_batches_cons.
    rewrite (bind_run _ _ _ None (set_trace w (trace w ++ failed))); [done|].
    rewrite <- (app_nil_r (map Z.of_nat (seq 0 5))).
    rewrite attempts_retries by done. reflexivity.
  - intros data Hlt Hgood. rewrite fetch_batches_cons.
    rewrite (bind_run _ _ _ (Some data)
               (set_trace w (trace w ++ failed ++ [HttpGet batch (Good data)]))).
    + cbv beta iota. unfold bind, sleep, emit. simpl.
      by rewrite <- !app_assoc.
    + replace (seq 0 5) with (seq 0 k ++ k :: seq (S k) (4 - k)).
      * rewrite map_app, attempts_retries by done.
        simpl map. erewrite attempts_good.
        -- simpl. by rewrite <- app_assoc.
        -- simpl trace. simpl steam.
           rewrite http_calls_app, http_calls_failed_attempts. exact Hgood.
      * symmetry. replace 5%nat with (k + S (4 - k))%nat by lia.
        by rewrite seq_app.
  - subst failed. clear. induction k as [|k IH]; [done|].
    rewrite !seq_S, flat_map_app, map_app. unfold delays in *.
    by rewrite flat_map_app, IH.
  - apply backoff_below_cap.
Qed.

(** *** Cutting a list into batches *)

Lemma range_from_concat {A} (l : list A) (n : nat) :
  (0 < n)%nat → ∀ fuel i, (length l - i ≤ fuel)%nat →
  concat (map (λ i, take n (drop i l)) (range_from fuel i (length l) n))
  = drop i l.
Proof.
  intros Hn. induction fuel as [|fuel IH]; intros i Hf; simpl.
  - symmetry. apply drop_ge. lia.
  - destruct (i <? length l)%nat eqn:E.
    + apply Nat.ltb_lt in E. simpl. rewrite IH by lia.
      rewrite <- drop_drop. apply take_drop.
    + apply Nat.ltb_ge in E. symmetry. by apply drop_ge.
Qed.

Lemma chunks_concat {A} (n : nat) (l : list A) :
  (0 < n)%nat → concat (chunks n l) = l.
Proof.
  intros Hn. unfold chunks. rewrite range_from_concat by lia. apply drop_0.
Qed.

Lemma range_from_sizes {A} (l : list A) (n : nat) :
  (0 < n)%nat → ∀ fuel i,
  Forall (λ b : list A, (0 < length b ≤ n)%nat ∧ (length b ≤ length l)%nat)
         (map (λ i, take n (drop i l)) (range_from fuel i (length l) n)).
Proof.
  intros Hn. induction fuel as [|fuel IH]; intros i; simpl; [constructor|].
  destruct (i <? length l)%nat eqn:E; [|constructor].
  apply Nat.ltb_lt in E. simpl. constructor; [|apply IH].
  rewrite length_take, length_drop. lia.
Qed.

Lemma chunks_sizes {A} (n : nat) (l : list A) :
  (0 < n)%nat →
  Forall (λ b : list A, (0 < length b ≤ n)%nat ∧ (length b ≤ length l)%nat)
         (chunks n l).
Proof. intros Hn. by apply range_from_sizes. Qed.

Lemma chunks_nil {A} (n : nat) : chunks n (@nil A) = [].
Proof. reflexivity. Qed.

(** *** What the requests return *)

Lemma returned_app t1 t2 : returned (t1 ++ t2) = returned t1 ++ returned t2.
Proof. apply flat_map_app. Qed.

Lemma answered_app t1 t2 : answered (t1 ++ t2) = answered t1 ++ answered t2.
Proof. apply flat_map_app. Qed.

(** The retry loop of one batch: its trace holds a good reply exactly when
    the loop ends with that reply. *)
Lemma attempts_trace batch : ∀ todo w,
  ∃ t, snd (attempts batch todo w) = set_trace w (trace w ++ t)
       ∧ returned t = match fst (attempts batch todo w) with
                      | Ok (Some data) => data
                      | _ => []
                      end
       ∧ answered t = match fst (attempts batch todo w) with
                      | Ok (Some _) => [batch]
                      | _ => []
                      end.
Proof.
  induction todo as [|attempt rest IH]; intros w.
  - exists []. simpl. by rewrite set_trace_nil.
  - destruct (steam w (http_calls (trace w)) batch) as [| | |data|] eqn:E.
    1-3: (rewrite attempts_retry by (by rewrite E);
          match goal with |- context [attempts _ _ ?w1] =>
            destruct (IH w1) as (t & Et & Rt & At) end;
          eexists (_ :: _ :: t);
          (split; [rewrite Et; simpl; rewrite <- app_assoc; reflexivity|]);
          rewrite <- Rt, <- At, E; by split).
    + rewrite (attempts_good _ _ _ _ _ E).
      exists [HttpGet batch (Good data)]. simpl. by rewrite app_nil_r.
    + exists [HttpGet batch Unexpected].
      simpl. unfold bind, requests_get. by rewrite E.
Qed.

Lemma every_batch_succeeds_cons batch rest w :
  every_batch_succeeds (batch :: rest) w
  = match attempts batch (map Z.of_nat (seq 0 5)) w with
    | (Ok (Some _), w') => every_batch_succeeds rest (snd (sleep (1 # 2) w'))
    | _ => false
    end.
Proof. reflexivity. Qed.

Lemma fetch_batches_ok : ∀ batches results w,
  every_batch_succeeds batches w = true →
  ∃ t, fetch_batches batches results w
       = (Ok (foldl store_details results (returned t)),
          set_trace w (trace w ++ t))
       ∧ answered t = batches.
Proof.
  induction batches as [|batch rest IH]; intros results w H.
  - exists []. simpl. unfold ret. by rewrite set_trace_nil.
  - rewrite every_batch_succeeds_cons in H.
    destruct (attempts_trace batch (map Z.of_nat (seq 0 5)) w) as (t1 & E1 & R1 & A1).
    destruct (attempts batch (map Z.of_nat (seq 0 5)) w) as [[[data|]|e] w1] eqn:E;
      try discriminate H.
    cbn [fst snd] in E1, R1, A1. subst w1.
    rewrite fetch_batches_cons, (bind_run _ _ _ _ _ E). cbv beta iota.
    set (w2 := set_trace w ((trace w ++ t1) ++ [Sleep (1 # 2)])).
    destruct (IH (foldl store_details results data) w2 H) as (t2 & E2 & A2).
    exists (t1 ++ Sleep (1 # 2) :: t2).
    rewrite (bind_run (sleep (1 # 2)) _ (set_trace w (trace w ++ t1)) tt w2 eq_refl), E2.
    rewrite returned_app, answered_app, foldl_app, R1, A1, <- A2.
    subst w2. simpl trace. rewrite set_trace_set_trace.
    by rewrite <- !app_assoc.
Qed.

Lemma every_batch_succeeds_app : ∀ l1 l2 w,
  every_batch_succeeds (l1 ++ l2) w = true →
  every_batch_succeeds l1 w = true
  ∧ ∀ results, every_batch_succeeds l2 (snd (fetch_batches l1 results w)) = true.
Proof.
  induction l1 as [|batch rest IH]; intros l2 w H; [done|].
  change ((batch :: rest) ++ l2) with (batch :: (rest ++ l2)) in H.
  rewrite every_batch_succeeds_cons in H |- *.
  destruct (attempts batch _ w) as [[[data|]|e] w1] eqn:E; try discriminate H.
  destruct (IH _ _ H) as [H1 H2]. split; [done|]. intros results.
  rewrite fetch_batches_cons. unfold bind at 1. rewrite E. apply H2.
Qed.

Lemma slices_positive {A} (l : list A) (step : Z) :
  0 < step → slices l step = ret (chunks (Z.to_nat step) l).
Proof.
  intros H. unfold slices.
  destruct (step =? 0) eqn:E1; [lia|]. destruct (step <? 0) eqn:E2; [lia|].
  reflexivity.
Qed.

Lemma fetch_workshop_details_ok mod_ids w :
  mod_ids ≠ [] →
  every_batch_succeeds (chunks 100 mod_ids) w = true →
  ∃ t, fetch_workshop_details mod_ids 100 w
       = (Ok (foldl store_details ∅ (returned t)), set_trace w (trace w ++ t))
       ∧ answered t = chunks 100 mod_ids
       ∧ snd (fetch_batches (chunks 100 mod_ids) ∅ w) = set_trace w (trace w ++ t).
Proof.
  intros Hne H. destruct (fetch_batches_ok _ ∅ _ H) as (t & E & A).
  exists t. unfold fetch_workshop_details.
  destruct mod_ids as [|x l]; [done|].
  change (is_nil (x :: l)) with false. cbv iota.
  unfold try_except. cbv beta. rewrite slices_positive, bind_ret_l by lia.
  change (Z.to_nat 100) with 100%nat. by rewrite E.
Qed.

(** *** The records of the result *)

Lemma resolve_store data : ∀ results mod_id,
  foldl store_details results data !! mod_id
  = resolve mod_id data (results !! mod_id).
Proof.
  unfold resolve. induction data as [|details rest IH]; intros results mod_id; [done|].
  simpl. rewrite IH. f_equal. unfold store_details.
  rewrite lookup_insert. by destruct (decide _).
Qed.

Lemma resolve_app mod_id data1 data2 init :
  resolve mod_id (data1 ++ data2) init
  = resolve mod_id data2 (resolve mod_id data1 init).
Proof. apply foldl_app. Qed.

Lemma resolve_init mod_id data : ∀ init,
  resolve mod_id data init
  = match resolve mod_id data None with Some r => Some r | None => init end.
Proof.
  unfold resolve. induction data as [|details rest IH]; intros init; [done|].
  simpl. destruct (decide _); [|apply IH].
  rewrite (IH (Some _)). by destruct (foldl _ None rest).
Qed.

Lemma resolve_last mod_id data :
  resolve mod_id data None = last_record mod_id data.
Proof.
  unfold last_record.
  induction data as [|details rest IH] using rev_ind; [done|].
  rewrite resolve_app, filter_app, IH. simpl.
  rewrite filter_cons, filter_nil. destruct (decide _).
  - by rewrite last_snoc.
  - by rewrite app_nil_r.
Qed.

Lemma last_record_is_Some mod_id data :
  is_Some (last_record mod_id data) ↔ mod_id ∈ publishedfileid <$> data.
Proof.
  unfold last_record. rewrite fmap_is_Some, list_elem_of_fmap. split.
  - intros [d Hd]. apply last_Some_elem_of in Hd.
    apply list_elem_of_filter in Hd as [Hid Hin]. eauto.
  - intros (d & -> & Hin).
    assert (d ∈ filter (λ details, publishedfileid details = publishedfileid d) data)
      as Hf by (by apply list_elem_of_filter).
    destruct (filter _ data) as [|x l] using rev_ind.
    + by apply elem_of_nil in Hf.
    + rewrite last_snoc. eauto.
Qed.

Lemma update_lookup (data infos : gmap string ModInfo) mod_id :
  (if bool_decide (data = ∅) then infos else data ∪ infos) !! mod_id
  = match data !! mod_id with Some r => Some r | None => infos !! mod_id end.
Proof.
  case_bool_decide as E.
  - subst. by rewrite lookup_empty.
  - rewrite lookup_union. destruct (data !! mod_id), (infos !! mod_id); done.
Qed.

Lemma create_loop_ok : ∀ batches infos w,
  Forall (λ b, b ≠ []) batches →
  every_batch_succeeds (batches ≫= chunks 100) w = true →
  ∃ infos' t,
    create_loop batches infos w = (Ok infos', set_trace w (trace w ++ t))
    ∧ answered t = batches ≫= chunks 100
    ∧ ∀ mod_id, infos' !! mod_id = resolve mod_id (returned t) (infos !! mod_id).
Proof.
  induction batches as [|batch rest IH]; intros infos w Hne H.
  - exists infos, []. simpl. unfold ret. by rewrite set_trace_nil.
  - apply Forall_cons in Hne as [Hb Hne]. simpl in H.
    apply every_batch_succeeds_app in H as [H1 H2].
    destruct (fetch_workshop_details_ok batch w Hb H1) as (t1 & E1 & A1 & W1).
    specialize (H2 ∅). rewrite W1 in H2.
    simpl create_loop. rewrite (bind_run _ _ _ _ _ E1).
    match goal with |- context [create_loop _ ?i ?w1] =>
      destruct (IH i w1 Hne H2) as (infos' & t2 & E2 & A2 & L2) end.
    exists infos', (t1 ++ t2). rewrite E2. simpl.
    split; [by rewrite app_assoc|]. split.
    + by rewrite answered_app, A1, A2.
    + intros mod_id. rewrite L2, update_lookup, resolve_store, lookup_empty.
      rewrite returned_app, resolve_app. f_equal.
      rewrite (resolve_init _ _ (infos !! mod_id)). done.
Qed.

Lemma request_batches_concat workshop_ids :
  0 < BATCH_SIZE → concat (request_batches workshop_ids) = workshop_ids.
Proof.
  intros H. unfold request_batches.
  rewrite <- (chunks_concat (Z.to_nat BATCH_SIZE) workshop_ids) at 2 by lia.
  induction (chunks (Z.to_nat BATCH_SIZE) workshop_ids) as [|b l IH]; [done|].
  change ((b :: l) ≫= chunks 100) with (chunks 100 b ++ (l ≫= chunks 100)).
  rewrite concat_app, IH. simpl. f_equal. apply chunks_concat. lia.
Qed.

Lemma request_batches_sizes workshop_ids :
  0 < BATCH_SIZE →
  Forall (λ b : list string, (0 < length b ≤ Z.to_nat BATCH_SIZE)%nat)
         (request_batches workshop_ids).
Proof.
  intros H. unfold request_batches. apply Forall_bind.
  eapply Forall_impl; [apply chunks_sizes; lia|].
  intros b [Hb _]. simpl.
  eapply Forall_impl; [apply chunks_sizes; lia|].
  intros c [Hc Hc']. simpl in *. lia.
Qed.

(** C8.  Any list of ids, a positive [BATCH_SIZE], and every batch fetched
    with success: the batches that go out are consecutive pieces of the
    list, none empty and none longer than [BATCH_SIZE]; each is answered by
    exactly one good reply, in the order of the list; the keys of the
    mapping returned are exactly the ids these replies hold; and each key
    has one record, that of the last detail object returned with its id. *)
Theorem create_modInfo_keys (workshop_ids : list string) (w : World) :
  0 < BATCH_SIZE →
  every_batch_succeeds (request_batches workshop_ids) w = true →
  ∃ infos t,
    create_modInfo workshop_ids w = (Ok infos, set_trace w (trace w ++ t))
    ∧ concat (request_batches workshop_ids) = workshop_ids
    ∧ Forall (λ b : list string, (0 < length b ≤ Z.to_nat BATCH_SIZE)%nat)
             (request_batches workshop_ids)
    ∧ answered t = request_batches workshop_ids
    ∧ dom infos = list_to_set (publishedfileid <$> returned t)
    ∧ ∀ mod_id, infos !! mod_id = last_record mod_id (returned t).
Proof.
  intros Hsize Hok.
  assert (∃ infos t,
            create_modInfo workshop_ids w = (Ok infos, set_trace w (trace w ++ t))
            ∧ answered t = request_batches workshop_ids
            ∧ ∀ mod_id, infos !! mod_id = last_record mod_id (returned t))
    as (infos & t & E & A & L).
  { unfold create_modInfo. destruct workshop_ids as [|x l].
    - exists ∅, []. simpl. unfold ret. rewrite set_trace_nil.
      by repeat split.
    - change (is_nil (x :: l)) with false. cbv iota.
      rewrite slices_positive, bind_ret_l by lia.
      destruct (create_loop_ok (chunks (Z.to_nat BATCH_SIZE) (x :: l)) ∅ w)
        as (infos & t & E & A & L).
      + eapply Forall_impl; [apply chunks_sizes; lia|].
        intros b [Hb _] ->. simpl in Hb. lia.
      + exact Hok.
      + exists infos, t. repeat split; [done..|].
        intros mod_id. by rewrite L, lookup_empty, resolve_last. }
  exists infos, t. repeat split; try done.
  - by apply request_batches_concat.
  - by apply request_batches_sizes.
  - apply set_eq. intros mod_id.
    rewrite elem_of_dom, L, last_record_is_Some, elem_of_list_to_set. done.
Qed.

(** ** Further properties of the console functions *)

(** The command that disconnects [player]. *)
Definition kickuser (player : string) : event :=
  RconCommand ("kickuser " +:+ player).

(** What a run in test mode can add to the trace: roster queries,
    broadcasts marked as tests, and the suspensions of the countdown. *)
Definition test_event (e : event) : Prop :=
  e = RconCommand "players"
  ∨ e = Sleep (inject_Z 60)
  ∨ ∃ message, e = RconCommand (servermsg message true).

(** X1.  A broadcast never raises: whether the console accepts the command
    or [rcon.command] raises, [send_rcon_message] returns normally, having
    sent the one [servermsg] command with the message between double
    quotes, followed by [ (TEST)] in test mode. *)
Theorem send_rcon_message_best_effort (rcon : ZomboidRCON) (message : string)
    (test_mode : bool) (w : World) :
  send_rcon_message rcon message test_mode w
  = (Ok tt,
     set_trace w
       (trace w ++
          [ RconCommand
              ("servermsg " +:+ PyStr.dquote
                 +:+ (if test_mode then message +:+ " (TEST)" else message)
                 +:+ PyStr.dquote) ])).
Proof.
  unfold send_rcon_message, try_except, bind, rcon_command, ret.
  by destruct (console w _ _).
Qed.

Lemma for_each_kick_answered rcon : ∀ players w,
  (∀ j player, players !! j = Some player →
     is_Some (console w (rcon_calls (trace w) + j) ("kickuser " +:+ player))) →
  for_each players
    (λ player, rcon_command rcon ("kickuser " +:+ player) ;;; ret tt) w
  = (Ok tt, set_trace w (trace w ++ map kickuser players)).
Proof.
  induction players as [|player rest IH]; intros w H.
  - simpl. unfold ret. by rewrite set_trace_nil.
  - destruct (H 0%nat player eq_refl) as [r Hr]. rewrite Nat.add_0_r in Hr.
    simpl for_each. unfold bind at 1 2. unfold rcon_command at 1. rewrite Hr.
    unfold ret at 1. rewrite IH.
    + simpl. by rewrite <- app_assoc.
    + intros j q Hq. simpl trace. simpl console.
      rewrite rcon_calls_app. change (rcon_calls [_]) with 1%nat.
      replace (rcon_calls (trace w) + 1 + j)%nat
        with (rcon_calls (trace w) + S j)%nat by lia.
      by apply H.
Qed.

(** X2.  When the console answers every [kickuser] command, all the
    players are disconnected, one command each, in the order of the
    roster. *)
Theorem kick_all_players_kicks_all (rcon : ZomboidRCON) (players : list string)
    (w : World) :
  (∀ j player, players !! j = Some player →
     is_Some (console w (rcon_calls (trace w) + j) ("kickuser " +:+ player))) →
  kick_all_players rcon players w
  = (Ok tt, set_trace w (trace w ++ map kickuser players)).
Proof.
  intros H. unfold kick_all_players, try_except.
  by rewrite for_each_kick_answered.
Qed.

Lemma for_each_kick_fails rcon player after : ∀ before w,
  (∀ j q, before !! j = Some q →
     is_Some (console w (rcon_calls (trace w) + j) ("kickuser " +:+ q))) →
  console w (rcon_calls (trace w) + length before) ("kickuser " +:+ player)
  = None →
  for_each (before ++ player :: after)
    (λ player, rcon_command rcon ("kickuser " +:+ player) ;;; ret tt) w
  = (Raise ConsoleError,
     set_trace w (trace w ++ map kickuser (before ++ [player]))).
Proof.
  induction before as [|q rest IH]; intros w Hb Hf.
  - rewrite Nat.add_0_r in Hf. simpl for_each.
    unfold bind at 1 2. unfold rcon_command at 1. by rewrite Hf.
  - destruct (Hb 0%nat q eq_refl) as [r Hr]. rewrite Nat.add_0_r in Hr.
    change ((q :: rest) ++ player :: after) with (q :: (rest ++ player :: after)).
    simpl for_each. unfold bind at 1 2. unfold rcon_command at 1. rewrite Hr.
    unfold ret at 1. rewrite IH.
    + simpl. by rewrite <- app_assoc.
    + intros j q' Hq'. simpl trace. simpl console.
      rewrite rcon_calls_app. change (rcon_calls [_]) with 1%nat.
      replace (rcon_calls (trace w) + 1 + j)%nat
        with (rcon_calls (trace w) + S j)%nat by lia.
      by apply Hb.
    + simpl trace. simpl console. rewrite rcon_calls_app.
      change (rcon_calls [_]) with 1%nat. rewrite <- Hf. f_equal. simpl. lia.
Qed.

(** X3.  The [try] of [kick_all_players] is around the whole loop: when
    the command for one player raises, the function still returns
    normally, but the players after that one are not disconnected. *)
Theorem kick_all_players_stops_at_failure (rcon : ZomboidRCON)
    (before after : list string) (player : string) (w : World) :
  (∀ j q, before !! j = Some q →
     is_Some (console w (rcon_calls (trace w) + j) ("kickuser " +:+ q))) →
  console w (rcon_calls (trace w) + length before) ("kickuser " +:+ player)
  = None →
  kick_all_players rcon (before ++ player :: after) w
  = (Ok tt, set_trace w (trace w ++ map kickuser (before ++ [player]))).
Proof.
  intros Hb Hf. unfold kick_all_players, try_except.
  by rewrite for_each_kick_fails.
Qed.

(** ** Further properties of the restart *)

Lemma rcon_calls_ticks test_mode ticks :
  rcon_calls (flat_map (tick_events test_mode) ticks) = (2 * length ticks)%nat.
Proof.
  induction ticks as [|m rest IH]; [done|].
  change (flat_map (tick_events test_mode) (m :: rest))
    with (tick_events test_mode m ++ flat_map (tick_events test_mode) rest).
  rewrite rcon_calls_app, IH. change (rcon_calls (tick_events _ _)) with 2%nat.
  simpl length. lia.
Qed.

(** X4.  The eviction, outside test mode.  Somebody is connected at the
    opening query and at every query of the countdown, and the console
    answers the query after the final warning and the [kickuser] commands.
    Then the run is: the countdown, the final warning, a suspension of
    twice [RESTART_TIMEOUT] seconds, a roster query, and, when that roster
    is not empty, one [kickuser] per player of that roster followed by a
    suspension of 2 seconds.  Nothing follows: the run ends there. *)
Theorem warn_and_restart_evicts (w : World) (response response' : string) :
  console w (rcon_calls (trace w)) "players" = Some response →
  parse_players response ≠ [] →
  (∀ j, (1 ≤ j ≤ Z.to_nat COUNTDOWN_MINUTES)%nat →
        roster_present w (rcon_calls (trace w) + 2 * j)) →
  console w (rcon_calls (trace w) + 2 * Z.to_nat COUNTDOWN_MINUTES + 2) "players"
  = Some response' →
  (∀ j player, parse_players response' !! j = Some player →
     is_Some (console w (rcon_calls (trace w) + 2 * Z.to_nat COUNTDOWN_MINUTES + 3 + j)
                (("kickuser " +:+ player)))) →
  warn_and_restart false w
  = (Ok tt,
     set_trace w
       (trace w ++ RconCommand "players"
          :: flat_map (tick_events false) (range_down COUNTDOWN_MINUTES)
          ++ [ RconCommand (servermsg (RESTART_MESSAGE (RESTART_TIMEOUT * 2)) false);
               Sleep (inject_Z (RESTART_TIMEOUT * 2));
               RconCommand "players" ]
          ++ (if is_nil (parse_players response') then []
              else map kickuser (parse_players response')
                     ++ [Sleep (inject_Z 2)]))).
Proof.
  intros Hr Hne Hall Hr' Hkick.
  rewrite (warn_and_restart_enters _ _ _ Hr (or_intror Hne)).
  unfold try_except.
  erewrite bind_run; cycle 1.
  { apply countdown_all_present. intros j Hj.
    rewrite range_down_length in Hj. simpl trace.
    rewrite rcon_calls_snoc_players.
    destruct (Hall (S j)) as (r1 & Hr1 & Hne1); [lia|].
    exists r1. split; [|done]. simpl console. rewrite <- Hr1. f_equal. lia. }
  change (negb false) with true. cbv iota.
  rewrite (bind_run _ _ _ _ _ (send_rcon_message_run _ _ _ _)).
  change (negb false) with true. cbv iota.
  unfold await.
  rewrite (bind_run (sleep_int (RESTART_TIMEOUT * 2)) _ _ tt _ eq_refl).
  erewrite bind_run; cycle 1.
  { apply get_connected_players_run. simpl trace. simpl console.
    rewrite !rcon_calls_app, rcon_calls_ticks, range_down_length.
    change (rcon_calls [RconCommand "players"]) with 1%nat.
    change (rcon_calls [RconCommand (servermsg _ _)]) with 1%nat.
    change (rcon_calls [Sleep _]) with 0%nat.
    rewrite <- Hr'. f_equal. lia. }
  simpl trace. rewrite !set_trace_set_trace.
  destruct (parse_players response') as [|p ps] eqn:Ep.
  - simpl. unfold ret, expr_stmt, ret. f_equal. f_equal.
    rewrite <- ?app_assoc. simpl. by rewrite <- ?app_assoc.
  - change (negb (is_nil (p :: ps))) with true. cbv iota.
    unfold kick_all_players, try_except.
    erewrite (bind_run (bind _ _)); cycle 1.
    { erewrite bind_run; cycle 1.
      { rewrite for_each_kick_answered; [reflexivity|].
        intros j q Hq. simpl trace. simpl console.
        rewrite !rcon_calls_app, rcon_calls_ticks, range_down_length.
        change (rcon_calls [RconCommand "players"]) with 1%nat.
        change (rcon_calls [RconCommand (servermsg _ _)]) with 1%nat.
        change (rcon_calls [Sleep _]) with 0%nat.
        destruct (Hkick j q Hq) as [r Hc]. exists r. rewrite <- Hc.
        f_equal. lia. }
      reflexivity. }
    unfold expr_stmt, ret. simpl. f_equal. f_equal.
    rewrite <- ?app_assoc. simpl. by rewrite <- ?app_assoc.
Qed.

(** X5.  A run in test mode is harmless: it always returns normally, and
    all it sends are roster queries and broadcasts that end in [ (TEST)];
    its only suspensions are the 60 seconds of the ticks.  No player is
    ever disconnected, and neither [save] nor [quit] is sent. *)
Theorem warn_and_restart_test_is_harmless (w : World) :
  ∃ t, warn_and_restart true w = (Ok tt, set_trace w (trace w ++ t))
       ∧ Forall test_event t.
Proof.
  assert (test_event (RconCommand "players")) as Hp by (by left).
  assert (test_event (Sleep (inject_Z 60))) as Hs by (right; by left).
  assert (∀ m, test_event (RconCommand (servermsg m true))) as Hm
    by (intros; right; right; eauto).
  assert (quiet test_event (warn_and_restart true)) as Q.
  { unfold warn_and_restart.
    apply quiet_try_except; [|intros ?; apply quiet_ret].
    apply quiet_bind; [apply quiet_ret | intros rcon].
    apply quiet_bind; [by apply quiet_get_connected_players | intros players].
    change (negb true) with false. rewrite andb_false_r.
    apply quiet_bind; [by apply quiet_countdown | intros gone].
    destruct gone; simpl negb; cbv iota; [apply quiet_ret|].
    apply quiet_bind; [by apply quiet_send_rcon_message | intros _].
    apply quiet_ret. }
  destruct (Q w) as (t & E & F). exists t. split; [|done].
  pose proof (warn_and_restart_returns true w) as R.
  destruct (warn_and_restart true w) as [r w']. simpl in *. by subst.
Qed.

(** X6.  When [rcon.command] raises on the opening roster query, the
    exception passes through [get_connected_players], which has no [try],
    and is caught by the [except] of [warn_and_restart]: the run ends at
    once and returns normally; no broadcast and no other command is sent,
    in either mode. *)
Theorem warn_and_restart_query_raises (test_mode : bool) (w : World) :
  console w (rcon_calls (trace w)) "players" = None →
  warn_and_restart test_mode w
  = (Ok tt, set_trace w (trace w ++ [RconCommand "players"])).
Proof.
  intros H. unfold warn_and_restart, try_except.
  rewrite instantiate_ZomboidRCON, bind_ret_l.
  unfold bind, get_connected_players, bind, rcon_command. by rewrite H.
Qed.

(** ** Further properties of the drift detection *)

(** A snapshot that cannot be read ends the call at once. *)
Lemma are_mods_outdated_no_snapshot modInfo local_file w :
  snapshot_unreadable w local_file →
  are_mods_outdated modInfo local_file w = (Ok false, w).
Proof.
  intros (e & He)%json_load_fails. unfold are_mods_outdated, try_except.
  unfold bind at 1. by rewrite (bind_raise _ _ _ _ _ He).
Qed.

(** X7.  The detector is idempotent wherever the snapshot file can be
    written: whatever the fresh mapping and whatever the file holds or
    lacks, when a call returns, a second call right after it, with the same
    fresh mapping, reports no drift and changes nothing. *)
Theorem are_mods_outdated_twice (modInfo : gmap string ModInfo)
    (local_file : string) (w : World) (outdated : bool) :
  local_file ∉ unwritable w →
  fst (are_mods_outdated modInfo local_file w) = Ok outdated →
  are_mods_outdated modInfo local_file
    (snd (are_mods_outdated modInfo local_file w))
  = (Ok false, snd (are_mods_outdated modInfo local_file w)).
Proof.
  intros Hw Hret.
  destruct (are_mods_outdated_cases modInfo local_file w)
    as [E|[(e & E)|[(Hr & _ & E)|(_ & Hn & _)]]]; [| | |done].
  - by rewrite E.
  - rewrite E in Hret. discriminate Hret.
  - rewrite E. simpl snd.
    erewrite are_mods_outdated_run;
      [| exact Hr | apply lookup_insert_eq | apply formats_after_write].
    by rewrite no_drift_after_write.
Qed.

(** X8.  Drift on a snapshot that cannot be written: when the detector
    returns [true] and the file cannot be opened for writing, the failed
    write is swallowed, the world is as it was, and the next call reports
    the same drift again. *)
Theorem are_mods_outdated_write_denied (modInfo : gmap string ModInfo)
    (local_file : string) (w : World) :
  fst (are_mods_outdated modInfo local_file w) = Ok true →
  local_file ∈ unwritable w →
  are_mods_outdated modInfo local_file w = (Ok true, w)
  ∧ are_mods_outdated modInfo local_file
      (snd (are_mods_outdated modInfo local_file w))
    = (Ok true, w).
Proof.
  intros Hd Hw.
  assert (are_mods_outdated modInfo local_file w = (Ok true, w)) as E.
  { destruct (are_mods_outdated_cases modInfo local_file w)
      as [E|[(e & E)|[(_ & Hn & _)|(_ & _ & E)]]];
      [rewrite E in Hd; discriminate Hd | rewrite E in Hd; discriminate Hd
       | done | exact E]. }
  split; [done|]. by rewrite E.
Qed.

(** The loop on a value that is no object, or that holds under a fresh id
    a value that is no object or a time that has no order with an
    integer. *)
Lemma collect_outdated_misshapen (w : World) entries items : ∀ outdated,
  (∃ mod_id item,
     (mod_id, item) ∈ items
     ∧ (entries !! mod_id = Some NoEntryDict
        ∨ entries !! mod_id = Some (EntryDict (Some Unordered)))) →
  ∃ e, collect_outdated items (SnapshotDict entries) outdated w = (Raise e, w).
Proof.
  induction items as [|[mod_id item] rest IH]; intros outdated H.
  { destruct H as (i & x & Hin & _). by apply elem_of_nil in Hin. }
  assert ((entries !! mod_id = Some NoEntryDict
           ∨ entries !! mod_id = Some (EntryDict (Some Unordered)))
          ∨ ∃ mod_id' item',
              (mod_id', item') ∈ rest
              ∧ (entries !! mod_id' = Some NoEntryDict
                 ∨ entries !! mod_id' = Some (EntryDict (Some Unordered))))
    as [[E|E]|Hrest].
  { destruct H as (i & x & [[= -> ->]|Hin]%elem_of_cons & Hbad); eauto. }
  - simpl. unfold bind at 1. simpl. rewrite E. simpl. eauto.
  - simpl. unfold bind at 1. simpl. rewrite E. simpl. eauto.
  - simpl. unfold bind at 1. simpl.
    destruct (entries !! mod_id) as [[time|]|]; simpl; [|eauto|by apply IH].
    unfold bind at 1. simpl.
    destruct (default (Numeric (Int 0)) time) as [local_time|]; [|eauto].
    destruct (greater _ _); [|by apply IH].
    unfold bind, datetime_fromtimestamp.
    destruct (timestamps w (Int _)); [|eauto].
    destruct (timestamps w local_time); [|eauto].
    by apply IH.
Qed.

(** X25.  A snapshot file that [json.load] reads but that has not the
    shape the script writes.  The loop of [are_mods_outdated] is outside
    the [try]: when the value is no object ([[]], [null], a number, a
    string), [json_data.keys()] raises at the first fresh record, so the
    detector returns [false] for the empty mapping and raises for every
    other one; when the value is an object that holds, under the id of a
    fresh record, a value that is no object, or an object whose
    [time_updated] has no order with an integer, the detector raises.
    Nothing is written in either case. *)
Theorem are_mods_outdated_misshapen (modInfo : gmap string ModInfo)
    (local_file : string) (w : World) (value : json_view) :
  local_file ∉ unreadable w →
  files w !! local_file = Some (Misshapen value) →
  (value = NoSnapshotDict →
   modInfo = ∅ ∧ are_mods_outdated modInfo local_file w = (Ok false, w)
   ∨ modInfo ≠ ∅ ∧ are_mods_outdated modInfo local_file w = (Raise OtherError, w))
  ∧ (∀ entries mod_id item,
       value = SnapshotDict entries →
       modInfo !! mod_id = Some item →
       entries !! mod_id = Some NoEntryDict
       ∨ entries !! mod_id = Some (EntryDict (Some Unordered)) →
       ∃ e, are_mods_outdated modInfo local_file w = (Raise e, w)).
Proof.
  intros Hr Hf.
  assert (json_load local_file w = (Ok value, w)) as El.
  { unfold json_load. rewrite bool_decide_eq_false_2 by done. by rewrite Hf. }
  rewrite (are_mods_outdated_loaded _ _ _ _ El). split.
  - intros ->. destruct (map_to_list modInfo) as [|[i x] l] eqn:E.
    + left. by apply map_to_list_empty_iff in E.
    + right. split; [|done]. intros ->. by rewrite map_to_list_empty in E.
  - intros entries mod_id item -> Hi Hbad.
    destruct (collect_outdated_misshapen w entries (map_to_list modInfo) [])
      as (e & ->); [|eauto].
    exists mod_id, item. split; [by apply elem_of_map_to_list | done].
Qed.

(** X9.  Without drift nothing happens: when the snapshot cannot be read,
    or records every fresh id with a time that is not below the fresh one,
    [check_mods_and_handle] sends no console command and touches no file,
    in either mode. *)
Theorem check_mods_and_handle_no_drift (modInfo : gmap string ModInfo)
    (test_mode : bool) (w : World) :
  snapshot_unreadable w LOCAL_MODINFO_FILE
  ∨ (∃ json_data,
       (LOCAL_MODINFO_FILE ∉ unreadable w)
       ∧ files w !! LOCAL_MODINFO_FILE = Some (Json json_data)
       ∧ ∀ mod_id item, modInfo !! mod_id = Some item →
           ∃ entry, json_data !! mod_id = Some entry
                    ∧ time_updated item ≤ local_time_of entry) →
  check_mods_and_handle modInfo test_mode w = (Ok tt, w).
Proof.
  intros H.
  assert (are_mods_outdated modInfo LOCAL_MODINFO_FILE w = (Ok false, w)) as E.
  { destruct H as [H|(json_data & Hr & Hf & Hall)].
    - by apply are_mods_outdated_no_snapshot.
    - rewrite (are_mods_outdated_run _ _ _ _ Hr Hf).
      + destruct (is_nil _) eqn:En; [done|]. exfalso.
        apply outdated_ids_drift in En as (i & x & Hi & [Hn|(e & He & Hlt)]);
          destruct (Hall i x Hi) as (e' & He' & Hle); simplify_eq. lia.
      + apply formats_no_newer. intros i x e Hi He.
        destruct (Hall i x Hi) as (e' & He' & Hle). by simplify_eq. }
  unfold check_mods_and_handle, await. by rewrite (bind_run _ _ _ _ _ E).
Qed.

(** X10.  The watchdog never stops the server: whatever the fresh mapping,
    the mode and the world, the commands a run of [check_mods_and_handle]
    sends include neither [save] nor [quit]; and the run returns normally
    whenever the detector returns, the only exceptions that leave it being
    those of the detector. *)
Theorem check_mods_and_handle_never_stops (modInfo : gmap string ModInfo)
    (test_mode : bool) (w : World) :
  ∃ t, trace (snd (check_mods_and_handle modInfo test_mode w)) = trace w ++ t
       ∧ (RconCommand "save" ∉ t) ∧ (RconCommand "quit" ∉ t)
       ∧ (fst (check_mods_and_handle modInfo test_mode w) = Ok tt
          ∨ ∃ e, are_mods_outdated modInfo LOCAL_MODINFO_FILE w = (Raise e, w)
                 ∧ check_mods_and_handle modInfo test_mode w = (Raise e, w)).
Proof.
  unfold check_mods_and_handle, await.
  destruct (are_mods_outdated_cases modInfo LOCAL_MODINFO_FILE w)
    as [E|[(e & E)|[(_ & _ & E)|(_ & _ & E)]]].
  - rewrite (bind_run _ _ _ _ _ E).
    exists []. rewrite app_nil_r. repeat split; try apply not_elem_of_nil.
    by left.
  - rewrite (bind_raise _ _ _ _ _ E).
    exists []. rewrite app_nil_r. repeat split; try apply not_elem_of_nil.
    right. eauto.
  - rewrite (bind_run _ _ _ _ _ E).
    match goal with |- context [warn_and_restart _ ?w1] =>
      destruct (warn_and_restart_never_stops test_mode w1) as (t & Et & _ & Hs & Hq)
    end.
    exists ([FileOpenW LOCAL_MODINFO_FILE; FileDump LOCAL_MODINFO_FILE] ++ t).
    rewrite Et. simpl. split; [by rewrite <- app_assoc|].
    repeat split; [| |by left];
      intros [[=]|[[=]|?]%elem_of_cons]%elem_of_cons; done.
  - rewrite (bind_run _ _ _ _ _ E).
    destruct (warn_and_restart_never_stops test_mode w) as (t & Et & _ & Hs & Hq).
    exists t. rewrite Et. repeat split; try done. by left.
Qed.

(** X11.  The first run.  [main] writes the snapshot for the fresh mapping
    and then checks that same mapping against it: when the snapshot file
    can be written and read, the check finds no drift, so a first run never
    warns anybody; it leaves the fresh snapshot and has sent nothing to the
    console. *)
Theorem first_run_never_restarts (modInfo : gmap string ModInfo)
    (test_mode : bool) (w : World) :
  LOCAL_MODINFO_FILE ∉ unwritable w →
  LOCAL_MODINFO_FILE ∉ unreadable w →
  (write_modInfo_timeUpdated_file modInfo LOCAL_MODINFO_FILE ;;;
   check_mods_and_handle modInfo test_mode) w
  = (Ok tt,
     rewritten w LOCAL_MODINFO_FILE modInfo
       [FileOpenW LOCAL_MODINFO_FILE; FileDump LOCAL_MODINFO_FILE]).
Proof.
  intros Hw Hr.
  rewrite (bind_run _ _ _ _ _ (write_run _ _ _ Hw)).
  unfold check_mods_and_handle, await.
  rewrite (bind_run _ _ _ false
             (rewritten w LOCAL_MODINFO_FILE modInfo
                [FileOpenW LOCAL_MODINFO_FILE; FileDump LOCAL_MODINFO_FILE]));
    [reflexivity|].
  erewrite are_mods_outdated_run;
    [| exact Hr | apply lookup_insert_eq | apply formats_after_write].
  by rewrite no_drift_after_write.
Qed.

(** ** Further properties of the fetch *)

(** A request of the trace ended with an exception that is no
    [requests.RequestException]. *)
Definition unexpected (t : list event) : Prop :=
  ∃ ids, HttpGet ids Unexpected ∈ t.

(** The batches the requests of a trace asked for, in order. *)
Definition requested (t : list event) : list (list string) :=
  flat_map (λ e, match e with HttpGet ids _ => [ids] | _ => [] end) t.

Lemma requested_app t1 t2 : requested (t1 ++ t2) = requested t1 ++ requested t2.
Proof. apply flat_map_app. Qed.

Lemma unexpected_app t1 t2 : unexpected (t1 ++ t2) ↔ unexpected t1 ∨ unexpected t2.
Proof.
  unfold unexpected. split.
  - intros (ids & [H|H]%elem_of_app); eauto.
  - intros [(ids & H)|(ids & H)]; exists ids; apply elem_of_app; eauto.
Qed.

(** The retry loop of a batch asks for that batch only, at most once per
    attempt, and raises exactly when a request ends unexpectedly. *)
Lemma attempts_shape batch : ∀ todo w,
  ∃ t, snd (attempts batch todo w) = set_trace w (trace w ++ t)
       ∧ Forall (λ ids, ids = batch) (requested t)
       ∧ (length (requested t) ≤ length todo)%nat
       ∧ (unexpected t ↔ ∃ e, fst (attempts batch todo w) = Raise e).
Proof.
  induction todo as [|attempt rest IH]; intros w.
  - exists []. simpl. rewrite set_trace_nil. repeat split; try done.
    + intros (ids & H). by apply elem_of_nil in H.
    + by intros (e & H).
  - destruct (steam w (http_calls (trace w)) batch) as [| | |data|] eqn:E.
    1-3: (rewrite attempts_retry by (by rewrite E); rewrite E;
          match goal with |- context [attempts _ _ ?w1] =>
            destruct (IH w1) as (t & Et & Ft & Lt & Ut) end;
          eexists (_ :: _ :: t);
          (split; [rewrite Et; simpl; rewrite <- app_assoc; reflexivity|]);
          (split; [by constructor|]); (split; [simpl in *; lia|]);
          rewrite <- Ut; unfold unexpected; split;
          [ intros (ids & [[=]|[[=]|?]%elem_of_cons]%elem_of_cons); eauto
          | intros (ids & ?); exists ids; by do 2 right ]).
    + rewrite (attempts_good _ _ _ _ _ E).
      exists [HttpGet batch (Good data)]. simpl. repeat split; try done.
      * by repeat constructor.
      * lia.
      * intros (ids & [[=]|H]%elem_of_cons). by apply elem_of_nil in H.
      * by intros (e & H).
    + exists [HttpGet batch Unexpected].
      simpl. unfold bind, requests_get. rewrite E. simpl. repeat split.
      * by repeat constructor.
      * lia.
      * eauto.
      * intros _. exists batch. by left.
Qed.

(** The loop over the batches: it asks for batches of its list only, at
    most five times each; it raises exactly when a request ends
    unexpectedly, and otherwise returns the results it had with the detail
    objects of the good replies stored on top. *)
Lemma fetch_batches_shape : ∀ batches results w,
  ∃ t, snd (fetch_batches batches results w) = set_trace w (trace w ++ t)
       ∧ Forall (λ ids, ids ∈ batches) (requested t)
       ∧ (length (requested t) ≤ 5 * length batches)%nat
       ∧ match fst (fetch_batches batches results w) with
         | Ok results' =>
             ¬ unexpected t ∧ results' = foldl store_details results (returned t)
         | Raise _ => unexpected t
         end.
Proof.
  induction batches as [|batch rest IH]; intros results w.
  - exists []. simpl. rewrite set_trace_nil. repeat split; try done.
    intros (ids & H). by apply elem_of_nil in H.
  - rewrite fetch_batches_cons.
    destruct (attempts_shape batch (map Z.of_nat (seq 0 5)) w) as (t1 & E1 & F1 & L1 & U1).
    destruct (attempts_trace batch (map Z.of_nat (seq 0 5)) w) as (t1' & E1' & R1 & _).
    assert (t1' = t1) as ->.
    { rewrite E1 in E1'. apply (f_equal trace) in E1'. simpl in E1'.
      by apply app_inv_head in E1'. }
    rewrite length_map, length_seq in L1.
    assert (Forall (λ ids, ids ∈ batch :: rest) (requested t1)) as F1'
      by (eapply Forall_impl; [exact F1|]; intros ? ->; by left).
    destruct (attempts batch (map Z.of_nat (seq 0 5)) w) as [[[data|]|e] w1] eqn:Ea;
      cbn [fst snd] in E1, R1, U1; subst w1;
      rewrite ?(bind_run _ _ _ _ _ Ea), ?(bind_raise _ _ _ _ _ Ea); cbv beta iota.
    + destruct (IH (foldl store_details results data)
                   (set_trace w ((trace w ++ t1) ++ [Sleep (1 # 2)])))
        as (t2 & E2 & F2 & L2 & M2).
      exists (t1 ++ Sleep (1 # 2) :: t2).
      rewrite !(bind_run (sleep (1 # 2)) _ (set_trace w (trace w ++ t1)) tt
                  (set_trace w ((trace w ++ t1) ++ [Sleep (1 # 2)])) eq_refl).
      rewrite E2. simpl trace. rewrite set_trace_set_trace.
      split; [by rewrite <- !app_assoc|].
      rewrite requested_app, returned_app, length_app, foldl_app, R1.
      change (requested (Sleep (1 # 2) :: t2)) with (requested t2).
      change (returned (Sleep (1 # 2) :: t2)) with (returned t2).
      split; [apply Forall_app; split; [done|];
              eapply Forall_impl; [exact F2|]; intros ??; by right|].
      split; [simpl length; lia|].
      destruct (fst (fetch_batches rest _ _)); cbv beta iota.
      * destruct M2 as [N2 ->]. split; [|done].
        intros [H|(ids & [[=]|H]%elem_of_cons)]%unexpected_app.
        -- apply U1 in H as (e & He). discriminate He.
        -- apply N2. by exists ids.
      * destruct M2 as (ids & H). exists ids. apply elem_of_app. right. by right.
    + destruct (IH results (set_trace w (trace w ++ t1)))
        as (t2 & E2 & F2 & L2 & M2).
      exists (t1 ++ t2). rewrite E2. simpl trace. rewrite set_trace_set_trace.
      split; [by rewrite <- !app_assoc|].
      rewrite requested_app, returned_app, length_app, foldl_app, R1.
      split; [apply Forall_app; split; [done|];
              eapply Forall_impl; [exact F2|]; intros ??; by right|].
      split; [simpl length; lia|].
      destruct (fst (fetch_batches rest _ _)); cbv beta iota.
      * destruct M2 as [N2 ->]. split; [|done].
        intros [H|H]%unexpected_app; [|done].
        apply U1 in H as (e & He). discriminate He.
      * apply unexpected_app. by right.
    + exists t1. simpl. split; [done|]. split; [done|]. split; [simpl; lia|].
      apply U1. eauto.
Qed.

(** X12.  [fetch_workshop_details] never raises, and it asks for at most
    five requests per batch.  Its [except] is around the whole loop: when
    a request of any batch ends with an exception that is no
    [requests.RequestException], the call returns the empty mapping, and
    what the batches before had returned is lost; otherwise it returns the
    detail objects of all good replies. *)
Theorem fetch_workshop_details_all_or_nothing (mod_ids : list string)
    (batch_size : Z) (w : World) :
  ∃ results t,
    fetch_workshop_details mod_ids batch_size w
    = (Ok results, set_trace w (trace w ++ t))
    ∧ (unexpected t → results = ∅)
    ∧ (¬ unexpected t → results = foldl store_details ∅ (returned t))
    ∧ (0 < batch_size →
       (length (requested t)
        ≤ 5 * length (chunks (Z.to_nat batch_size) mod_ids))%nat).
Proof.
  unfold fetch_workshop_details. destruct mod_ids as [|x l].
  { exists ∅, []. simpl. unfold ret. rewrite set_trace_nil.
    repeat split; try done; try (intros _; simpl; lia). }
  change (is_nil (x :: l)) with false. cbv iota. unfold try_except, slices.
  destruct (batch_size =? 0) eqn:E0.
  { exists ∅, []. simpl. unfold ret. rewrite set_trace_nil.
    repeat split; try done; try (intros _; simpl; lia). }
  destruct (batch_size <? 0) eqn:E1.
  { rewrite bind_ret_l. exists ∅, []. simpl. unfold ret. rewrite set_trace_nil.
    repeat split; try done; try (intros _; simpl; lia). }
  rewrite bind_ret_l.
  destruct (fetch_batches_shape (chunks (Z.to_nat batch_size) (x :: l)) ∅ w)
    as (t & E & F & L & M).
  destruct (fetch_batches _ ∅ w) as [[results|e] w1]; simpl in E, M; subst w1.
  - destruct M as [N ->]. eexists _, t. repeat split; try done.
  - exists ∅, t. unfold ret. repeat split; try done.
Qed.

Lemma fetch_batches_all_fail : ∀ batches results w,
  (∀ k ids, retryable (steam w k ids) = true) →
  ∃ t, fetch_batches batches results w
       = (Ok results, set_trace w (trace w ++ t))
       ∧ http_calls t = (5 * length batches)%nat
       ∧ returned t = [].
Proof.
  induction batches as [|batch rest IH]; intros results w H.
  - exists []. simpl. unfold ret. by rewrite set_trace_nil.
  - rewrite fetch_batches_cons.
    set (failed := flat_map (failed_attempt w batch (http_calls (trace w))) (seq 0 5)).
    assert (returned failed = []) as Rf.
    { unfold failed, returned, failed_attempt. simpl.
      by repeat (match goal with |- context [steam w ?k batch] =>
                   let E := fresh in
                   pose proof (H k batch) as E;
                   destruct (steam w k batch); try discriminate E; clear E
                 end; simpl). }
    rewrite (bind_run _ _ _ None (set_trace w (trace w ++ failed))).
    + destruct (IH results (set_trace w (trace w ++ failed)) H) as (t & E & C & R).
      exists (failed ++ t). rewrite E. simpl trace. rewrite set_trace_set_trace.
      split; [by rewrite <- app_assoc|].
      rewrite http_calls_app, C, returned_app, R, Rf.
      unfold failed. rewrite http_calls_failed_attempts.
      split; [simpl length; lia | done].
    + rewrite <- (app_nil_r (map Z.of_nat (seq 0 5))).
      by rewrite attempts_retries.
Qed.

Lemma create_loop_all_fail : ∀ batches infos w,
  Forall (λ b, b ≠ []) batches →
  (∀ k ids, retryable (steam w k ids) = true) →
  ∃ t, create_loop batches infos w = (Ok infos, set_trace w (trace w ++ t))
       ∧ http_calls t = (5 * length (batches ≫= chunks 100))%nat
       ∧ returned t = [].
Proof.
  induction batches as [|batch rest IH]; intros infos w Hne H.
  - exists []. simpl. unfold ret. by rewrite set_trace_nil.
  - apply Forall_cons in Hne as [Hb Hne].
    destruct (fetch_batches_all_fail (chunks 100 batch) ∅ w H) as (t1 & E1 & C1 & R1).
    assert (fetch_workshop_details batch 100 w = (Ok ∅, set_trace w (trace w ++ t1)))
      as F1.
    { unfold fetch_workshop_details. destruct batch as [|x l]; [done|].
      change (is_nil (x :: l)) with false. cbv iota.
      unfold try_except. rewrite slices_positive, bind_ret_l by lia.
      change (Z.to_nat 100) with 100%nat. by rewrite E1. }
    simpl create_loop. rewrite (bind_run _ _ _ _ _ F1).
    rewrite bool_decide_eq_true_2 by done.
    destruct (IH infos (set_trace w (trace w ++ t1)) Hne H) as (t2 & E2 & C2 & R2).
    exists (t1 ++ t2). rewrite E2. simpl trace. rewrite set_trace_set_trace.
    split; [by rewrite <- app_assoc|].
    rewrite http_calls_app, returned_app, C1, C2, R1, R2.
    change ((batch :: rest) ≫= chunks 100)
      with (chunks 100 batch ++ (rest ≫= chunks 100)).
    rewrite length_app. split; [lia | done].
Qed.

Lemma check_mods_and_handle_nothing_fetched test_mode w :
  check_mods_and_handle ∅ test_mode w = (Ok tt, w).
Proof.
  assert (are_mods_outdated ∅ LOCAL_MODINFO_FILE w = (Ok false, w)) as E.
  { destruct (json_load_cases LOCAL_MODINFO_FILE w)
      as [(e & He)|(Hr & json_data & El)].
    - unfold are_mods_outdated, try_except.
      unfold bind at 1. by rewrite (bind_raise _ _ _ _ _ He).
    - rewrite (are_mods_outdated_loaded _ _ _ _ El).
      by rewrite map_to_list_empty. }
  unfold check_mods_and_handle, await. by rewrite (bind_run _ _ _ _ _ E).
Qed.

(** X13.  An outage of the Steam API never restarts the server.  When
    every request fails by the network, the rate limit or a bad response,
    [create_modInfo] gives up each batch after five requests and returns
    the empty mapping; and on the empty mapping [check_mods_and_handle]
    finds no drift, whatever the snapshot: it sends nothing to the console
    and leaves the snapshot as it is. *)
Theorem steam_outage_never_restarts (workshop_ids : list string)
    (test_mode : bool) (w : World) :
  0 < BATCH_SIZE →
  (∀ k ids, retryable (steam w k ids) = true) →
  ∃ t,
    create_modInfo workshop_ids w = (Ok ∅, set_trace w (trace w ++ t))
    ∧ http_calls t = (5 * length (request_batches workshop_ids))%nat
    ∧ returned t = []
    ∧ check_mods_and_handle ∅ test_mode (set_trace w (trace w ++ t))
      = (Ok tt, set_trace w (trace w ++ t)).
Proof.
  intros Hsize H.
  assert (∃ t, create_modInfo workshop_ids w = (Ok ∅, set_trace w (trace w ++ t))
               ∧ http_calls t = (5 * length (request_batches workshop_ids))%nat
               ∧ returned t = []) as (t & E & C & R).
  { unfold create_modInfo. destruct workshop_ids as [|x l].
    - exists []. simpl. unfold ret. by rewrite set_trace_nil.
    - change (is_nil (x :: l)) with false. cbv iota.
      rewrite slices_positive, bind_ret_l by lia.
      apply create_loop_all_fail; [|done].
      eapply Forall_impl; [apply chunks_sizes; lia|].
      intros b [Hb _] ->. simpl in Hb. lia. }
  exists t. repeat split; try done.
  apply check_mods_and_handle_nothing_fetched.
Qed.

(** X14.  A batch size that is not positive fetches nothing.  With
    [BATCH_SIZE = 0] and some id to fetch, the [range] of [create_modInfo]
    raises, outside any [try]: the exception leaves the function.  With a
    negative [BATCH_SIZE] the range is empty: the result is the empty
    mapping.  No request is made in either case. *)
Theorem create_modInfo_bad_batch_size (workshop_ids : list string) (w : World) :
  BATCH_SIZE ≤ 0 →
  workshop_ids ≠ [] →
  create_modInfo workshop_ids w
  = (if BATCH_SIZE =? 0 then Raise OtherError else Ok ∅, w).
Proof.
  intros Hsize Hne. unfold create_modInfo, slices.
  destruct workshop_ids as [|x l]; [done|].
  change (is_nil (x :: l)) with false. cbv iota.
  destruct (BATCH_SIZE =? 0) eqn:E0; [reflexivity|].
  destruct (BATCH_SIZE <? 0) eqn:E1; [reflexivity|]. lia.
Qed.

End Watchdog.

(** ** Concrete runs *)

Module Examples.

Definition newline : string := PyStr.chr 10.

(** Responses of the console to [players]. *)
Definition roster_nobody : string := "Players connected (0): " +:+ newline.

Definition roster_bob : string :=
  "Players connected (1): " +:+ newline +:+ "-bob" +:+ newline.

Definition nothing_fetched : nat → list string → http_outcome :=
  λ _ _, Good [].

(** The seconds since the epoch that fall in the years 1 to 9999 of UTC:
    the dates a [datetime] can hold. *)
Definition datetime_range (t : number) : bool :=
  match t with
  | Int n => (-62135596800 <=? n) && (n <=? 253402300799)
  | Float x =>
      Qle_bool (inject_Z (-62135596800)) x && Qle_bool x (inject_Z 253402300799)
  | NaN => false
  | Infinity _ => false
  end.

(** A server nobody is connected to. *)
Definition empty_server : World :=
  mkWorld ∅ ∅ ∅ (λ _ _, Some roster_nobody) nothing_fetched datetime_range [].

(** A server bob stays connected to. *)
Definition busy_server : World :=
  mkWorld ∅ ∅ ∅ (λ _ _, Some roster_bob) nothing_fetched datetime_range [].

(** A server bob leaves during the second minute of the countdown: the
    commands 0 to 3 of the run still see him. *)
Definition leaving_server : World :=
  mkWorld ∅ ∅ ∅
    (λ k _, if (k <? 4)%nat then Some roster_bob else Some roster_nobody)
    nothing_fetched datetime_range [].

(** The example of the specification: the snapshot has the mod 111 at time
    100, the fresh mapping has it at time 150. *)
Definition old_snapshot : gmap string SnapEntry :=
  {[ "111" := mkSnapEntry (Some "Mod") (Some 100) ]}.

Definition fresh : gmap string ModInfo :=
  {[ "111" := mkModInfo (Some "Mod") [] 0 150 0 [] ]}.

Definition with_snapshot : World :=
  mkWorld {[ LOCAL_MODINFO_FILE := Json old_snapshot ]} ∅ ∅
    (λ _ _, Some roster_nobody) nothing_fetched datetime_range [].

(** The snapshot of the example, in a file that cannot be written. *)
Definition readonly_snapshot : World :=
  mkWorld {[ LOCAL_MODINFO_FILE := Json old_snapshot ]} ∅ {[ LOCAL_MODINFO_FILE ]}
    (λ _ _, Some roster_bob) nothing_fetched datetime_range [].

(** A fresh mapping that has the mod 111 at a time given in milliseconds:
    as seconds it lies far beyond the year 9999. *)
Definition far_future : gmap string ModInfo :=
  {[ "111" := mkModInfo (Some "Mod") [] 0 1700000000000 0 [] ]}.

(** A world without snapshot file. *)
Definition without_snapshot : World := empty_server.

(** The Steam API answers the first five requests with a network failure,
    and every later one with the details of the ids asked for. *)
Definition details_of (time : Z) (mod_id : string) : Details :=
  mkDetails mod_id (Some ("Mod " +:+ mod_id)) None None (Some time) None None.

Definition failing_steam : World :=
  mkWorld ∅ ∅ ∅ (λ _ _, None)
    (λ k ids, if (k <? 5)%nat then NetworkFailure
              else Good (map (details_of (Z.of_nat k)) ids))
    datetime_range [].

(** The Steam API limits the rate of the first two requests, fails on the
    third, and answers every later one. *)
Definition slow_steam : World :=
  mkWorld ∅ ∅ ∅ (λ _ _, None)
    (λ k ids, if (k <? 2)%nat then RateLimited
              else if (k =? 2)%nat then NetworkFailure
              else Good (map (details_of (Z.of_nat k)) ids))
    datetime_range [].

Lemma roster_nobody_empty : parse_players roster_nobody = [].
Proof. reflexivity. Qed.

Lemma roster_bob_present : parse_players roster_bob ≠ [].
Proof. discriminate. Qed.

Lemma fresh_drifts : drift fresh old_snapshot.
Proof.
  exists "111", (mkModInfo (Some "Mod") [] 0 150 0 []).
  split; [apply lookup_singleton_eq|]. right.
  exists (mkSnapEntry (Some "Mod") (Some 100)).
  split; [apply lookup_singleton_eq | reflexivity].
Defined.

Lemma fresh_formats w :
  timestamps w = datetime_range → formats w fresh old_snapshot.
Proof.
  intros E i x e Hi He _. unfold fresh, old_snapshot in *.
  apply lookup_singleton_Some in Hi as [_ <-].
  apply lookup_singleton_Some in He as [_ <-].
  rewrite E. split; reflexivity.
Defined.

Lemma far_future_unformattable w :
  timestamps w = datetime_range → unformattable w far_future old_snapshot.
Proof.
  intros E. eexists "111", _, _.
  split; [apply lookup_singleton_eq|]. split; [apply lookup_singleton_eq|].
  split; [reflexivity|]. left. rewrite E. reflexivity.
Defined.

Lemma with_snapshot_readable :
  LOCAL_MODINFO_FILE ∉ unreadable with_snapshot.
Proof. apply not_elem_of_empty. Defined.

Lemma with_snapshot_writable :
  LOCAL_MODINFO_FILE ∉ unwritable with_snapshot.
Proof. apply not_elem_of_empty. Defined.

Lemma with_snapshot_holds :
  files with_snapshot !! LOCAL_MODINFO_FILE = Some (Json old_snapshot).
Proof. apply lookup_singleton_eq. Defined.

End Examples.

Import Examples.

(** On the example of the specification drift is detected. *)
Lemma fresh_detected :
  fst (are_mods_outdated fresh LOCAL_MODINFO_FILE with_snapshot) = Ok true.
Proof.
  by rewrite (are_mods_outdated_drift_run fresh LOCAL_MODINFO_FILE with_snapshot
                old_snapshot with_snapshot_readable with_snapshot_holds
                with_snapshot_writable (fresh_formats with_snapshot eq_refl)
                fresh_drifts).
Qed.

(** The detector on the example of the specification, and on a fresh
    mapping whose time for the same mod is given in milliseconds: there is
    drift, and the detector raises. *)
Lemma are_mods_outdated_returns_or_raises_witness :
  (LOCAL_MODINFO_FILE ∉ unreadable with_snapshot)
  ∧ files with_snapshot !! LOCAL_MODINFO_FILE = Some (Json old_snapshot)
  ∧ formats with_snapshot fresh old_snapshot
  ∧ (∃ outdated w',
       are_mods_outdated fresh LOCAL_MODINFO_FILE with_snapshot = (Ok outdated, w')
       ∧ (outdated = true
          ↔ ∃ mod_id item,
              fresh !! mod_id = Some item
              ∧ (old_snapshot !! mod_id = None
                 ∨ ∃ entry, old_snapshot !! mod_id = Some entry
                            ∧ local_time_of entry < time_updated item))
       ∧ ((∀ mod_id item,
             fresh !! mod_id = Some item →
             ∃ entry, old_snapshot !! mod_id = Some entry
                      ∧ snap_time_updated entry = Some (time_updated item)) →
          outdated = false))
  ∧ unformattable with_snapshot far_future old_snapshot
  ∧ drift far_future old_snapshot
  ∧ are_mods_outdated far_future LOCAL_MODINFO_FILE with_snapshot
    = (Raise OtherError, with_snapshot).
Proof.
  split; [exact with_snapshot_readable|].
  split; [exact with_snapshot_holds|].
  split; [exact (fresh_formats with_snapshot eq_refl)|].
  split.
  { exact (proj1 (are_mods_outdated_returns_or_raises fresh LOCAL_MODINFO_FILE
                    with_snapshot old_snapshot with_snapshot_readable
                    with_snapshot_holds)
             (fresh_formats with_snapshot eq_refl)). }
  split; [exact (far_future_unformattable with_snapshot eq_refl)|].
  exact (proj2 (are_mods_outdated_returns_or_raises far_future LOCAL_MODINFO_FILE
                  with_snapshot old_snapshot with_snapshot_readable
                  with_snapshot_holds)
           (far_future_unformattable with_snapshot eq_refl)).
Defined.

(** The restart of a server nobody is connected to, outside test mode:
    the roster query is all that is sent. *)
Lemma warn_and_restart_empty_roster_witness :
  roster_empty empty_server (rcon_calls (trace empty_server))
  ∧ warn_and_restart "127.0.0.1" 27015 "secret" 5 5 false empty_server
    = (Ok tt, set_trace empty_server [RconCommand "players"]).
Proof.
  assert (roster_empty empty_server (rcon_calls (trace empty_server))) as H
    by (exists roster_nobody; split; reflexivity).
  split; [exact H|].
  exact (warn_and_restart_empty_roster "127.0.0.1" 27015 "secret" 5 5
           empty_server H).
Defined.

(** The restart of a server bob leaves during the second minute, outside
    test mode: two warnings, and nothing after the roster query that finds
    the server empty. *)
Lemma warn_and_restart_players_leave_witness :
  console leaving_server 0 "players" = Some roster_bob
  ∧ parse_players roster_bob ≠ []
  ∧ roster_present leaving_server 2
  ∧ roster_empty leaving_server 4
  ∧ warn_and_restart "127.0.0.1" 27015 "secret" 5 5 false leaving_server
    = (Ok tt,
       set_trace leaving_server
         [ RconCommand "players";
           RconCommand (servermsg (WARNING_MESSAGE 5) false);
           Sleep (inject_Z 60);
           RconCommand "players";
           RconCommand (servermsg (WARNING_MESSAGE 4) false);
           Sleep (inject_Z 60);
           RconCommand "players" ]).
Proof.
  assert (roster_present leaving_server 2) as H2
    by (exists roster_bob; split; [reflexivity | exact roster_bob_present]).
  assert (roster_empty leaving_server 4) as H4
    by (exists roster_nobody; split; reflexivity).
  split; [reflexivity|]. split; [exact roster_bob_present|].
  split; [exact H2|]. split; [exact H4|].
  refine (warn_and_restart_players_leave "127.0.0.1" 27015 "secret" 5 5 false 2
            leaving_server roster_bob eq_refl (or_intror roster_bob_present)
            _ _ H4).
  - simpl. lia.
  - intros j Hj. assert (j = 1%nat) as -> by lia. exact H2.
Defined.

(** The restart of a server bob stays on, with a countdown of two
    minutes. *)
Lemma warn_and_restart_full_countdown_witness :
  console busy_server 0 "players" = Some roster_bob
  ∧ parse_players roster_bob ≠ []
  ∧ (∀ j, roster_present busy_server j)
  ∧ ∃ rest,
      warn_and_restart "127.0.0.1" 27015 "secret" 5 2 false busy_server
      = (Ok tt,
         set_trace busy_server
           (RconCommand "players"
              :: RconCommand
                   ("servermsg " +:+ PyStr.dquote
                      +:+ "[SERVER] Restart in 2 minutes due to a mod update!"
                      +:+ PyStr.dquote)
              :: Sleep (inject_Z 60)
              :: RconCommand "players"
              :: RconCommand
                   ("servermsg " +:+ PyStr.dquote
                      +:+ "[SERVER] Restart in 1 minutes due to a mod update!"
                      +:+ PyStr.dquote)
              :: Sleep (inject_Z 60)
              :: RconCommand "players"
              :: RconCommand
                   ("servermsg " +:+ PyStr.dquote
                      +:+ "[SERVER] Server is restarting now due to a mod update! Please disconnect within 10sec or get kicked!"
                      +:+ PyStr.dquote)
              :: rest)).
Proof.
  assert (∀ j, roster_present busy_server j) as H
    by (intros j; exists roster_bob; split; [reflexivity | exact roster_bob_present]).
  split; [reflexivity|]. split; [exact roster_bob_present|]. split; [exact H|].
  destruct (warn_and_restart_full_countdown "127.0.0.1" 27015 "secret" 5 2 false
              busy_server roster_bob eq_refl (or_intror roster_bob_present)
              ltac:(lia) (λ j _, H _)) as (rest & E & _).
  exists rest. exact E.
Defined.

(** The detector without snapshot file. *)
Lemma are_mods_outdated_unreadable_witness :
  snapshot_unreadable without_snapshot LOCAL_MODINFO_FILE
  ∧ are_mods_outdated fresh LOCAL_MODINFO_FILE without_snapshot
    = (Ok false, without_snapshot).
Proof.
  assert (snapshot_unreadable without_snapshot LOCAL_MODINFO_FILE) as H
    by (right; left; apply lookup_empty).
  split; [exact H|].
  exact (are_mods_outdated_unreadable fresh LOCAL_MODINFO_FILE without_snapshot H).
Defined.





(** The delays of the script against those of the specification: when
    the five attempts of a batch fail, the script waits 1, 2, 4, 8 and 16
    seconds; a base of 2 seconds that doubles under a cap of 30 seconds
    would give 2, 4, 8, 16 and 30 seconds. *)
Lemma first_delay_is_one_second :
  delays (trace (snd (fetch_workshop_details ["111"] 100 failing_steam)))
  = map inject_Z [1; 2; 4; 8; 16]
  ∧ map (λ attempt, specified_delay attempt 30) [0; 1; 2; 3; 4]
    = [2; 4; 8; 16; 30]
  ∧ backoff 0 30 = 1
  ∧ specified_delay 0 30 = 2.
Proof. repeat split. Qed.

(** A batch whose five attempts fail is given up; the loop goes on with
    the next batch and the results it had. *)
Lemma retry_schedule_witness :
  (∀ j, (j < 5)%nat →
        retryable (steam failing_steam (http_calls (trace failing_steam) + j) ["111"])
        = true)
  ∧ fetch_batches [["111"]; ["222"]] ∅ failing_steam
    = fetch_batches [["222"]] ∅
        (set_trace failing_steam
           [ HttpGet ["111"] NetworkFailure; Sleep (inject_Z 1);
             HttpGet ["111"] NetworkFailure; Sleep (inject_Z 2);
             HttpGet ["111"] NetworkFailure; Sleep (inject_Z 4);
             HttpGet ["111"] NetworkFailure; Sleep (inject_Z 8);
             HttpGet ["111"] NetworkFailure; Sleep (inject_Z 16) ]).
Proof.
  assert (∀ j, (j < 5)%nat →
            retryable (steam failing_steam (http_calls (trace failing_steam) + j) ["111"])
            = true) as H.
  { intros j Hj. simpl. destruct (Nat.ltb_spec j 5); [reflexivity | lia]. }
  split; [exact H|].
  destruct (retry_schedule ["111"] [["222"]] ∅ failing_steam 5 (le_n 5) H)
    as (E & _).
  exact (E eq_refl).
Defined.

(** Five ids fetched two at a time from an API that answers the first
    batch at its fourth attempt only. *)
Lemma create_modInfo_keys_witness :
  0 < 2
  ∧ every_batch_succeeds (request_batches 2 ["1"; "2"; "3"; "4"; "5"]) slow_steam
    = true
  ∧ request_batches 2 ["1"; "2"; "3"; "4"; "5"] = [["1"; "2"]; ["3"; "4"]; ["5"]]
  ∧ ∃ infos t,
      create_modInfo 2 ["1"; "2"; "3"; "4"; "5"] slow_steam
      = (Ok infos, set_trace slow_steam (trace slow_steam ++ t))
      ∧ answered t = [["1"; "2"]; ["3"; "4"]; ["5"]]
      ∧ dom infos = list_to_set (publishedfileid <$> returned t).
Proof.
  split; [reflexivity|]. split; [reflexivity|]. split; [reflexivity|].
  destruct (create_modInfo_keys 2 ["1"; "2"; "3"; "4"; "5"] slow_steam
              eq_refl eq_refl) as (infos & t & E & _ & _ & A & D & _).
  exists infos, t. split; [exact E|]. split; [exact A | exact D].
Defined.

(** ** The roster the console reports *)

(** Every character of [s] satisfies [p]. *)
Fixpoint all_chars (p : ascii → bool) (s : string) : bool :=
  match s with
  | EmptyString => true
  | String c s' => p c && all_chars p s'
  end.

(** [s] holds no line boundary of [str.splitlines]. *)
Definition one_line (s : string) : bool :=
  all_chars (λ c, negb (PyStr.is_linebreak c)) s.

(** The lines of a response that lists [names]: a dash and the name, each
    ended by a line feed. *)
Fixpoint roster_text (names : list string) : string :=
  match names with
  | [] => EmptyString
  | player :: rest => "-" +:+ player +:+ Examples.newline +:+ roster_text rest
  end.

Lemma append_cons c s1 s2 : String c s1 +:+ s2 = String c (s1 +:+ s2).
Proof. reflexivity. Qed.

Lemma append_nil_l s : EmptyString +:+ s = s.
Proof. reflexivity. Qed.

Lemma append_nil_r s : s +:+ EmptyString = s.
Proof. induction s as [|c s IH]; [done|]. by rewrite append_cons, IH. Qed.

Lemma append_assoc s1 s2 s3 : (s1 +:+ s2) +:+ s3 = s1 +:+ (s2 +:+ s3).
Proof. induction s1 as [|c s1 IH]; [done|]. by rewrite !append_cons, IH. Qed.

Lemma snoc_append line c s : PyStr.snoc line c +:+ s = line +:+ String c s.
Proof. unfold PyStr.snoc. by rewrite append_assoc. Qed.

Lemma splitlines_go_lf s line :
  PyStr.splitlines_go (String "010"%char s) line
  = line :: PyStr.splitlines_go s EmptyString.
Proof. destruct s; reflexivity. Qed.

(** A piece without line boundary, ended by a line feed, is one line. *)
Lemma splitlines_go_line l : ∀ line rest,
  one_line l = true →
  PyStr.splitlines_go (l +:+ String "010"%char rest) line
  = (line +:+ l) :: PyStr.splitlines_go rest EmptyString.
Proof.
  induction l as [|c l IH]; intros line rest H.
  - by rewrite append_nil_l, append_nil_r, splitlines_go_lf.
  - simpl in H. apply andb_true_iff in H as [Hc Hl].
    apply negb_true_iff in Hc.
    rewrite append_cons. simpl PyStr.splitlines_go. rewrite Hc.
    by rewrite IH, snoc_append.
Qed.

Lemma rev_app_append s1 : ∀ s2, String.rev_app s1 s2 = String.rev s1 +:+ s2.
Proof.
  unfold String.rev. induction s1 as [|c s1 IH]; intros s2; [done|].
  simpl. rewrite IH, (IH (String c EmptyString)). by rewrite append_assoc.
Qed.

Lemma rev_cons c s : String.rev (String c s) = String.rev s +:+ String c EmptyString.
Proof. unfold String.rev at 1. simpl. apply rev_app_append. Qed.

Lemma append_not_nil s1 c s2 : s1 +:+ String c s2 ≠ EmptyString.
Proof. by destruct s1. Qed.

Lemma lstrip_not_nil s1 c s2 :
  PyStr.is_space c = false → PyStr.lstrip (s1 +:+ String c s2) ≠ EmptyString.
Proof.
  intros Hc. induction s1 as [|x s1 IH].
  - rewrite append_nil_l. simpl. by rewrite Hc.
  - rewrite append_cons. simpl. by destruct (PyStr.is_space x).
Qed.

(** A string that begins with a character that is no whitespace is not
    stripped to nothing. *)
Lemma strip_truthy c s :
  PyStr.is_space c = false → PyStr.truthy (PyStr.strip (String c s)) = true.
Proof.
  intros Hc. unfold PyStr.strip, PyStr.rstrip. simpl PyStr.lstrip. rewrite Hc.
  rewrite rev_cons.
  pose proof (lstrip_not_nil (String.rev s) c EmptyString Hc) as H.
  destruct (PyStr.lstrip _) as [|x t]; [done|].
  rewrite rev_cons. by destruct (String.rev t).
Qed.

Lemma collect_players_roster names : ∀ players,
  Forall (λ player, PyStr.strip player = player) names →
  collect_players (map (String "-"%char) names) players = players ++ names.
Proof.
  induction names as [|player rest IH]; intros players H.
  - by rewrite app_nil_r.
  - apply Forall_cons in H as [Hp Hrest].
    simpl map. simpl collect_players.
    rewrite strip_truthy by reflexivity.
    change (PyStr.startswith (String "-" player) "Players connected") with false.
    simpl andb. cbv iota. rewrite Hp, IH by done.
    by rewrite <- app_assoc.
Qed.

Lemma splitlines_go_roster names :
  Forall (λ player, one_line player = true) names →
  PyStr.splitlines_go (roster_text names) EmptyString
  = map (String "-"%char) names.
Proof.
  induction names as [|player rest IH]; intros H; [done|].
  apply Forall_cons in H as [Hp Hrest].
  simpl roster_text. unfold Examples.newline, PyStr.chr.
  change (ascii_of_nat 10) with "010"%char.
  change ("-" +:+ player +:+ String "010" EmptyString +:+ roster_text rest)
    with (String "-" player +:+ String "010" (roster_text rest)).
  rewrite splitlines_go_line by exact Hp.
  by rewrite IH.
Qed.

(** X15.  The roster parser on what the console sends, for strings of
    characters below 256: a header line that begins with [Players
    connected], then one line per player, a dash and the name.  For names
    that hold no line boundary of [splitlines] (NEL, U+0085, is one) and no
    whitespace of [strip] at either end (NEL and the no-break space,
    U+00A0, are whitespace), [parse_players] returns exactly the names, in
    the order of the response; with no name after the header, the empty
    roster. *)
Theorem parse_players_roster (header : string) (names : list string) :
  one_line header = true →
  PyStr.startswith header "Players connected" = true →
  Forall (λ player, one_line player = true ∧ PyStr.strip player = player) names →
  parse_players (header +:+ Examples.newline +:+ roster_text names) = names.
Proof.
  intros Hh Hs Hn. unfold parse_players, PyStr.splitlines.
  unfold Examples.newline, PyStr.chr. change (ascii_of_nat 10) with "010"%char.
  change (header +:+ String "010" EmptyString +:+ roster_text names)
    with (header +:+ (String "010" (roster_text names))).
  rewrite splitlines_go_line by done.
  rewrite splitlines_go_roster
    by (eapply Forall_impl; [exact Hn|]; by intros ? [? _]).
  rewrite append_nil_l. simpl collect_players. rewrite Hs, andb_false_r.
  rewrite collect_players_roster; [done|].
  eapply Forall_impl; [exact Hn|]. by intros ? [_ ?].
Qed.

(** ** The enabled mods of [server.ini] *)

(** [f.readlines()] of a text file, with the universal newlines of Python:
    a line ends at LF, CR or CR LF, and is returned with LF at its end; a
    last line without end is returned as it is. *)
Fixpoint readlines_go (s : string) (line : string) : list string :=
  match s with
  | EmptyString =>
      match line with EmptyString => [] | _ => [line] end
  | String c s' =>
      if (nat_of_ascii c =? 10)%nat then
        PyStr.snoc line "010"%char :: readlines_go s' EmptyString
      else if (nat_of_ascii c =? 13)%nat then
        PyStr.snoc line "010"%char ::
          match s' with
          | String c' s'' =>
              if (nat_of_ascii c' =? 10)%nat
              then readlines_go s'' EmptyString
              else readlines_go s' EmptyString
          | EmptyString => []
          end
      else readlines_go s' (PyStr.snoc line c)
  end.

Definition readlines (s : string) : list string := readlines_go s EmptyString.

(** [s.split(sep)] for a separator of one character: the pieces between
    the separators, empty pieces included. *)
Fixpoint split_go (sep : ascii) (s : string) (piece : string) : list string :=
  match s with
  | EmptyString => [piece]
  | String c s' =>
      if Ascii.eqb c sep then piece :: split_go sep s' EmptyString
      else split_go sep s' (PyStr.snoc piece c)
  end.

Definition str_split (sep : ascii) (s : string) : list string :=
  split_go sep s EmptyString.

(** [s[n:]] *)
Fixpoint str_drop (n : nat) (s : string) : string :=
  match n, s with
  | S n', String _ s' => str_drop n' s'
  | _, _ => s
  end.

(** The loop of [read_enabled_mods] over the lines of the file. *)
Fixpoint ini_loop (lines : list string)
    (enabled_mods enabled_workshop_ids : list string)
    : list string * list string :=
  match lines with
  | [] => (enabled_mods, enabled_workshop_ids)
  | line :: rest =>
      let line := PyStr.strip line in
      if PyStr.startswith line "Mods="
         && (String.length "Mods=" <? String.length line)%nat
      then ini_loop rest
             (str_split ";"%char (str_drop (String.length "Mods=") line))
             enabled_workshop_ids
      else if PyStr.startswith line "WorkshopItems="
              && (String.length "WorkshopItems=" <? String.length line)%nat
      then ini_loop rest enabled_mods
             (str_split ";"%char (str_drop (String.length "WorkshopItems=") line))
      else ini_loop rest enabled_mods enabled_workshop_ids
  end.

(** [read_enabled_mods(server_config)] on the content of the file, [None]
    when the file cannot be opened or decoded: the exception is caught
    before the loop has run, and both lists are returned empty. *)
Definition read_enabled_mods (content : option string)
    : list string * list string :=
  match content with
  | None => ([], [])
  | Some text => ini_loop (readlines text) [] []
  end.

(** [s] holds neither LF nor CR. *)
Definition text_line (s : string) : bool :=
  all_chars (λ c, negb ((nat_of_ascii c =? 10)%nat || (nat_of_ascii c =? 13)%nat)) s.

(** The text of a file with the lines [lines], each ended by LF. *)
Fixpoint unlines (lines : list string) : string :=
  match lines with
  | [] => EmptyString
  | line :: rest => line +:+ String "010"%char (unlines rest)
  end.

(** The stripped line [line] assigns one of the two lists. *)
Definition assigns (line : string) : bool :=
  (PyStr.startswith line "Mods="
   && (String.length "Mods=" <? String.length line)%nat)
  || (PyStr.startswith line "WorkshopItems="
      && (String.length "WorkshopItems=" <? String.length line)%nat).

(** A line of the file that assigns neither list. *)
Definition other_line (line : string) : Prop :=
  text_line line = true ∧ assigns (PyStr.strip line) = false.

(** [items] can be written as the value of a key: the items hold no
    semicolon and no line end, and their line, which is not empty, does not
    end in whitespace. *)
Definition key_value (items : list string) : Prop :=
  Forall (λ item, all_chars (λ c, negb (Ascii.eqb c ";"%char)) item = true) items
  ∧ text_line (String.concat ";" items) = true
  ∧ String.concat ";" items ≠ EmptyString
  ∧ PyStr.rstrip (String.concat ";" items) = String.concat ";" items.

Lemma readlines_go_line l : ∀ line rest,
  text_line l = true →
  readlines_go (l +:+ String "010"%char rest) line
  = (line +:+ l +:+ String "010"%char EmptyString) :: readlines_go rest EmptyString.
Proof.
  induction l as [|c l IH]; intros line rest H.
  - rewrite !append_nil_l. reflexivity.
  - simpl in H. apply andb_true_iff in H as [Hc Hl].
    apply negb_true_iff, orb_false_iff in Hc as [H10 H13].
    rewrite append_cons. simpl readlines_go. rewrite H10, H13.
    by rewrite IH, snoc_append.
Qed.

Lemma readlines_unlines lines :
  Forall (λ l, text_line l = true) lines →
  readlines (unlines lines) = map (λ l, l +:+ String "010"%char EmptyString) lines.
Proof.
  unfold readlines. induction lines as [|l rest IH]; intros H; [done|].
  apply Forall_cons in H as [Hl Hrest]. simpl unlines.
  rewrite readlines_go_line by done. by rewrite IH.
Qed.

Lemma rev_append s1 s2 : String.rev (s1 +:+ s2) = String.rev s2 +:+ String.rev s1.
Proof.
  induction s1 as [|c s1 IH].
  - by rewrite append_nil_l, append_nil_r.
  - by rewrite append_cons, !rev_cons, IH, append_assoc.
Qed.

Lemma rev_involutive s : String.rev (String.rev s) = s.
Proof.
  induction s as [|c s IH]; [done|]. by rewrite rev_cons, rev_append, IH.
Qed.

Lemma lstrip_append s1 s2 :
  PyStr.lstrip s1 ≠ EmptyString → PyStr.lstrip (s1 +:+ s2) = PyStr.lstrip s1 +:+ s2.
Proof.
  induction s1 as [|c s1 IH]; intros H; [done|].
  rewrite append_cons. simpl in *. destruct (PyStr.is_space c); [by apply IH | done].
Qed.

Lemma lstrip_spaces s1 c :
  PyStr.lstrip s1 = EmptyString → PyStr.is_space c = true →
  PyStr.lstrip (s1 +:+ String c EmptyString) = EmptyString.
Proof.
  intros H Hc. induction s1 as [|x s1 IH].
  - rewrite append_nil_l. simpl. by rewrite Hc.
  - rewrite append_cons. simpl in *. destruct (PyStr.is_space x); [by apply IH | done].
Qed.

Lemma rstrip_snoc_space s c :
  PyStr.is_space c = true →
  PyStr.rstrip (s +:+ String c EmptyString) = PyStr.rstrip s.
Proof.
  intros Hc. unfold PyStr.rstrip. rewrite rev_append.
  change (String.rev (String c EmptyString)) with (String c EmptyString).
  rewrite append_cons, append_nil_l. simpl. by rewrite Hc.
Qed.

(** The line feed that ends a line is stripped with the rest. *)
Lemma strip_snoc_space s c :
  PyStr.is_space c = true →
  PyStr.strip (s +:+ String c EmptyString) = PyStr.strip s.
Proof.
  intros Hc. unfold PyStr.strip.
  destruct (PyStr.lstrip s) as [|x t] eqn:E.
  - by rewrite lstrip_spaces.
  - rewrite lstrip_append by (by rewrite E). rewrite E.
    by apply rstrip_snoc_space.
Qed.

Lemma rstrip_append s1 s2 :
  s2 ≠ EmptyString → PyStr.rstrip s2 = s2 →
  PyStr.rstrip (s1 +:+ s2) = s1 +:+ s2.
Proof.
  intros Hne H. unfold PyStr.rstrip in *. rewrite rev_append.
  rewrite lstrip_append.
  - by rewrite rev_append, rev_involutive, H.
  - intros E. rewrite E in H. by subst.
Qed.

Lemma length_append s1 s2 :
  String.length (s1 +:+ s2) = (String.length s1 + String.length s2)%nat.
Proof. induction s1 as [|c s1 IH]; [done|]. rewrite append_cons. simpl. by rewrite IH. Qed.

Lemma split_go_piece sep item : ∀ piece rest,
  all_chars (λ c, negb (Ascii.eqb c sep)) item = true →
  split_go sep (item +:+ rest) piece = split_go sep rest (piece +:+ item).
Proof.
  induction item as [|c item IH]; intros piece rest H.
  - by rewrite append_nil_l, append_nil_r.
  - simpl in H. apply andb_true_iff in H as [Hc Hi]. apply negb_true_iff in Hc.
    rewrite append_cons. simpl. rewrite Hc. by rewrite IH, snoc_append.
Qed.

(** [";".join(items).split(";")] gives the items back. *)
Lemma split_join items :
  items ≠ [] →
  Forall (λ item, all_chars (λ c, negb (Ascii.eqb c ";"%char)) item = true) items →
  str_split ";"%char (String.concat ";" items) = items.
Proof.
  unfold str_split. intros Hne H.
  induction items as [|item rest IH]; [done|].
  apply Forall_cons in H as [Hi Hrest]. destruct rest as [|item' rest].
  - simpl. rewrite <- (append_nil_r item) at 1.
    by rewrite split_go_piece.
  - change (String.concat ";" (item :: item' :: rest))
      with (item +:+ String ";" (String.concat ";" (item' :: rest))).
    rewrite split_go_piece by done.
    change (split_go ";" (String ";" (String.concat ";" (item' :: rest)))
              (EmptyString +:+ item))
      with ((EmptyString +:+ item)
              :: split_go ";" (String.concat ";" (item' :: rest)) EmptyString).
    by rewrite IH, append_nil_l.
Qed.

Lemma ini_loop_other lines : ∀ rest mods ids,
  Forall other_line lines →
  ini_loop (map (λ l, l +:+ String "010"%char EmptyString) lines ++ rest) mods ids
  = ini_loop rest mods ids.
Proof.
  induction lines as [|l lines IH]; intros rest mods ids H; [done|].
  apply Forall_cons in H as [[_ Hl] Hlines]. simpl.
  rewrite strip_snoc_space by reflexivity.
  unfold assigns in Hl. apply orb_false_iff in Hl as [H1 H2].
  simpl in H1, H2. rewrite H1, H2. by apply IH.
Qed.

Lemma strip_key_line key value :
  PyStr.lstrip key = key → key ≠ EmptyString →
  value ≠ EmptyString → PyStr.rstrip value = value →
  PyStr.strip ((key +:+ value) +:+ String "010"%char EmptyString) = key +:+ value.
Proof.
  intros Hk Hkn Hv Hr. rewrite strip_snoc_space by reflexivity.
  unfold PyStr.strip. rewrite lstrip_append by (by rewrite Hk).
  rewrite Hk. by apply rstrip_append.
Qed.

Lemma ini_loop_cons line rest mods ids :
  ini_loop (line :: rest) mods ids
  = if PyStr.startswith (PyStr.strip line) "Mods="
       && (String.length "Mods=" <? String.length (PyStr.strip line))%nat
    then ini_loop rest
           (str_split ";"%char (str_drop (String.length "Mods=") (PyStr.strip line)))
           ids
    else if PyStr.startswith (PyStr.strip line) "WorkshopItems="
            && (String.length "WorkshopItems=" <? String.length (PyStr.strip line))%nat
    then ini_loop rest mods
           (str_split ";"%char
              (str_drop (String.length "WorkshopItems=") (PyStr.strip line)))
    else ini_loop rest mods ids.
Proof. reflexivity. Qed.

Lemma longer_than_key key value :
  value ≠ EmptyString →
  (String.length key <? String.length (key +:+ value))%nat = true.
Proof.
  intros Hv. rewrite length_append. apply Nat.ltb_lt.
  destruct value; [done|]. simpl. lia.
Qed.

Lemma startswith_append key value : PyStr.startswith (key +:+ value) key = true.
Proof.
  unfold PyStr.startswith. induction key as [|c key IH].
  - rewrite append_nil_l. by destruct value.
  - rewrite append_cons. simpl. by destruct (ascii_dec c c).
Qed.

Lemma str_drop_append key value :
  str_drop (String.length key) (key +:+ value) = value.
Proof.
  induction key as [|c key IH]; [by rewrite append_nil_l|].
  rewrite append_cons. exact IH.
Qed.

(** A line [Mods=value] sets the list of mods to the pieces of [value]. *)
Lemma ini_loop_mods value rest mods ids :
  value ≠ EmptyString → PyStr.rstrip value = value →
  ini_loop ((("Mods=" +:+ value) +:+ String "010"%char EmptyString) :: rest) mods ids
  = ini_loop rest (str_split ";"%char value) ids.
Proof.
  intros Hv Hr. rewrite ini_loop_cons, (strip_key_line "Mods=") by done.
  by rewrite longer_than_key, startswith_append, str_drop_append.
Qed.

(** A line [WorkshopItems=value] sets the list of ids to the pieces of
    [value]. *)
Lemma ini_loop_ids value rest mods ids :
  value ≠ EmptyString → PyStr.rstrip value = value →
  ini_loop ((("WorkshopItems=" +:+ value) +:+ String "010"%char EmptyString) :: rest)
    mods ids
  = ini_loop rest mods (str_split ";"%char value).
Proof.
  intros Hv Hr. rewrite ini_loop_cons, (strip_key_line "WorkshopItems=") by done.
  change (PyStr.startswith ("WorkshopItems=" +:+ value) "Mods=") with false.
  by rewrite longer_than_key, startswith_append, str_drop_append.
Qed.

(** X16.  The parser of [server.ini] gives back what the file assigns,
    for texts of characters below 256.  The file has a line [Mods=] and,
    further down, a line [WorkshopItems=], each followed by its items with
    semicolons between them; the items hold no semicolon, no LF and no CR,
    and each of the two values is not empty and does not end in whitespace
    of [strip] (which the parser would cut off); all other lines of the
    file hold no LF or CR and assign nothing.  Then [read_enabled_mods]
    returns the two lists of items as they stand in the file, empty items
    included, in their order. *)
Theorem read_enabled_mods_roundtrip (pre mid post mods ids : list string) :
  Forall other_line pre → Forall other_line mid → Forall other_line post →
  key_value mods → key_value ids →
  read_enabled_mods
    (Some (unlines (pre ++ ("Mods=" +:+ String.concat ";" mods)
                      :: mid ++ ("WorkshopItems=" +:+ String.concat ";" ids)
                      :: post)))
  = (mods, ids).
Proof.
  intros Hpre Hmid Hpost (Hm1 & Hm2 & Hm3 & Hm4) (Hi1 & Hi2 & Hi3 & Hi4).
  assert (mods ≠ []) as Hmn by (intros ->; by apply Hm3).
  assert (ids ≠ []) as Hin by (intros ->; by apply Hi3).
  unfold read_enabled_mods. rewrite readlines_unlines.
  2:{ apply Forall_app. split; [eapply Forall_impl; [exact Hpre|]; by intros ? [? _]|].
      constructor; [exact Hm2|].
      apply Forall_app. split; [eapply Forall_impl; [exact Hmid|]; by intros ? [? _]|].
      constructor; [exact Hi2|].
      eapply Forall_impl; [exact Hpost|]; by intros ? [? _]. }
  rewrite map_app, ini_loop_other by done.
  rewrite map_cons, ini_loop_mods, split_join by done.
  rewrite map_app, ini_loop_other by done.
  rewrite map_cons, ini_loop_ids, split_join by done.
  rewrite <- (app_nil_r (map _ post)), ini_loop_other by done.
  reflexivity.
Qed.

(** ** Concrete runs of the further properties *)

(** A console that answers every command but its second. *)
Definition flaky_server : World :=
  mkWorld ∅ ∅ ∅
    (λ k _, if (k =? 1)%nat then None else Some roster_bob)
    nothing_fetched datetime_range [].

(** A console object whose every command raises. *)
Definition raising_console : World :=
  mkWorld ∅ ∅ ∅ (λ _ _, None) nothing_fetched datetime_range [].

(** The Steam API fails on every request. *)
Definition steam_down : World :=
  mkWorld {[ LOCAL_MODINFO_FILE := Json old_snapshot ]} ∅ ∅
    (λ _ _, Some roster_bob) (λ _ _, NetworkFailure) datetime_range [].

Definition local_rcon : ZomboidRCON := mkRCON "127.0.0.1" 27015 "secret".

(** Two players are disconnected in the order of the roster. *)
Lemma kick_all_players_kicks_all_witness :
  kick_all_players local_rcon ["bob"; "eve"] busy_server
  = (Ok tt, set_trace busy_server [kickuser "bob"; kickuser "eve"]).
Proof.
  exact (kick_all_players_kicks_all local_rcon ["bob"; "eve"] busy_server
           (λ _ _ _, ex_intro _ roster_bob eq_refl)).
Defined.

(** The command for eve raises: zed stays connected. *)
Lemma kick_all_players_stops_at_failure_witness :
  console flaky_server 1 "kickuser eve" = None
  ∧ kick_all_players local_rcon ["bob"; "eve"; "zed"] flaky_server
    = (Ok tt, set_trace flaky_server [kickuser "bob"; kickuser "eve"]).
Proof.
  split; [reflexivity|].
  refine (kick_all_players_stops_at_failure local_rcon ["bob"] ["zed"] "eve"
            flaky_server _ eq_refl).
  intros j q Hq. destruct j as [|j]; [|destruct j; discriminate Hq].
  exists roster_bob. reflexivity.
Defined.

(** Bob stays through a countdown of two minutes and is disconnected. *)
Lemma warn_and_restart_evicts_witness :
  console busy_server 0 "players" = Some roster_bob
  ∧ parse_players roster_bob = ["bob"]
  ∧ warn_and_restart "127.0.0.1" 27015 "secret" 5 2 false busy_server
    = (Ok tt,
       set_trace busy_server
         [ RconCommand "players";
           RconCommand (servermsg (WARNING_MESSAGE 2) false);
           Sleep (inject_Z 60);
           RconCommand "players";
           RconCommand (servermsg (WARNING_MESSAGE 1) false);
           Sleep (inject_Z 60);
           RconCommand "players";
           RconCommand (servermsg (RESTART_MESSAGE 10) false);
           Sleep (inject_Z 10);
           RconCommand "players";
           kickuser "bob";
           Sleep (inject_Z 2) ]).
Proof.
  split; [reflexivity|]. split; [reflexivity|].
  refine (warn_and_restart_evicts "127.0.0.1" 27015 "secret" 5 2 busy_server
            roster_bob roster_bob eq_refl roster_bob_present _ eq_refl _).
  - intros j _. exists roster_bob. split; [reflexivity | exact roster_bob_present].
  - intros j player _. exists roster_bob. reflexivity.
Defined.

(** The roster query raises: it is all that is sent. *)
Lemma warn_and_restart_query_raises_witness :
  console raising_console 0 "players" = None
  ∧ warn_and_restart "127.0.0.1" 27015 "secret" 5 5 false raising_console
    = (Ok tt, set_trace raising_console [RconCommand "players"]).
Proof.
  split; [reflexivity|].
  exact (warn_and_restart_query_raises "127.0.0.1" 27015 "secret" 5 5 false
           raising_console eq_refl).
Defined.

(** The example of the specification, checked twice. *)
Lemma are_mods_outdated_twice_witness :
  (LOCAL_MODINFO_FILE ∉ unwritable with_snapshot)
  ∧ fst (are_mods_outdated fresh LOCAL_MODINFO_FILE with_snapshot) = Ok true
  ∧ are_mods_outdated fresh LOCAL_MODINFO_FILE
      (snd (are_mods_outdated fresh LOCAL_MODINFO_FILE with_snapshot))
    = (Ok false, snd (are_mods_outdated fresh LOCAL_MODINFO_FILE with_snapshot)).
Proof.
  split; [exact with_snapshot_writable|]. split; [exact fresh_detected|].
  exact (are_mods_outdated_twice fresh LOCAL_MODINFO_FILE with_snapshot true
           with_snapshot_writable fresh_detected).
Defined.

(** The example of the specification with a snapshot that cannot be
    written: the drift is reported at every call. *)
Lemma are_mods_outdated_write_denied_witness :
  LOCAL_MODINFO_FILE ∈ unwritable readonly_snapshot
  ∧ drift fresh old_snapshot
  ∧ fst (are_mods_outdated fresh LOCAL_MODINFO_FILE readonly_snapshot) = Ok true
  ∧ are_mods_outdated fresh LOCAL_MODINFO_FILE readonly_snapshot
    = (Ok true, readonly_snapshot)
  ∧ are_mods_outdated fresh LOCAL_MODINFO_FILE
      (snd (are_mods_outdated fresh LOCAL_MODINFO_FILE readonly_snapshot))
    = (Ok true, readonly_snapshot).
Proof.
  assert (LOCAL_MODINFO_FILE ∈ unwritable readonly_snapshot) as H
    by (unfold readonly_snapshot; simpl; apply elem_of_singleton_2; reflexivity).
  assert (fst (are_mods_outdated fresh LOCAL_MODINFO_FILE readonly_snapshot)
          = Ok true) as Hd.
  { by rewrite (are_mods_outdated_denied_run fresh LOCAL_MODINFO_FILE
                  readonly_snapshot old_snapshot (not_elem_of_empty _)
                  (lookup_singleton_eq _ _) H
                  (fresh_formats readonly_snapshot eq_refl) fresh_drifts). }
  split; [exact H|]. split; [exact fresh_drifts|]. split; [exact Hd|].
  exact (are_mods_outdated_write_denied fresh LOCAL_MODINFO_FILE
           readonly_snapshot Hd H).
Defined.

(** A snapshot file that holds the JSON text of the empty list. *)
Definition list_snapshot : World :=
  mkWorld {[ LOCAL_MODINFO_FILE := Misshapen NoSnapshotDict ]} ∅ ∅
    (λ _ _, Some roster_bob) nothing_fetched datetime_range [].

(** On that file the detector raises for the mapping of the example. *)
Lemma are_mods_outdated_misshapen_witness :
  files list_snapshot !! LOCAL_MODINFO_FILE = Some (Misshapen NoSnapshotDict)
  ∧ are_mods_outdated fresh LOCAL_MODINFO_FILE list_snapshot
    = (Raise OtherError, list_snapshot).
Proof.
  split; [apply lookup_singleton_eq|].
  destruct (proj1 (are_mods_outdated_misshapen fresh LOCAL_MODINFO_FILE
                     list_snapshot NoSnapshotDict (not_elem_of_empty _)
                     (lookup_singleton_eq _ _)) eq_refl) as [[E _]|[_ E]].
  - discriminate E.
  - exact E.
Defined.

(** Without snapshot file nothing is sent to a busy server. *)
Lemma check_mods_and_handle_no_drift_witness :
  snapshot_unreadable busy_server LOCAL_MODINFO_FILE
  ∧ check_mods_and_handle "127.0.0.1" 27015 "secret" 5 5 fresh false busy_server
    = (Ok tt, busy_server).
Proof.
  assert (snapshot_unreadable busy_server LOCAL_MODINFO_FILE) as H
    by (right; left; apply lookup_empty).
  split; [exact H|].
  exact (check_mods_and_handle_no_drift "127.0.0.1" 27015 "secret" 5 5 fresh
           false busy_server (or_introl H)).
Defined.

(** A first run on the example of the specification. *)
Lemma first_run_never_restarts_witness :
  (LOCAL_MODINFO_FILE ∉ unwritable with_snapshot)
  ∧ (LOCAL_MODINFO_FILE ∉ unreadable with_snapshot)
  ∧ (write_modInfo_timeUpdated_file fresh LOCAL_MODINFO_FILE ;;;
     check_mods_and_handle "127.0.0.1" 27015 "secret" 5 5 fresh false)
      with_snapshot
    = (Ok tt,
       rewritten with_snapshot LOCAL_MODINFO_FILE fresh
         [FileOpenW LOCAL_MODINFO_FILE; FileDump LOCAL_MODINFO_FILE]).
Proof.
  split; [exact with_snapshot_writable|].
  split; [exact with_snapshot_readable|].
  exact (first_run_never_restarts "127.0.0.1" 27015 "secret" 5 5 fresh false
           with_snapshot with_snapshot_writable with_snapshot_readable).
Defined.

(** Three ids in batches of two while the Steam API is down: ten requests,
    nothing returned, nothing sent to the console. *)
Lemma steam_outage_never_restarts_witness :
  (∀ k ids, retryable (steam steam_down k ids) = true)
  ∧ ∃ t,
      create_modInfo 2 ["111"; "222"; "333"] steam_down
      = (Ok ∅, set_trace steam_down (trace steam_down ++ t))
      ∧ http_calls t = 10%nat
      ∧ returned t = []
      ∧ check_mods_and_handle "127.0.0.1" 27015 "secret" 5 5 ∅ false
          (set_trace steam_down (trace steam_down ++ t))
        = (Ok tt, set_trace steam_down (trace steam_down ++ t)).
Proof.
  split; [intros; reflexivity|].
  exact (steam_outage_never_restarts "127.0.0.1" 27015 "secret" 2 5 5
           ["111"; "222"; "333"] false steam_down ltac:(lia)
           (λ _ _, eq_refl)).
Defined.

(** A batch size of zero: the exception leaves [create_modInfo]. *)
Lemma create_modInfo_bad_batch_size_witness :
  create_modInfo 0 ["111"] empty_server = (Raise OtherError, empty_server).
Proof.
  exact (create_modInfo_bad_batch_size 0 ["111"] empty_server ltac:(lia)
           ltac:(discriminate)).
Defined.

(** A roster of two players; and, for comparison, a response in which a
    NEL (U+0085) stands inside a name: [splitlines] breaks the line there,
    and the rest counts as a player of its own, whose name is what follows
    its first character. *)
Lemma parse_players_roster_witness :
  parse_players
    ("Players connected (2): " +:+ newline +:+ roster_text ["bob"; "eve"])
  = ["bob"; "eve"]
  ∧ one_line ("a" +:+ PyStr.chr 133 +:+ "bc") = false
  ∧ parse_players
      ("Players connected (1): " +:+ newline
         +:+ "-a" +:+ PyStr.chr 133 +:+ "bc" +:+ newline)
    = ["a"; "c"].
Proof.
  split; [|split; reflexivity].
  refine (parse_players_roster "Players connected (2): " ["bob"; "eve"]
            eq_refl eq_refl _).
  repeat constructor.
Defined.

(** The example of the specification, between two other lines; and, for
    comparison, a value that ends in a no-break space (U+00A0), which
    [strip] cuts off: the last item comes back without it. *)
Lemma read_enabled_mods_roundtrip_witness :
  key_value ["A"; "B"; "C"]
  ∧ key_value ["111"; "222"; "333"]
  ∧ other_line "# server settings"
  ∧ other_line "Public=true"
  ∧ read_enabled_mods
      (Some (unlines [ "# server settings"; "Mods=A;B;C";
                       "WorkshopItems=111;222;333"; "Public=true" ]))
    = (["A"; "B"; "C"], ["111"; "222"; "333"])
  ∧ PyStr.rstrip ("A;B" +:+ PyStr.chr 160) = "A;B"
  ∧ read_enabled_mods (Some (unlines [ "Mods=A;B" +:+ PyStr.chr 160 ]))
    = (["A"; "B"], []).
Proof.
  enough (key_value ["A"; "B"; "C"]
          ∧ key_value ["111"; "222"; "333"]
          ∧ other_line "# server settings"
          ∧ other_line "Public=true"
          ∧ read_enabled_mods
              (Some (unlines [ "# server settings"; "Mods=A;B;C";
                               "WorkshopItems=111;222;333"; "Public=true" ]))
            = (["A"; "B"; "C"], ["111"; "222"; "333"])) as (H1 & H2 & H3 & H4 & H5)
    by (repeat (split; [assumption|]); split; reflexivity).
  assert (key_value ["A"; "B"; "C"]) as Hm
    by (repeat split; try discriminate; repeat constructor).
  assert (key_value ["111"; "222"; "333"]) as Hi
    by (repeat split; try discriminate; repeat constructor).
  assert (other_line "# server settings") as H1 by (split; reflexivity).
  assert (other_line "Public=true") as H2 by (split; reflexivity).
  split; [exact Hm|]. split; [exact Hi|]. split; [exact H1|]. split; [exact H2|].
  exact (read_enabled_mods_roundtrip ["# server settings"] [] ["Public=true"]
           ["A"; "B"; "C"] ["111"; "222"; "333"]
           (Forall_cons_2 _ _ _ H1 (Forall_nil_2 _)) (Forall_nil_2 _)
           (Forall_cons_2 _ _ _ H2 (Forall_nil_2 _)) Hm Hi).
Defined.

(** ** The lock, the command line and [main] *)

(** The value of a decimal digit. *)
Definition digit (c : ascii) : option Z :=
  let n := nat_of_ascii c in
  if (48 <=? n)%nat && (n <=? 57)%nat then Some (Z.of_nat (n - 48)) else None.

(** The digits of an integer literal, read from the left: single underscores
    may stand between digits, nowhere else. *)
Fixpoint digits_go (s : string) (value : Z) (after_digit : bool) : option Z :=
  match s with
  | EmptyString => if after_digit then Some value else None
  | String c s' =>
      if Ascii.eqb c "_"%char then
        if after_digit then digits_go s' value false else None
      else
        match digit c with
        | Some d => digits_go s' (10 * value + d) true
        | None => None
        end
  end.

(** [int(s)] for a string: whitespace around, an optional sign, then the
    digits, which among the characters below 256 are [0] to [9]; [None]
    when [int] raises [ValueError].  (A literal of more than 4300 digits,
    which newer versions of Python refuse, is read as its value.) *)
Definition int (s : string) : option Z :=
  match PyStr.strip s with
  | EmptyString => None
  | String c s' =>
      if Ascii.eqb c "-"%char then Z.opp <$> digits_go s' 0 false
      else if Ascii.eqb c "+"%char then digits_go s' 0 false
      else digits_go (String c s') 0 false
  end.


(** A text file that is not the snapshot: it is absent, or it is there but
    [open] or [read] raises on it, or it is there with its text. *)
Inductive text_file : Type :=
| NoFile
| Garbled
| Text (content : string).

(** What [sftp_client.get] does to the local file.  The transfer can fail
    before the local file is opened, which leaves it as it was; it can fail
    after, which leaves what was written until then; or it succeeds.  A
    content of [None] is one that is no UTF-8 text. *)
Inductive sftp_outcome : Type :=
| Unreachable
| Interrupted (partial : option string)
| Transferred (content : option string).

Definition stored (content : option string) : text_file :=
  match content with Some text => Text text | None => Garbled end.

(** The machine the script runs on: the world of the functions above, the
    process table, the PID file, the local [server.ini] and the list for
    Discord.  The paths of these files are taken to be different from each
    other and from the path of the snapshot. *)
Record Host : Type := mkHost {
  world : World;
  getpid : Z;                     (* [os.getpid()] *)
  proc : Z → bool;                (* [os.path.exists(f'/proc/{pid}')] *)
  pid_file : text_file;           (* [PID_FILE] *)
  pid_writable : bool;            (* [open(PID_FILE, 'w')] succeeds *)
  pid_removable : bool;           (* [os.remove(PID_FILE)] succeeds *)
  server_ini : text_file;         (* [LOCAL_SERVER_INI] *)
  sftp : sftp_outcome;
  discord_writable : bool;        (* [open(DISCORD_MODLIST_FILE, 'w')] succeeds *)
  discord_modlist : option (gmap string ModInfo)
                                  (* the mapping [DISCORD_MODLIST_FILE] lists *)
}.

Definition set_world (h : Host) (w : World) : Host :=
  mkHost w (getpid h) (proc h) (pid_file h) (pid_writable h) (pid_removable h)
    (server_ini h) (sftp h) (discord_writable h) (discord_modlist h).

Definition set_pid_file (h : Host) (f : text_file) : Host :=
  mkHost (world h) (getpid h) (proc h) f (pid_writable h) (pid_removable h)
    (server_ini h) (sftp h) (discord_writable h) (discord_modlist h).

Definition set_server_ini (h : Host) (f : text_file) : Host :=
  mkHost (world h) (getpid h) (proc h) (pid_file h) (pid_writable h)
    (pid_removable h) f (sftp h) (discord_writable h) (discord_modlist h).

Definition set_discord_modlist (h : Host) (m : option (gmap string ModInfo)) : Host :=
  mkHost (world h) (getpid h) (proc h) (pid_file h) (pid_writable h)
    (pid_removable h) (server_ini h) (sftp h) (discord_writable h) m.

(** The same machine, seen by the process [pid]. *)
Definition as_process (pid : Z) (h : Host) : Host :=
  mkHost (world h) pid (proc h) (pid_file h) (pid_writable h) (pid_removable h)
    (server_ini h) (sftp h) (discord_writable h) (discord_modlist h).

(** How a call at the top of the script ends: it returns, or [sys.exit]
    ends the process, or an exception leaves it. *)
Inductive ending : Type :=
| Returns
| Exits (code : Z)
| Raises (e : exn).

(** The second half of [check_pid]: the PID file is written, or the
    process exits with status 1. *)
Definition write_pid (h : Host) : ending * Host :=
  if pid_writable h
  then (Returns, set_pid_file h (Text (PyStr.of_int (getpid h))))
  else (Exits 1, h).

(** [check_pid()].  [sys.exit(0)] raises [SystemExit], which is no
    [Exception]: the [except] of the first half lets it through.  What that
    [except] catches, a file that cannot be read or that holds no integer,
    is logged, and the call goes on to the second half. *)
Definition check_pid (h : Host) : ending * Host :=
  match pid_file h with
  | NoFile => write_pid h
  | Garbled => write_pid h
  | Text text =>
      match int (PyStr.strip text) with
      | Some pid => if proc h pid then (Exits 0, h) else write_pid h
      | None => write_pid h
      end
  end.

(** [remove_pid()] *)
Definition remove_pid (h : Host) : Host :=
  match pid_file h with
  | NoFile => h
  | _ => if pid_removable h then set_pid_file h NoFile else h
  end.

(** Statements that act on the machine. *)
Definition HM (A : Type) : Type := Host → result A * Host.

Definition hret {A} (a : A) : HM A := λ h, (Ok a, h).

Definition hbind {A B} (c : HM A) (k : A → HM B) : HM B :=
  λ h, match c h with
       | (Ok a, h') => k a h'
       | (Raise e, h') => (Raise e, h')
       end.

Notation "x <~ c ;; k" := (hbind c (λ x, k))
  (at level 20, c at level 99, k at level 200, only parsing).

(** A statement on the world, run on the machine. *)
Definition run {A} (c : M A) : HM A :=
  λ h, (fst (c (world h)), set_world h (snd (c (world h)))).

(** [asyncio.run(c)] runs the coroutine to its end. *)
Definition asyncio_run {A} (c : Coroutine A) : HM A := run (await c).

(** [sftp_download(SFTP_REMOTE_FILE, LOCAL_SERVER_INI)] *)
Definition sftp_download : HM bool :=
  λ h, match sftp h with
       | Unreachable => (Ok false, h)
       | Interrupted partial => (Ok false, set_server_ini h (stored partial))
       | Transferred content => (Ok true, set_server_ini h (stored content))
       end.

(** [os.path.exists(LOCAL_SERVER_INI)] *)
Definition server_ini_exists (h : Host) : bool :=
  match server_ini h with NoFile => false | _ => true end.

(** What [f.readlines()] can read of a file. *)
Definition readable (f : text_file) : option string :=
  match f with Text text => Some text | _ => None end.

(** [read_enabled_mods(LOCAL_SERVER_INI)] *)
Definition read_server_ini : HM (list string * list string) :=
  λ h, (Ok (read_enabled_mods (readable (server_ini h))), h).

(** [write_discord_modlist(modInfo, DISCORD_MODLIST_FILE)]: the file lists
    the mods of [modInfo], or the exception of [open] is logged. *)
Definition write_discord_modlist (modInfo : gmap string ModInfo) : HM unit :=
  λ h, if discord_writable h
       then (Ok tt, set_discord_modlist h (Some modInfo))
       else (Ok tt, h).

(** The arguments [parser.parse_args()] returns. *)
Record Args : Type := mkArgs {
  get_serverini : bool;
  msg : option string;
  test : bool
}.

(** [parse_args] returns the arguments, or ends the process: with status 2
    on a command line it rejects, with status 0 after [--help]. *)
Inductive command_line : Type :=
| Parsed (args : Args)
| Rejected (code : Z).

(** [if args.msg] *)
Definition given (value : option string) : bool :=
  match value with Some text => PyStr.truthy text | None => false end.

(** The PID file names a process that is alive. *)
Definition locked (h : Host) : bool :=
  match pid_file h with
  | Text text =>
      match int (PyStr.strip text) with
      | Some pid => proc h pid
      | None => false
      end
  | _ => false
  end.

(** *** [int] reads back what [str] writes *)

Lemma digit_pretty_N_char m :
  (m < 10)%N →
  digit (pretty_N_char m) = Some (Z.of_N m)
  ∧ Ascii.eqb (pretty_N_char m) "_"%char = false
  ∧ Ascii.eqb (pretty_N_char m) "-"%char = false
  ∧ Ascii.eqb (pretty_N_char m) "+"%char = false
  ∧ PyStr.is_space (pretty_N_char m) = false.
Proof.
  intros H.
  assert (m = 0 ∨ m = 1 ∨ m = 2 ∨ m = 3 ∨ m = 4 ∨ m = 5 ∨ m = 6 ∨ m = 7
          ∨ m = 8 ∨ m = 9)%N as Hm by lia.
  repeat destruct Hm as [->|Hm]; try subst m; by repeat split.
Qed.

Lemma digits_go_pretty x : ∀ s b,
  digits_go (pretty_N_go x s) 0 b
  = digits_go s (Z.of_N x) (b || (0 <? Z.of_N x)).
Proof.
  induction (N.lt_wf_0 x) as [x _ IH]; intros s b.
  assert (x = 0 ∨ 0 < x)%N as [->|Hx] by lia.
  { rewrite pretty_N_go_0. simpl. by rewrite orb_false_r. }
  rewrite pretty_N_go_step by done.
  rewrite IH by (by apply N.div_lt).
  destruct (digit_pretty_N_char (x `mod` 10)%N) as (Hd & Hu & _).
  { by apply N.mod_lt. }
  simpl digits_go. rewrite Hu, Hd.
  replace (0 <? Z.of_N x) with true by (symmetry; apply Z.ltb_lt; lia).
  rewrite orb_true_r. f_equal.
  pose proof (N.div_mod x 10 ltac:(lia)). lia.
Qed.

Lemma pretty_N_go_head x : ∀ s,
  (0 < x)%N →
  ∃ m s', (m < 10)%N ∧ pretty_N_go x s = String (pretty_N_char m) s'.
Proof.
  induction (N.lt_wf_0 x) as [x _ IH]; intros s Hx.
  rewrite pretty_N_go_step by done.
  destruct (N.eq_0_gt_0_cases (x `div` 10)) as [E|E].
  - rewrite E, pretty_N_go_0. eexists _, _. split; [|done]. by apply N.mod_lt.
  - apply IH; [by apply N.div_lt | done].
Qed.

Lemma all_chars_append P s1 s2 :
  all_chars P (s1 +:+ s2) = all_chars P s1 && all_chars P s2.
Proof.
  induction s1 as [|c s1 IH]; [by rewrite append_nil_l|].
  rewrite append_cons. simpl. by rewrite IH, andb_assoc.
Qed.

Lemma all_chars_rev P s : all_chars P (String.rev s) = all_chars P s.
Proof.
  induction s as [|c s IH]; [done|].
  rewrite rev_cons, all_chars_append, IH. simpl.
  by rewrite andb_true_r, andb_comm.
Qed.

Lemma lstrip_no_space s :
  all_chars (λ c, negb (PyStr.is_space c)) s = true → PyStr.lstrip s = s.
Proof.
  destruct s as [|c s]; [done|]. simpl.
  by destruct (PyStr.is_space c).
Qed.

Lemma strip_no_space s :
  all_chars (λ c, negb (PyStr.is_space c)) s = true → PyStr.strip s = s.
Proof.
  intros H. unfold PyStr.strip, PyStr.rstrip.
  rewrite (lstrip_no_space s) by done.
  rewrite lstrip_no_space by (by rewrite all_chars_rev).
  apply rev_involutive.
Qed.

Lemma pretty_N_go_no_space x : ∀ s,
  all_chars (λ c, negb (PyStr.is_space c)) s = true →
  all_chars (λ c, negb (PyStr.is_space c)) (pretty_N_go x s) = true.
Proof.
  induction (N.lt_wf_0 x) as [x _ IH]; intros s Hs.
  assert (x = 0 ∨ 0 < x)%N as [->|Hx] by lia; [by rewrite pretty_N_go_0|].
  rewrite pretty_N_go_step by done. apply IH; [by apply N.div_lt|].
  destruct (digit_pretty_N_char (x `mod` 10)%N) as (_ & _ & _ & _ & Hsp).
  { by apply N.mod_lt. }
  simpl. by rewrite Hsp.
Qed.

Lemma of_int_no_space n :
  all_chars (λ c, negb (PyStr.is_space c)) (PyStr.of_int n) = true.
Proof.
  unfold PyStr.of_int, pretty, pretty_Z. destruct n as [|p|p]; [done| |].
  - unfold pretty, pretty_positive, pretty, pretty_N.
    rewrite decide_False by done. by apply pretty_N_go_no_space.
  - unfold pretty, pretty_positive, pretty, pretty_N.
    rewrite decide_False by done.
    change ("-" +:+ ?s) with (String "-" s). simpl.
    by apply pretty_N_go_no_space.
Qed.

(** [int(str(n))] is [n]. *)
Lemma int_of_int n : int (PyStr.of_int n) = Some n.
Proof.
  unfold int. rewrite strip_no_space by apply of_int_no_space.
  unfold PyStr.of_int, pretty, pretty_Z. destruct n as [|p|p]; [done| |].
  - unfold pretty, pretty_positive, pretty, pretty_N.
    rewrite decide_False by done.
    destruct (pretty_N_go_head (N.pos p) EmptyString) as (m & s' & Hm & E); [done|].
    destruct (digit_pretty_N_char m Hm) as (_ & _ & Hd & Hp & _).
    rewrite E, Hd, Hp, <- E, digits_go_pretty. done.
  - unfold pretty, pretty_positive, pretty, pretty_N.
    rewrite decide_False by done.
    change ("-" +:+ ?s) with (String "-" s). cbv beta iota.
    change (Ascii.eqb "-" "-") with true. cbv iota.
    rewrite digits_go_pretty. done.
Qed.

Lemma int_strip_of_int n : int (PyStr.strip (PyStr.of_int n)) = Some n.
Proof. rewrite strip_no_space by apply of_int_no_space. apply int_of_int. Qed.

Section Main.

Variable RCON_HOST : string.
Variable RCON_PORT : Z.
Variable RCON_PASSWORD : string.
Variables BATCH_SIZE RESTART_TIMEOUT COUNTDOWN_MINUTES : Z.

(** The [try] block of [main]. *)
Definition main_body (args : Args) : HM unit :=
  if given (msg args) then
    asyncio_run
      (send_manual_message RCON_HOST RCON_PORT RCON_PASSWORD
         (default EmptyString (msg args)))
  else if get_serverini args then
    _ <~ sftp_download ;;
    enabled <~ read_server_ini ;;
    modInfo <~ run (create_modInfo BATCH_SIZE (snd enabled)) ;;
    _ <~ write_discord_modlist modInfo ;;
    run (write_modInfo_timeUpdated_file modInfo LOCAL_MODINFO_FILE)
  else if test args then
    enabled <~ read_server_ini ;;
    modInfo <~ run (create_modInfo BATCH_SIZE (snd enabled)) ;;
    asyncio_run
      (check_mods_and_handle RCON_HOST RCON_PORT RCON_PASSWORD RESTART_TIMEOUT
         COUNTDOWN_MINUTES modInfo true)
  else
    exists_ini <~ (λ h, (Ok (server_ini_exists h), h)) ;;
    if exists_ini : bool then
      enabled <~ read_server_ini ;;
      modInfo <~ run (create_modInfo BATCH_SIZE (snd enabled)) ;;
      asyncio_run
        (check_mods_and_handle RCON_HOST RCON_PORT RCON_PASSWORD
           RESTART_TIMEOUT COUNTDOWN_MINUTES modInfo false)
    else
      _ <~ sftp_download ;;
      enabled <~ read_server_ini ;;
      modInfo <~ run (create_modInfo BATCH_SIZE (snd enabled)) ;;
      _ <~ run (write_modInfo_timeUpdated_file modInfo LOCAL_MODINFO_FILE) ;;
      asyncio_run
        (check_mods_and_handle RCON_HOST RCON_PORT RCON_PASSWORD
           RESTART_TIMEOUT COUNTDOWN_MINUTES modInfo false).

(** [main()].  [check_pid] and [parse_args] run before the [try]; the
    [finally] removes the PID file however the block ends.  No exception
    of the model is a [KeyboardInterrupt], so the [except] lets each one
    through. *)
Definition main (argv : command_line) (h : Host) : ending * Host :=
  match check_pid h with
  | (Returns, h1) =>
      match argv with
      | Rejected code => (Exits code, h1)
      | Parsed args =>
          match main_body args h1 with
          | (Ok _, h2) => (Returns, remove_pid h2)
          | (Raise e, h2) => (Raises e, remove_pid h2)
          end
      end
  | stopped => stopped
  end.

(** *** The lock *)

Lemma check_pid_locked h : locked h = true → check_pid h = (Exits 0, h).
Proof.
  unfold locked, check_pid. destruct (pid_file h) as [| |text]; try done.
  destruct (int _) as [pid|]; try done. by intros ->.
Qed.

Lemma check_pid_free h : locked h = false → check_pid h = write_pid h.
Proof.
  unfold locked, check_pid. destruct (pid_file h) as [| |text]; try done.
  destruct (int _) as [pid|]; try done. by intros ->.
Qed.

(** The lock a process has written names that process. *)
Lemma locked_by_writer h pid :
  proc h (getpid h) = true →
  locked (as_process pid (set_pid_file h (Text (PyStr.of_int (getpid h))))) = true.
Proof. intros H. unfold locked. simpl. by rewrite int_strip_of_int. Qed.

(** What the [try] block leaves alone: the PID file and whether it can be
    removed. *)
Definition keeps_lock {A} (c : HM A) : Prop :=
  ∀ h, pid_file (snd (c h)) = pid_file h
       ∧ pid_removable (snd (c h)) = pid_removable h.

Lemma keeps_lock_hbind {A B} (c : HM A) (k : A → HM B) :
  keeps_lock c → (∀ a, keeps_lock (k a)) → keeps_lock (hbind c k).
Proof.
  intros Hc Hk h. unfold hbind. destruct (Hc h) as [E1 E2].
  destruct (c h) as [[a|e] h1]; simpl in *; [|done].
  destruct (Hk a h1) as [E3 E4]. by rewrite E3, E4.
Qed.

Lemma keeps_lock_run {A} (c : M A) : keeps_lock (run c).
Proof. by intros h. Qed.

Lemma keeps_lock_sftp_download : keeps_lock sftp_download.
Proof. intros h. unfold sftp_download. by destruct (sftp h). Qed.

Lemma keeps_lock_read_server_ini : keeps_lock read_server_ini.
Proof. by intros h. Qed.

Lemma keeps_lock_write_discord_modlist modInfo :
  keeps_lock (write_discord_modlist modInfo).
Proof. intros h. unfold write_discord_modlist. by destruct (discord_writable h). Qed.

Lemma keeps_lock_main_body args : keeps_lock (main_body args).
Proof.
  unfold main_body, asyncio_run.
  repeat first
    [ apply keeps_lock_run | apply keeps_lock_sftp_download
    | apply keeps_lock_read_server_ini | apply keeps_lock_write_discord_modlist
    | apply keeps_lock_hbind; [|intros ?]
    | match goal with |- keeps_lock (if ?b then _ else _) => destruct b end
    | (by intros h) ].
Qed.

(** X17.  The guard against a second instance.  When the PID file names a
    process that is alive, [main] exits with status 0 whatever the command
    line, and the machine is as it was: no request, no console command, no
    file written, and the PID file of the other process left in place. *)
Theorem main_locked_out (argv : command_line) (h : Host) :
  locked h = true → main argv h = (Exits 0, h).
Proof.
  intros H. unfold main.
  rewrite (check_pid_locked h H). reflexivity.
Qed.

(** X18.  The lock excludes.  When [check_pid] has returned for a process
    that is alive, the PID file holds [str(os.getpid())], which [int]
    reads back: any other process that starts [main] on that machine while
    the first one lives exits with status 0 and changes nothing. *)
Theorem lock_excludes_second_run (h : Host) (pid : Z) (argv : command_line) :
  fst (check_pid h) = Returns →
  proc h (getpid h) = true →
  main argv (as_process pid (snd (check_pid h)))
  = (Exits 0, as_process pid (snd (check_pid h))).
Proof.
  intros Hret Halive.
  assert (snd (check_pid h) = set_pid_file h (Text (PyStr.of_int (getpid h))))
    as ->.
  { destruct (locked h) eqn:L.
    - rewrite (check_pid_locked h L) in Hret. discriminate Hret.
    - rewrite (check_pid_free h L) in *. unfold write_pid in *.
      destruct (pid_writable h); [reflexivity | discriminate Hret]. }
  unfold main. rewrite check_pid_locked; [reflexivity|].
  by apply locked_by_writer.
Qed.

(** X19.  The lock is released however the [try] block ends.  When no live
    process holds the lock and the PID file can be written and removed,
    then for every command line that [parse_args] accepts the PID file is
    gone when [main] ends, also when an exception leaves [main]; and
    [main] does not end by [sys.exit]. *)
Theorem main_releases_lock (args : Args) (h : Host) :
  locked h = false → pid_writable h = true → pid_removable h = true →
  pid_file (snd (main (Parsed args) h)) = NoFile
  ∧ ∀ code, fst (main (Parsed args) h) ≠ Exits code.
Proof.
  intros L Hw Hr. unfold main.
  rewrite (check_pid_free h L). unfold write_pid. rewrite Hw.
  destruct (keeps_lock_main_body args
              (set_pid_file h (Text (PyStr.of_int (getpid h))))) as [Ef Er].
  destruct (main_body args _) as [[[]|e] h2]; simpl in *;
    (split; [|done]); unfold remove_pid; rewrite Ef, Er, Hr; reflexivity.
Qed.

(** X20.  A command line that [parse_args] rejects, or [--help], leaves
    the lock behind: [check_pid] has written the PID file before the
    arguments are parsed, and the exit of [parse_args] happens outside the
    [try] whose [finally] removes the file. *)
Theorem main_rejected_keeps_lock (code : Z) (h : Host) :
  locked h = false → pid_writable h = true →
  main (Rejected code) h
  = (Exits code, set_pid_file h (Text (PyStr.of_int (getpid h)))).
Proof.
  intros L Hw. unfold main.
  rewrite (check_pid_free h L). unfold write_pid. by rewrite Hw.
Qed.

(** X21.  [--msg] with a message that is not empty never sends it: the
    [NameError] of [send_manual_message] leaves [main], nothing has been
    sent to the console, and the [finally] has removed the PID file. *)
Theorem main_msg_fails (args : Args) (h : Host) :
  given (msg args) = true →
  locked h = false → pid_writable h = true → pid_removable h = true →
  main (Parsed args) h
  = (Raises (NameError "ZomboidRCONient"), set_pid_file h NoFile).
Proof.
  intros Hm L Hw Hr. unfold main.
  rewrite (check_pid_free h L). unfold write_pid. rewrite Hw.
  unfold main_body. rewrite Hm.
  unfold asyncio_run, await, run, send_manual_message, bind, instantiate.
  change (String.eqb "ZomboidRCONient" "ZomboidRCON") with false. cbv iota.
  rewrite (bool_decide_eq_false_2 _ ZomboidRCONient_unbound).
  unfold raise, remove_pid. simpl. by rewrite Hr.
Qed.

(** *** Runs that fetch nothing *)

Lemma set_world_same h : set_world h (world h) = h.
Proof. by destruct h. Qed.

Lemma create_modInfo_nil w : create_modInfo BATCH_SIZE [] w = (Ok ∅, w).
Proof. reflexivity. Qed.

Lemma snapshot_of_empty : snapshot_of ∅ = ∅.
Proof. apply fmap_empty. Qed.

(** Reading, fetching and checking when the file assigns no id. *)
Lemma check_without_ids test_mode h :
  snd (read_enabled_mods (readable (server_ini h))) = [] →
  hbind read_server_ini
    (λ enabled,
       hbind (run (create_modInfo BATCH_SIZE (snd enabled)))
         (λ modInfo,
            asyncio_run
              (check_mods_and_handle RCON_HOST RCON_PORT RCON_PASSWORD
                 RESTART_TIMEOUT COUNTDOWN_MINUTES modInfo test_mode))) h
  = (Ok tt, h).
Proof.
  intros Hids. unfold hbind, read_server_ini. rewrite Hids.
  unfold run at 1. rewrite create_modInfo_nil. simpl fst. simpl snd.
  rewrite set_world_same. unfold asyncio_run, await, run.
  rewrite check_mods_and_handle_nothing_fetched. simpl.
  by rewrite set_world_same.
Qed.

(** X22.  A [server.ini] that assigns no workshop id turns the watchdog
    off.  In test mode, or in a regular run that finds the file, with no
    id read from it, [main] asks Steam nothing, finds no drift whatever
    the snapshot holds, sends nothing to the console and writes nothing:
    it returns, and all it has changed is the PID file, written and
    removed. *)
Theorem main_without_ids_is_idle (args : Args) (h : Host) :
  given (msg args) = false → get_serverini args = false →
  test args = true ∨ server_ini_exists h = true →
  snd (read_enabled_mods (readable (server_ini h))) = [] →
  locked h = false → pid_writable h = true → pid_removable h = true →
  main (Parsed args) h = (Returns, set_pid_file h NoFile).
Proof.
  intros Hm Hg Hmode Hids L Hw Hr. unfold main.
  rewrite (check_pid_free h L). unfold write_pid. rewrite Hw.
  set (h1 := set_pid_file h (Text (PyStr.of_int (getpid h)))).
  assert (main_body args h1 = (Ok tt, h1)) as ->.
  { unfold main_body. rewrite Hm, Hg.
    destruct (test args); [by apply check_without_ids|].
    destruct Hmode as [Ht|He]; [discriminate Ht|].
    unfold hbind at 1. change (server_ini_exists h1) with (server_ini_exists h).
    rewrite He. by apply check_without_ids. }
  unfold remove_pid, h1. simpl. by rewrite Hr.
Qed.

(** *** What a run can add to the trace *)

(** [adds P c]: whatever the world, every event [c] adds to the trace
    satisfies [P]. *)
Definition adds {A} (P : event → Prop) (c : M A) : Prop :=
  ∀ w, ∃ t, trace (snd (c w)) = trace w ++ t ∧ Forall P t.

Definition hadds {A} (P : event → Prop) (c : HM A) : Prop :=
  ∀ h, ∃ t, trace (world (snd (c h))) = trace (world h) ++ t ∧ Forall P t.

(** The events of a run of [main]: requests to the Steam API,
    suspensions, the console commands of the restart, and the two steps of
    a write of the snapshot file. *)
Definition main_event (e : event) : Prop :=
  match e with
  | RconCommand _ => restart_event e
  | Sleep _ => True
  | HttpGet _ _ => True
  | FileOpenW path => path = LOCAL_MODINFO_FILE
  | FileDump path => path = LOCAL_MODINFO_FILE
  end.

Lemma restart_event_main_event e : restart_event e → main_event e.
Proof. by destruct e. Qed.

Lemma quiet_adds {A} P (c : M A) : quiet P c → adds P c.
Proof. intros H w. destruct (H w) as (t & E & F). exists t. by rewrite E. Qed.

Lemma adds_nothing {A} P (c : M A) :
  (∀ w, trace (snd (c w)) = trace w) → adds P c.
Proof. intros H w. exists []. by rewrite app_nil_r. Qed.

Lemma adds_bind {A B} P (c : M A) (k : A → M B) :
  adds P c → (∀ a, adds P (k a)) → adds P (bind c k).
Proof.
  intros Hc Hk w. unfold bind. destruct (Hc w) as (t1 & E1 & F1).
  destruct (c w) as [[a|e] w1]; simpl in E1.
  - destruct (Hk a w1) as (t2 & E2 & F2). exists (t1 ++ t2).
    rewrite E2, E1, app_assoc. split; [done | by apply Forall_app].
  - by exists t1.
Qed.

Lemma quiet_requests_get P batch :
  (∀ ids reply, P (HttpGet ids reply)) → quiet P (requests_get batch).
Proof. intros H w. eexists [_]. split; [reflexivity | by constructor]. Qed.

Lemma quiet_attempts P batch todo :
  (∀ ids reply, P (HttpGet ids reply)) → (∀ seconds, P (Sleep seconds)) →
  quiet P (attempts batch todo).
Proof.
  intros Hh Hs. induction todo as [|attempt rest IH]; simpl.
  - apply quiet_ret.
  - apply quiet_bind; [by apply quiet_requests_get|].
    intros [| | |data|];
      try (apply quiet_bind; [apply quiet_emit, Hs | intros _; apply IH]).
    + apply quiet_ret.
    + apply quiet_raise.
Qed.

Lemma quiet_fetch_batches P batches :
  (∀ ids reply, P (HttpGet ids reply)) → (∀ seconds, P (Sleep seconds)) →
  ∀ results, quiet P (fetch_batches batches results).
Proof.
  intros Hh Hs. induction batches as [|batch rest IH]; intros results.
  - apply quiet_ret.
  - change (fetch_batches (batch :: rest) results)
      with (bind (attempts batch (map Z.of_nat (seq 0 5)))
              (λ data,
                 match data with
                 | None => fetch_batches rest results
                 | Some data =>
                     bind (sleep (1 # 2))
                       (λ _, fetch_batches rest (foldl store_details results data))
                 end)).
    apply quiet_bind; [by apply quiet_attempts|].
    intros [data|]; [|apply IH].
    apply quiet_bind; [apply quiet_emit, Hs | intros _; apply IH].
Qed.

Lemma quiet_slices {A} P (l : list A) step : quiet P (slices l step).
Proof.
  unfold slices. destruct (step =? 0); [apply quiet_raise|].
  destruct (step <? 0); apply quiet_ret.
Qed.

Lemma quiet_fetch_workshop_details P mod_ids batch_size :
  (∀ ids reply, P (HttpGet ids reply)) → (∀ seconds, P (Sleep seconds)) →
  quiet P (fetch_workshop_details mod_ids batch_size).
Proof.
  intros Hh Hs. unfold fetch_workshop_details.
  destruct (is_nil mod_ids); [apply quiet_ret|].
  apply quiet_try_except; [|intros _; apply quiet_ret].
  apply quiet_bind; [apply quiet_slices|].
  intros batches. by apply quiet_fetch_batches.
Qed.

Lemma quiet_create_loop P batches :
  (∀ ids reply, P (HttpGet ids reply)) → (∀ seconds, P (Sleep seconds)) →
  ∀ infos, quiet P (create_loop batches infos).
Proof.
  intros Hh Hs. induction batches as [|batch rest IH]; intros infos; simpl.
  - apply quiet_ret.
  - apply quiet_bind; [by apply quiet_fetch_workshop_details|].
    intros data. apply IH.
Qed.

(** [create_modInfo] only asks the Steam API and waits. *)
Lemma quiet_create_modInfo P workshop_ids :
  (∀ ids reply, P (HttpGet ids reply)) → (∀ seconds, P (Sleep seconds)) →
  quiet P (create_modInfo BATCH_SIZE workshop_ids).
Proof.
  intros Hh Hs. unfold create_modInfo.
  destruct (is_nil workshop_ids); [apply quiet_ret|].
  apply quiet_bind; [apply quiet_slices|].
  intros batches. by apply quiet_create_loop.
Qed.

Lemma adds_write modInfo :
  adds main_event (write_modInfo_timeUpdated_file modInfo LOCAL_MODINFO_FILE).
Proof.
  intros w. destruct (decide (LOCAL_MODINFO_FILE ∈ unwritable w)) as [H|H].
  - rewrite write_denied by done. exists []. by rewrite app_nil_r.
  - rewrite write_run by done.
    exists [FileOpenW LOCAL_MODINFO_FILE; FileDump LOCAL_MODINFO_FILE].
    split; [done | by repeat constructor].
Qed.

Lemma adds_warn_and_restart test_mode :
  adds main_event
    (warn_and_restart RCON_HOST RCON_PORT RCON_PASSWORD RESTART_TIMEOUT
       COUNTDOWN_MINUTES test_mode).
Proof.
  apply quiet_adds. intros w.
  destruct (warn_and_restart_quiet RCON_HOST RCON_PORT RCON_PASSWORD
              RESTART_TIMEOUT COUNTDOWN_MINUTES test_mode w) as (t & E & F).
  exists t. split; [done|].
  eapply Forall_impl; [exact F | apply restart_event_main_event].
Qed.

Lemma adds_are_mods_outdated modInfo :
  adds main_event (are_mods_outdated modInfo LOCAL_MODINFO_FILE).
Proof.
  intros w.
  destruct (are_mods_outdated_cases modInfo LOCAL_MODINFO_FILE w)
    as [E|[(e & E)|[(_ & _ & E)|(_ & _ & E)]]]; rewrite E.
  - exists []. by rewrite app_nil_r.
  - exists []. by rewrite app_nil_r.
  - exists [FileOpenW LOCAL_MODINFO_FILE; FileDump LOCAL_MODINFO_FILE].
    split; [done | by repeat constructor].
  - exists []. by rewrite app_nil_r.
Qed.

Lemma adds_check_mods_and_handle modInfo test_mode :
  adds main_event
    (check_mods_and_handle RCON_HOST RCON_PORT RCON_PASSWORD RESTART_TIMEOUT
       COUNTDOWN_MINUTES modInfo test_mode).
Proof.
  unfold check_mods_and_handle, await.
  apply adds_bind; [apply adds_are_mods_outdated|].
  intros [|]; [apply adds_warn_and_restart|].
  apply quiet_adds, quiet_ret.
Qed.

Lemma adds_send_manual_message message :
  adds main_event
    (send_manual_message RCON_HOST RCON_PORT RCON_PASSWORD message).
Proof.
  apply adds_nothing. intros w.
  unfold send_manual_message, bind, instantiate.
  change (String.eqb "ZomboidRCONient" "ZomboidRCON") with false. cbv iota.
  by rewrite (bool_decide_eq_false_2 _ ZomboidRCONient_unbound).
Qed.

Lemma hadds_hbind {A B} P (c : HM A) (k : A → HM B) :
  hadds P c → (∀ a, hadds P (k a)) → hadds P (hbind c k).
Proof.
  intros Hc Hk h. unfold hbind. destruct (Hc h) as (t1 & E1 & F1).
  destruct (c h) as [[a|e] h1]; simpl in E1.
  - destruct (Hk a h1) as (t2 & E2 & F2). exists (t1 ++ t2).
    rewrite E2, E1, app_assoc. split; [done | by apply Forall_app].
  - by exists t1.
Qed.

Lemma hadds_run {A} P (c : M A) : adds P c → hadds P (run c).
Proof. intros H h. exact (H (world h)). Qed.

Lemma hadds_nothing {A} P (c : HM A) :
  (∀ h, world (snd (c h)) = world h) → hadds P c.
Proof. intros H h. exists []. by rewrite H, app_nil_r. Qed.

Lemma hadds_main_body args : hadds main_event (main_body args).
Proof.
  assert (∀ ids, hadds main_event (run (create_modInfo BATCH_SIZE ids))) as Hc
    by (intros; by apply hadds_run, quiet_adds, quiet_create_modInfo).
  assert (hadds main_event sftp_download) as Hs
    by (apply hadds_nothing; intros h; unfold sftp_download; by destruct (sftp h)).
  assert (hadds main_event read_server_ini) as Hr by (by apply hadds_nothing).
  assert (∀ m, hadds main_event (write_discord_modlist m)) as Hd
    by (intros m; apply hadds_nothing; intros h; unfold write_discord_modlist;
        by destruct (discord_writable h)).
  assert (∀ m t, hadds main_event
            (asyncio_run
               (check_mods_and_handle RCON_HOST RCON_PORT RCON_PASSWORD
                  RESTART_TIMEOUT COUNTDOWN_MINUTES m t))) as Hk
    by (intros; apply hadds_run, adds_check_mods_and_handle).
  assert (∀ m, hadds main_event
            (run (write_modInfo_timeUpdated_file m LOCAL_MODINFO_FILE))) as Hw
    by (intros; apply hadds_run, adds_write).
  unfold main_body.
  destruct (given (msg args)).
  { apply hadds_run, adds_send_manual_message. }
  destruct (get_serverini args).
  { repeat (apply hadds_hbind; [done | intros ?]). done. }
  destruct (test args).
  { repeat (apply hadds_hbind; [done | intros ?]). done. }
  apply hadds_hbind; [by apply hadds_nothing | intros [|]];
    repeat (apply hadds_hbind; [done | intros ?]); done.
Qed.

Lemma check_pid_world h : world (snd (check_pid h)) = world h.
Proof.
  unfold check_pid, write_pid.
  destruct (pid_file h) as [| |text]; [| |destruct (int _) as [pid|];
    [destruct (proc h pid)|]]; try done; by destruct (pid_writable h).
Qed.

Lemma remove_pid_world h : world (remove_pid h) = world h.
Proof.
  unfold remove_pid.
  destruct (pid_file h); try done; by destruct (pid_removable h).
Qed.

(** X24.  [main] never stops the server.  Whatever the command line and
    whatever the machine, lock included, all a run adds to the trace are
    requests to the Steam API, suspensions, roster queries, broadcasts,
    [kickuser] commands and writes of the snapshot file: no [save] and no
    [quit] is ever sent. *)
Theorem main_never_stops_server (argv : command_line) (h : Host) :
  ∃ t, trace (world (snd (main argv h))) = trace (world h) ++ t
       ∧ Forall main_event t
       ∧ (RconCommand "save" ∉ t) ∧ (RconCommand "quit" ∉ t).
Proof.
  assert (∃ t, trace (world (snd (main argv h))) = trace (world h) ++ t
               ∧ Forall main_event t) as (t & E & F).
  { unfold main. pose proof (check_pid_world h) as Hw.
    destruct (check_pid h) as [[|code|e] h1]; simpl in Hw;
      try (exists []; simpl; by rewrite Hw, app_nil_r).
    destruct argv as [args|code];
      [|exists []; simpl; by rewrite Hw, app_nil_r].
    destruct (hadds_main_body args h1) as (t & E & F).
    exists t. split; [|done].
    destruct (main_body args h1) as [[[]|e] h2]; simpl in *;
      by rewrite remove_pid_world, E, Hw. }
  exists t. repeat split; try done; intros Hin;
    rewrite Forall_forall in F; apply F in Hin;
    [by apply restart_event_not_save | by apply restart_event_not_quit].
Qed.

(** The download changes nothing but [server.ini]. *)
Lemma sftp_download_run h :
  ∃ done, sftp_download h
          = (Ok done, set_server_ini h (server_ini (snd (sftp_download h)))).
Proof.
  unfold sftp_download. destruct (sftp h); eexists; simpl; try reflexivity.
  by destruct h.
Qed.

(** X23.  [--get_serverini] writes the snapshot without comparing.  When
    the download leaves a [server.ini] that assigns no workshop id, or
    none at all, the run asks Steam nothing and replaces the snapshot by
    the empty one; after that every mapping that is not empty counts as
    drift. *)
Theorem get_serverini_without_ids_wipes_snapshot (args : Args) (h : Host) :
  given (msg args) = false → get_serverini args = true →
  snd (read_enabled_mods (readable (server_ini (snd (sftp_download h))))) = [] →
  (LOCAL_MODINFO_FILE ∉ unwritable (world h)) →
  (LOCAL_MODINFO_FILE ∉ unreadable (world h)) →
  locked h = false → pid_writable h = true →
  fst (main (Parsed args) h) = Returns
  ∧ files (world (snd (main (Parsed args) h))) !! LOCAL_MODINFO_FILE
    = Some (Json ∅)
  ∧ trace (world (snd (main (Parsed args) h)))
    = trace (world h)
        ++ [FileOpenW LOCAL_MODINFO_FILE; FileDump LOCAL_MODINFO_FILE]
  ∧ ∀ modInfo, modInfo ≠ ∅ →
      fst (are_mods_outdated modInfo LOCAL_MODINFO_FILE
             (world (snd (main (Parsed args) h)))) = Ok true.
Proof.
  intros Hm Hg Hids Hw Hr L Hpw.
  set (w' := rewritten (world h) LOCAL_MODINFO_FILE ∅
               [FileOpenW LOCAL_MODINFO_FILE; FileDump LOCAL_MODINFO_FILE]).
  assert (fst (main (Parsed args) h) = Returns
          ∧ world (snd (main (Parsed args) h)) = w') as [E1 E2].
  { unfold main. rewrite (check_pid_free h L). unfold write_pid. rewrite Hpw.
    set (h1 := set_pid_file h (Text (PyStr.of_int (getpid h)))).
    assert (∃ h2, main_body args h1 = (Ok tt, h2) ∧ world h2 = w')
      as (h2 & -> & Hw2).
    { unfold main_body. rewrite Hm, Hg. unfold hbind at 1.
      destruct (sftp_download_run h1) as (done & ->).
      assert (server_ini (snd (sftp_download h1))
              = server_ini (snd (sftp_download h))) as ->.
      { unfold sftp_download, h1. simpl. by destruct (sftp h). }
      unfold hbind at 1. unfold read_server_ini at 1.
      simpl server_ini. rewrite Hids.
      unfold hbind at 1. unfold run at 1. rewrite create_modInfo_nil.
      simpl fst. simpl snd. cbv beta iota.
      unfold hbind, write_discord_modlist, run.
      destruct (discord_writable _); simpl world;
        rewrite write_run by done; eexists; split; reflexivity. }
    split; [reflexivity|]. simpl. by rewrite remove_pid_world. }
  split; [exact E1|]. rewrite E2.
  assert (files w' !! LOCAL_MODINFO_FILE = Some (Json ∅)) as Hf.
  { unfold w', rewritten. simpl. by rewrite lookup_insert_eq, snapshot_of_empty. }
  split; [exact Hf|]. split; [reflexivity|].
  intros modInfo Hne.
  rewrite (are_mods_outdated_run modInfo LOCAL_MODINFO_FILE w' ∅ Hr Hf)
    by (intros i x e _ He; by rewrite lookup_empty in He).
  assert (drift modInfo ∅) as Hd.
  { destruct (map_choose modInfo Hne) as (mod_id & item & Hi).
    exists mod_id, item. split; [done|]. left. apply lookup_empty. }
  apply outdated_ids_drift in Hd. by rewrite Hd.
Qed.

End Main.

(** ** Concrete runs of [main] *)

(** A machine on which the watchdog does not run: no PID file, no
    [server.ini], the snapshot of the example, and no way to the server
    the file is fetched from.  The process 4242 is the one that starts. *)
Definition idle_machine : Host :=
  mkHost with_snapshot 4242 (λ pid, pid =? 4242) NoFile true true
    NoFile Unreachable true None.

(** The same machine while the process 4242 holds the lock, seen by the
    process 4343. *)
Definition locked_machine : Host :=
  mkHost with_snapshot 4343 (λ pid, pid =? 4242) (Text "4242") true true
    NoFile Unreachable true None.

(** A machine with the empty [server.ini] a failed transfer has left. *)
Definition emptied_machine : Host :=
  mkHost with_snapshot 4242 (λ pid, pid =? 4242) NoFile true true
    (Text EmptyString) Unreachable true None.

Definition regular_run : Args := mkArgs false None false.
Definition refresh_run : Args := mkArgs true None false.
Definition message_run : Args := mkArgs false (Some "hello") false.

(** A regular run while the process 4242 holds the lock. *)
Lemma main_locked_out_witness :
  locked locked_machine = true
  ∧ main "127.0.0.1" 27015 "secret" 50 5 5 (Parsed regular_run) locked_machine
    = (Exits 0, locked_machine).
Proof.
  split; [reflexivity|].
  exact (main_locked_out "127.0.0.1" 27015 "secret" 50 5 5 (Parsed regular_run)
           locked_machine eq_refl).
Defined.

(** The process 4242 takes the lock; the process 4343 is turned away. *)
Lemma lock_excludes_second_run_witness :
  check_pid idle_machine = (Returns, set_pid_file idle_machine (Text "4242"))
  ∧ proc idle_machine 4242 = true
  ∧ main "127.0.0.1" 27015 "secret" 50 5 5 (Parsed regular_run)
      (as_process 4343 (snd (check_pid idle_machine)))
    = (Exits 0, as_process 4343 (snd (check_pid idle_machine))).
Proof.
  split; [reflexivity|]. split; [reflexivity|].
  exact (lock_excludes_second_run "127.0.0.1" 27015 "secret" 50 5 5 idle_machine
           4343 (Parsed regular_run) eq_refl eq_refl).
Defined.

(** The PID file is gone after a run that ends with an exception. *)
Lemma main_releases_lock_witness :
  locked idle_machine = false
  ∧ pid_file (snd (main "127.0.0.1" 27015 "secret" 50 5 5 (Parsed message_run)
                     idle_machine)) = NoFile
  ∧ ∀ code, fst (main "127.0.0.1" 27015 "secret" 50 5 5 (Parsed message_run)
                   idle_machine) ≠ Exits code.
Proof.
  split; [reflexivity|].
  exact (main_releases_lock "127.0.0.1" 27015 "secret" 50 5 5 message_run
           idle_machine eq_refl eq_refl eq_refl).
Defined.

(** A command line that is rejected: the PID file stays. *)
Lemma main_rejected_keeps_lock_witness :
  locked idle_machine = false
  ∧ main "127.0.0.1" 27015 "secret" 50 5 5 (Rejected 2) idle_machine
    = (Exits 2, set_pid_file idle_machine (Text "4242")).
Proof.
  split; [reflexivity|].
  exact (main_rejected_keeps_lock "127.0.0.1" 27015 "secret" 50 5 5 2
           idle_machine eq_refl eq_refl).
Defined.

(** [--msg hello] *)
Lemma main_msg_fails_witness :
  given (msg message_run) = true
  ∧ main "127.0.0.1" 27015 "secret" 50 5 5 (Parsed message_run) idle_machine
    = (Raises (NameError "ZomboidRCONient"), idle_machine).
Proof.
  split; [reflexivity|].
  exact (main_msg_fails "127.0.0.1" 27015 "secret" 50 5 5 message_run
           idle_machine eq_refl eq_refl eq_refl eq_refl).
Defined.

(** A regular run on the empty [server.ini]. *)
Lemma main_without_ids_is_idle_witness :
  server_ini_exists emptied_machine = true
  ∧ read_enabled_mods (readable (server_ini emptied_machine)) = ([], [])
  ∧ main "127.0.0.1" 27015 "secret" 50 5 5 (Parsed regular_run) emptied_machine
    = (Returns, emptied_machine).
Proof.
  split; [reflexivity|]. split; [reflexivity|].
  exact (main_without_ids_is_idle "127.0.0.1" 27015 "secret" 50 5 5 regular_run
           emptied_machine eq_refl eq_refl (or_intror eq_refl) eq_refl eq_refl
           eq_refl eq_refl).
Defined.

(** [--get_serverini] while the server cannot be reached: the snapshot of
    the example is replaced by the empty one, and the mapping of the
    example then counts as drift. *)
Lemma get_serverini_without_ids_wipes_snapshot_witness :
  files (world idle_machine) !! LOCAL_MODINFO_FILE = Some (Json old_snapshot)
  ∧ fst (main "127.0.0.1" 27015 "secret" 50 5 5 (Parsed refresh_run)
           idle_machine) = Returns
  ∧ files (world (snd (main "127.0.0.1" 27015 "secret" 50 5 5
                         (Parsed refresh_run) idle_machine)))
      !! LOCAL_MODINFO_FILE = Some (Json ∅)
  ∧ fst (are_mods_outdated fresh LOCAL_MODINFO_FILE
           (world (snd (main "127.0.0.1" 27015 "secret" 50 5 5
                          (Parsed refresh_run) idle_machine)))) = Ok true.
Proof.
  split; [exact with_snapshot_holds|].
  destruct (get_serverini_without_ids_wipes_snapshot "127.0.0.1" 27015 "secret"
              50 5 5 refresh_run idle_machine eq_refl eq_refl eq_refl
              with_snapshot_writable with_snapshot_readable eq_refl eq_refl)
    as (E1 & E2 & _ & E4).
  split; [exact E1|]. split; [exact E2|].
  apply E4. intros E.
  assert (fresh !! "111" = (∅ : gmap string ModInfo) !! "111") as H
    by (by rewrite E).
  unfold fresh in H. rewrite lookup_singleton_eq, lookup_empty in H.
  discriminate H.
Defined.
